(** * GLM proxy: shallow embedding of the protocol bridge and its proofs

    The development follows the JavaScript sources:
    - [Splitter]   : class ReasoningTagParser (streaming/anthropic-stream.js,
                     streaming/bigmodel-stream.js; both copies are identical)
    - [StopReason] : mapStopReason (transformers/response.js)
    - [Router]     : model-router.js, determineEndpoint (server.js)
    - [Executor]   : executeWithTools (tools/executor.js)
    - [Stream]     : streamFromAnthropic / streamAnthropicWithToolDetection
    - [Recovery]   : handleMessages auto-compact retry (server.js)
*)

From Stdlib Require Import String Ascii.
From Stdlib Require Import List Bool Arith ZArith NArith Lia DecimalString.
Import ListNotations.

Set Warnings "-register-all".

(** ** JavaScript strings

    A JavaScript string is a sequence of UTF-16 code units. *)

Definition code_unit := N.
Definition jsstring := list code_unit.

Definition lit (s : string) : jsstring :=
  map N_of_ascii (list_ascii_of_string s).

Fixpoint jsstring_eqb (a b : jsstring) : bool :=
  match a, b with
  | [], [] => true
  | x :: a', y :: b' => N.eqb x y && jsstring_eqb a' b'
  | _, _ => false
  end.

(** [startsWith s pat]: [pat] occurs in [s] at position 0. *)
Fixpoint startsWith (s pat : jsstring) {struct pat} : bool :=
  match pat with
  | [] => true
  | p :: pat' =>
      match s with
      | [] => false
      | c :: s' => N.eqb c p && startsWith s' pat'
      end
  end.

(** [String.prototype.indexOf]: position of the first occurrence, [None]
    standing for the sentinel -1. *)
Fixpoint indexOf (s pat : jsstring) : option nat :=
  if startsWith s pat then Some 0
  else match s with
       | [] => None
       | _ :: s' => option_map S (indexOf s' pat)
       end.

(** [String.prototype.substring(lo, hi)]: both bounds are clamped to the
    length and swapped when [lo > hi]. *)
Definition substring (s : jsstring) (lo hi : nat) : jsstring :=
  firstn (Nat.max lo hi - Nat.min lo hi) (skipn (Nat.min lo hi) s).

(** [String.prototype.substring(lo)]. *)
Definition substringFrom (s : jsstring) (lo : nat) : jsstring := skipn lo s.

(** Truthiness of a string: non-empty. *)
Definition truthy (s : jsstring) : bool :=
  match s with [] => false | _ => true end.

(** ** Reasoning tag splitter (class ReasoningTagParser) *)

Module Splitter.

Definition REASONING_OPEN_TAG : jsstring :=
  Eval vm_compute in lit "<reasoning_content>".
Definition REASONING_CLOSE_TAG : jsstring :=
  Eval vm_compute in lit "</reasoning_content>".

Inductive segtype := thinking | text.

Record segment := { type : segtype; content : jsstring }.

(** Parser fields.  [pendingOutput] is reset at the start of every
    [processChunk] and returned from it, so it is threaded as a result. *)
Record parser := { buffer : jsstring; inReasoning : bool }.

Definition new_parser : parser := {| buffer := []; inReasoning := false |}.

(** [findPartialTag]: the [for] loop running [len] downwards. *)
Fixpoint findPartialTag_from (len : nat) (text tag : jsstring) : nat :=
  match len with
  | 0 => 0
  | S len' =>
      if jsstring_eqb (substringFrom text (length text - len))
                      (substring tag 0 len)
      then len
      else findPartialTag_from len' text tag
  end.

Definition findPartialTag (text tag : jsstring) : nat :=
  findPartialTag_from (Nat.min (length text) (length tag - 1)) text tag.

Definition push (out : list segment) (t : segtype) (c : jsstring) :=
  out ++ [{| type := t; content := c |}].

Definition push_if (out : list segment) (t : segtype) (c : jsstring) :=
  if truthy c then push out t c else out.

(** The [while (this.buffer.length > 0)] loop.  Every pass that does not
    [break] removes a whole tag from the buffer, so [length buffer + 1]
    passes always suffice; [fuel] is that bound. *)
Fixpoint processLoop (fuel : nat) (buf : jsstring) (inR : bool)
         (out : list segment) : parser * list segment :=
  match fuel with
  | 0 => ({| buffer := buf; inReasoning := inR |}, out)
  | S fuel' =>
      match buf with
      | [] => ({| buffer := buf; inReasoning := inR |}, out)
      | _ :: _ =>
          if inR then
            match indexOf buf REASONING_CLOSE_TAG with
            | Some closeIdx =>
                let reasoningContent := substring buf 0 closeIdx in
                processLoop fuel'
                  (substringFrom buf (closeIdx + length REASONING_CLOSE_TAG))
                  false
                  (push_if out thinking reasoningContent)
            | None =>
                let partialClose := findPartialTag buf REASONING_CLOSE_TAG in
                if 0 <? partialClose then
                  let safeContent := substring buf 0 (length buf - partialClose) in
                  ({| buffer := substringFrom buf (length buf - partialClose);
                      inReasoning := inR |},
                   push_if out thinking safeContent)
                else
                  ({| buffer := []; inReasoning := inR |},
                   push out thinking buf)
            end
          else
            match indexOf buf REASONING_OPEN_TAG with
            | Some openIdx =>
                let textContent := substring buf 0 openIdx in
                processLoop fuel'
                  (substringFrom buf (openIdx + length REASONING_OPEN_TAG))
                  true
                  (push_if out text textContent)
            | None =>
                let partialOpen := findPartialTag buf REASONING_OPEN_TAG in
                if 0 <? partialOpen then
                  let safeContent := substring buf 0 (length buf - partialOpen) in
                  ({| buffer := substringFrom buf (length buf - partialOpen);
                      inReasoning := inR |},
                   push_if out text safeContent)
                else
                  ({| buffer := []; inReasoning := inR |},
                   push out text buf)
            end
      end
  end.

Definition processChunk (p : parser) (chunk : jsstring)
  : parser * list segment :=
  let buf := buffer p ++ chunk in
  processLoop (S (length buf)) buf (inReasoning p) [].

Definition flush (p : parser) : parser * list segment :=
  if truthy (buffer p) then
    ({| buffer := []; inReasoning := inReasoning p |},
     [{| type := if inReasoning p then thinking else text;
         content := buffer p |}])
  else (p, []).

(** Feeding a sequence of chunks, then one terminal [flush]; the result
    is every segment emitted, in order. *)
Fixpoint feed (p : parser) (chunks : list jsstring) : list segment :=
  match chunks with
  | [] => snd (flush p)
  | c :: rest =>
      let '(p', out) := processChunk p c in
      out ++ feed p' rest
  end.

Definition run (chunks : list jsstring) : list segment :=
  feed new_parser chunks.

End Splitter.

(** Reference classification of a whole input, independent of chunking:
    the input is read once, left to right; a marker of the current mode
    switches the mode and is dropped, every other code unit is kept with
    the mode it was read in. *)
Module SplitterSpec.
Import Splitter.

Definition tag_of (inR : bool) : jsstring :=
  if inR then REASONING_CLOSE_TAG else REASONING_OPEN_TAG.

Definition kind_of (inR : bool) : segtype :=
  if inR then thinking else text.

Fixpoint scan (inR : bool) (skip : nat) (s : jsstring)
  : list (segtype * code_unit) :=
  match s with
  | [] => []
  | c :: s' =>
      match skip with
      | S k => scan inR k s'
      | 0 =>
          if startsWith s (tag_of inR)
          then scan (negb inR) (length (tag_of inR) - 1) s'
          else (kind_of inR, c) :: scan inR 0 s'
      end
  end.

(** Emitted segments as a stream of code units, each with the type of
    the segment that carries it. *)
Definition units (out : list segment) : list (segtype * code_unit) :=
  flat_map (fun sg => map (pair (type sg)) (content sg)) out.

(** A document with well-formed tag pairs: leading text, then any number
    of (reasoning, following text) pairs. *)
Definition doc : Type := (jsstring * list (jsstring * jsstring))%type.

Fixpoint render_pairs (ps : list (jsstring * jsstring)) : jsstring :=
  match ps with
  | [] => []
  | (r, t) :: ps' =>
      REASONING_OPEN_TAG ++ r ++ REASONING_CLOSE_TAG ++ t ++ render_pairs ps'
  end.

Definition render (d : doc) : jsstring := fst d ++ render_pairs (snd d).

Fixpoint stripped_pairs (ps : list (jsstring * jsstring)) : jsstring :=
  match ps with
  | [] => []
  | (r, t) :: ps' => r ++ t ++ stripped_pairs ps'
  end.

(** The input with the tag markers removed. *)
Definition stripped (d : doc) : jsstring := fst d ++ stripped_pairs (snd d).

Fixpoint expected_pairs (ps : list (jsstring * jsstring))
  : list (segtype * code_unit) :=
  match ps with
  | [] => []
  | (r, t) :: ps' =>
      map (pair thinking) r ++ map (pair text) t ++ expected_pairs ps'
  end.

(** Every code unit with the type its position calls for: [thinking]
    between a matching pair, [text] elsewhere. *)
Definition expected (d : doc) : list (segtype * code_unit) :=
  map (pair text) (fst d) ++ expected_pairs (snd d).

Definition tag_free (s : jsstring) : Prop :=
  indexOf s REASONING_OPEN_TAG = None /\ indexOf s REASONING_CLOSE_TAG = None.

Definition well_formed (d : doc) : Prop :=
  tag_free (fst d) /\
  Forall (fun rt => tag_free (fst rt) /\ tag_free (snd rt)) (snd d).

(** No proper suffix of [t] is a prefix of [t]. *)
Definition border_free (t : jsstring) : bool :=
  forallb (fun k => negb (startsWith t (skipn k t))) (seq 1 (length t - 1)).

Definition nonempty (sg : segment) : Prop := content sg <> [].

(** "Hi <reasoning_content>plan</reasoning_content> done
     <reasoning_content></reasoning_content>!" *)
Definition sample_doc : doc :=
  (lit "Hi ", [(lit "plan", lit " done"); (lit EmptyString, lit "!")]).

End SplitterSpec.

(** ** Exceptions and results

    A JavaScript call either returns a value or throws.  The classes are
    those of utils/errors.js that the modelled code throws or tests with
    [instanceof]; [ContextLimitError] is imported by server.js from the
    same module. *)

Inductive error :=
| TypeError (message : string)
| ToolExecutionError (message : string) (iteration : nat)
| ContextLimitError (message : string)
| GlmApiError (message : string) (status : nat)
| OtherError (message : string).

Inductive result (A : Type) :=
| Ok (a : A)
| Throw (e : error).
Arguments Ok {A} a.
Arguments Throw {A} e.

Definition bind {A B : Type} (r : result A) (k : A -> result B) : result B :=
  match r with
  | Ok a => k a
  | Throw e => Throw e
  end.

Notation "x <- r ;; k" := (bind r (fun x => k))
  (at level 61, r at next level, right associativity).

(** ** Stop-reason mapping (transformers/response.js) *)

Module StopReason.
Local Open Scope string_scope.

(** [finish_reason] as it arrives from the backend: a string, or absent. *)
Inductive finish_value :=
| FStr (s : string)
| FUndefined
| FNull.

(** Conversion of the subscript in [mapping[finishReason]] to a
    property key. *)
Definition property_key (f : finish_value) : string :=
  match f with
  | FStr s => s
  | FUndefined => "undefined"
  | FNull => "null"
  end.

(** Own properties of the object literal [mapping]. *)
Definition mapping : list (string * string) :=
  [ ("stop", "end_turn");
    ("length", "max_tokens");
    ("tool_calls", "tool_use");
    ("content_filter", "end_turn");
    ("function_call", "tool_use") ].

(** [mapping] is an ordinary object: a key that is not an own property
    is looked up on [Object.prototype]. *)
Definition object_prototype_members : list string :=
  [ "constructor"; "__defineGetter__"; "__defineSetter__";
    "hasOwnProperty"; "__lookupGetter__"; "__lookupSetter__";
    "isPrototypeOf"; "propertyIsEnumerable"; "toString"; "valueOf";
    "__proto__"; "toLocaleString" ].

Fixpoint assoc (k : string) (l : list (string * string)) : option string :=
  match l with
  | [] => None
  | (k', v) :: l' => if String.eqb k k' then Some v else assoc k l'
  end.

Definition includes (l : list string) (s : string) : bool :=
  existsb (String.eqb s) l.

(** What [mapStopReason] returns: a string, or - for a key found on the
    prototype - the inherited member itself, which is truthy and so
    survives [|| 'end_turn']. *)
Inductive stop_value :=
| Str (s : string)
| InheritedMember (name : string).

Definition mapStopReason (finishReason : finish_value) (hasToolCalls : bool)
  : stop_value :=
  if hasToolCalls then Str "tool_use"
  else
    let key := property_key finishReason in
    match assoc key mapping with
    | Some v => Str v
    | None =>
        if includes object_prototype_members key
        then InheritedMember key
        else Str "end_turn"
    end.

(** tools/definitions.js *)
Definition OUR_TOOL_NAMES : list string := ["web_search"; "web_reader"].

Definition TOOL_ALIASES : list (string * string) :=
  [ ("WebSearch", "web_search"); ("websearch", "web_search");
    ("Websearch", "web_search"); ("WebFetch", "web_reader");
    ("webfetch", "web_reader"); ("Webfetch", "web_reader");
    ("search_web", "web_search"); ("fetch_url", "web_reader");
    ("read_url", "web_reader"); ("browse", "web_reader") ].

Definition isOurTool (name : string) : bool :=
  includes OUR_TOOL_NAMES name
  || match assoc name TOOL_ALIASES with Some _ => true | None => false end.

(** The stop reason computed by [transformResponse] from the finish
    reason of the first choice and the names of the proposed tool calls. *)
Definition transformResponse_stop_reason
           (finish_reason : finish_value) (tool_call_names : list string)
  : stop_value :=
  let clientToolCalls := filter (fun n => negb (isOurTool n)) tool_call_names in
  let hasClientToolCalls := (0 <? length clientToolCalls)%nat in
  mapStopReason finish_reason hasClientToolCalls.

Definition recognized (s : string) : bool :=
  match assoc s mapping with Some _ => true | None => false end.

End StopReason.

(** ** Model and endpoint routing (routing/model-router.js, server.js) *)

Module Router.
Local Open Scope string_scope.

(** Parsed JSON, as the request body and its messages are. *)
Inductive value :=
| VUndefined
| VNull
| VBool (b : bool)
| VNum (n : Z)
| VStr (s : string)
| VArr (items : list value)
| VObj (fields : list (string * value)).

Fixpoint lookup (k : string) (fields : list (string * value)) : value :=
  match fields with
  | [] => VUndefined
  | (k', v) :: rest => if String.eqb k k' then v else lookup k rest
  end.

(** Property read [v.k] for the keys used here ([type], [content]),
    none of which is a built-in member of arrays or primitives.
    Reading a property of [undefined] or [null] throws. *)
Definition get (v : value) (k : string) : result value :=
  match v with
  | VUndefined => Throw (TypeError "Cannot read properties of undefined")
  | VNull => Throw (TypeError "Cannot read properties of null")
  | VObj fields => Ok (lookup k fields)
  | _ => Ok VUndefined
  end.

(** [!block || typeof block !== 'object'] *)
Definition not_an_object (block : value) : bool :=
  match block with
  | VArr _ | VObj _ => false
  | _ => true
  end.

Definition is_str (v : value) (s : string) : bool :=
  match v with
  | VStr s' => String.eqb s' s
  | _ => false
  end.

Definition type_is (block : value) (s : string) : bool :=
  match get block "type" with
  | Ok t => is_str t s
  | Throw _ => false
  end.

Definition isImageBlock (block : value) : bool :=
  if not_an_object block then false
  else if type_is block "image" then true
  else if type_is block "image_url" then true
  else false.

Definition isVideoBlock (block : value) : bool :=
  if not_an_object block then false
  else if type_is block "video" then true
  else if type_is block "video_url" then true
  else false.

Definition isMediaBlock (block : value) : bool :=
  isImageBlock block || isVideoBlock block.

(** [Array.prototype.some] with a callback that may throw. *)
Fixpoint some (f : value -> result bool) (l : list value) : result bool :=
  match l with
  | [] => Ok false
  | x :: rest =>
      b <- f x ;;
      if b then Ok true else some f rest
  end.

Definition contentHasMedia_block (block : value) : result bool :=
  if isMediaBlock block then Ok true
  else
    t <- get block "type" ;;
    if is_str t "tool_result" then
      c <- get block "content" ;;
      match c with
      | VStr _ => Ok false
      | VArr items => Ok (existsb isMediaBlock items)
      | _ => Ok false
      end
    else Ok false.

Definition contentHasMedia (contentArray : value) : result bool :=
  match contentArray with
  | VArr blocks => some contentHasMedia_block blocks
  | _ => Ok false
  end.

Definition detectMedia_message (msg : value) : result bool :=
  content <- get msg "content" ;;
  match content with
  | VStr _ => Ok false
  | VArr _ => contentHasMedia content
  | _ => Ok false
  end.

Definition detectMedia (messages : value) : result bool :=
  match messages with
  | VArr msgs => some detectMedia_message msgs
  | _ => Ok false
  end.

Definition detectImages (messages : value) : result bool :=
  detectMedia messages.

(** The part of [config] read by the router. *)
Record config := {
  models : option (string * string);   (* config.models: text, vision *)
  defaultModel : string;
  visionModel : string;
  endpoint_mode : string;
  endpoint_useAnthropic : bool
}.

(** [a || b] on strings: the empty string is falsy. *)
Definition or_str (a b : string) : string :=
  match a with EmptyString => b | _ => a end.

Record selection := { model : string; hasMedia : bool; hasImages : bool }.

(** [selectModel(messages)] with the default [options = {}]. *)
Definition selectModel (cfg : config) (messages : value) : result selection :=
  let textModel :=
    match models cfg with
    | Some (t, _) => or_str t (defaultModel cfg)
    | None => defaultModel cfg
    end in
  let visionModel' :=
    match models cfg with
    | Some (_, v) => or_str v (visionModel cfg)
    | None => visionModel cfg
    end in
  hasMedia <- detectMedia messages ;;
  let selectedModel := if hasMedia then visionModel' else textModel in
  Ok {| model := selectedModel; hasMedia := hasMedia; hasImages := hasMedia |}.

Definition determineEndpoint (cfg : config) (hasImagesInCurrentMessage : bool)
  : string :=
  if hasImagesInCurrentMessage then "openai"
  else
    let mode := endpoint_mode cfg in
    if String.eqb mode "anthropic" || String.eqb mode "openai"
       || String.eqb mode "bigmodel"
    then mode
    else if endpoint_useAnthropic cfg then "anthropic" else "openai".

(** [messages.length > 0 ? [messages[messages.length - 1]] : []],
    as in handleMessages, transformRequest and prepareAnthropicRequest. *)
Definition lastMessage (messages : list value) : value :=
  match rev messages with
  | [] => VArr []
  | m :: _ => VArr [m]
  end.

(** Endpoint chosen by handleMessages and model chosen by the request
    transformer, for one request. *)
Definition route (cfg : config) (messages : list value)
  : result (string * string) :=
  hasImagesInCurrentMessage <- detectImages (lastMessage messages) ;;
  sel <- selectModel cfg (lastMessage messages) ;;
  Ok (determineEndpoint cfg hasImagesInCurrentMessage, model sel).

Definition vision_variant (cfg : config) : string :=
  match models cfg with
  | Some (_, v) => or_str v (visionModel cfg)
  | None => visionModel cfg
  end.

Definition text_variant (cfg : config) : string :=
  match models cfg with
  | Some (t, _) => or_str t (defaultModel cfg)
  | None => defaultModel cfg
  end.

(** The configuration shipped in config.js, with the default mode. *)
Definition default_config : config :=
  {| models := Some ("glm-4.7", "glm-4.6v");
     defaultModel := "glm-4.7";
     visionModel := "glm-4.6v";
     endpoint_mode := "anthropic";
     endpoint_useAnthropic := true |}.

(** A value whose properties can be read without a TypeError; every
    message and block accepted by validateRequest is one. *)
Definition readable (v : value) : Prop := v <> VUndefined /\ v <> VNull.

End Router.

Module RouterExample.
Import Router.
Local Open Scope string_scope.

Definition screenshot_result : value :=
  VObj [("type", VStr "tool_result"); ("tool_use_id", VStr "toolu_1");
        ("content", VArr [VObj [("type", VStr "text"); ("text", VStr "shot")];
                          VObj [("type", VStr "image")]])].

Definition screenshot_message : value :=
  VObj [("role", VStr "user");
        ("content", VArr [VObj [("type", VStr "text"); ("text", VStr "see")];
                          screenshot_result])].

Definition text_message (s : string) : value :=
  VObj [("role", VStr "user"); ("content", VStr s)].

Definition image_message : value :=
  VObj [("role", VStr "user");
        ("content", VArr [VObj [("type", VStr "image")]])].

End RouterExample.

(** ** Tool execution loop (tools/executor.js) *)

Module Executor.
Import StopReason.
Local Open Scope string_scope.
Local Open Scope list_scope.
Local Open Scope nat_scope.

Definition string_of_nat (n : nat) : string :=
  NilEmpty.string_of_uint (Nat.to_uint n).

Record tool_call := {
  id : string;
  fname : string;          (* function.name *)
  arguments : string       (* function.arguments, JSON text *)
}.

Inductive message :=
| Plain (role : string) (content : string)
| AssistantCalls (content : option string) (tool_calls : list tool_call)
| ToolResult (tool_call_id : string) (content : string).

Record glm_request := {
  messages : list message;
  tools : option (list string);
  tool_choice : option string
}.

Record assistant_message := {
  am_content : option string;
  am_tool_calls : list tool_call     (* [tool_calls || []] *)
}.

(** A backend response: [choices?.[0]?.message] and the remaining
    payload, which the loop copies untouched. *)
Record response := {
  choice_message : option assistant_message;
  payload : string
}.

Record config := {
  maxIterations : nat;
  maxConsecutiveInternal : nat;
  webSearch_enabled : bool
}.

(** Enabled entries of the MCP registry: id and advertised tool names
    ([None] when [mcp.tools] is not set). *)
Definition registry := list (string * option (list string)).

Fixpoint findMcpForTool (enabledMcps : registry) (toolName : string)
  : option string :=
  match enabledMcps with
  | [] => None
  | (mcpId, None) :: rest => findMcpForTool rest toolName
  | (mcpId, Some tools) :: rest =>
      if includes tools toolName then Some mcpId
      else findMcpForTool rest toolName
  end.

Definition CLAUDE_TOOL_NAMES : list string :=
  ["WebSearch"; "WebFetch"; "websearch"; "webfetch"; "Websearch"; "Webfetch"].

Definition isClaudeTool (toolName : string) : bool :=
  includes CLAUDE_TOOL_NAMES toolName.

Definition shouldHandleInternally (reg : registry) (cfg : config)
           (toolName : string) : bool :=
  match findMcpForTool reg toolName with
  | Some _ => true
  | None =>
      if negb (webSearch_enabled cfg) then false
      else if isClaudeTool toolName then true
      else isOurTool toolName
  end.

(** [a || b] on strings. *)
Definition or_else (a b : string) : string :=
  match a with EmptyString => b | _ => a end.

(** [TOOL_ALIASES[name] || name]; the result is only compared with
    'web_search' and 'web_reader'. *)
Definition getCanonicalToolName (name : string) : string :=
  if includes OUR_TOOL_NAMES name then name
  else match assoc name TOOL_ALIASES with
       | Some n => or_else n name
       | None => name
       end.

(** Outcome of one promise under [Promise.allSettled]; a rejection
    carries [reason?.message]. *)
Inductive settled :=
| Fulfilled (value : string)
| Rejected (message : option string).

(** MCP endpoints of [config.mcp]. *)
Inductive mcp_target :=
| CustomMcp (mcpId : string) (tool : string)
| SearchMcp
| ReaderMcp.

(** The request of a pass of the loop: [{ ...glmRequest, messages }]. *)
Definition request_at (glmRequest : glm_request) (msgs : list message)
  : glm_request :=
  {| messages := msgs; tools := tools glmRequest;
     tool_choice := tool_choice glmRequest |}.

(** The forced final request:
    [{ ...glmRequest, messages, tools: undefined, tool_choice: undefined }]. *)
Definition forced_final (msgs : list message) : glm_request :=
  {| messages := msgs; tools := None; tool_choice := None |}.

Section Loop.

(** Whatever the backend and the tool servers depend on and change. *)
Variable world : Type.

(** [callGlmFn]: resolves to a response or rejects. *)
Variable callGlmFn : glm_request -> world -> result response * world.

(** [JSON.parse] on a tool call's argument text: the parsed value, or
    the message of the SyntaxError. *)
Variable JSON_parse : string -> Router.value + string.

(** [callCustomMcpTool] / [callMcpTool] with the parsed arguments. *)
Variable callMcp : mcp_target -> Router.value -> world -> settled * world.

Variable reg : registry.
Variable cfg : config.

Definition executeTool (toolCall : tool_call) (w : world)
  : settled * world :=
  let originalName := fname toolCall in
  let name := getCanonicalToolName originalName in
  match JSON_parse (arguments toolCall) with
  | inr parseError =>
      (Fulfilled ("Error: Invalid JSON in tool arguments: " ++ parseError)%string, w)
  | inl args =>
      match findMcpForTool reg originalName with
      | Some mcpId => callMcp (CustomMcp mcpId originalName) args w
      | None =>
          if String.eqb name "web_search" then callMcp SearchMcp args w
          else if String.eqb name "web_reader" then callMcp ReaderMcp args w
          else (Fulfilled ("Error: Unknown tool " ++ originalName)%string, w)
      end
  end.

(** The [finally] block only logs. *)
Definition executeMcpToolWithTiming (toolCall : tool_call) (w : world)
  : settled * world :=
  executeTool toolCall w.

(** [settled.map(r => r.status === 'fulfilled' ? r.value
                      : `Error: ${r.reason?.message || 'Tool execution failed'}`)] *)
Definition settled_text (r : settled) : string :=
  match r with
  | Fulfilled v => v
  | Rejected m =>
      ("Error: " ++
       or_else (match m with Some s => s | None => EmptyString end)
               "Tool execution failed")%string
  end.

(** [Promise.allSettled(ourCalls.map(...))]: every call is started and
    every outcome collected; the calls are taken in array order. *)
Fixpoint executeAll (ourCalls : list tool_call) (w : world)
  : list string * world :=
  match ourCalls with
  | [] => ([], w)
  | tc :: rest =>
      let '(r, w1) := executeMcpToolWithTiming tc w in
      let '(rs, w2) := executeAll rest w1 in
      (settled_text r :: rs, w2)
  end.

Definition or_null (c : option string) : option string :=
  match c with
  | Some EmptyString => None
  | _ => c
  end.

(** The two [messages.push] steps of a round. *)
Definition push_round (msgs : list message) (assistantMessage : assistant_message)
           (ourCalls : list tool_call) (results : list string)
  : list message :=
  (msgs
   ++ [AssistantCalls (or_null (am_content assistantMessage)) ourCalls]
   ++ map (fun cr => ToolResult (id (fst cr)) (snd cr))
          (combine ourCalls results))%list.

Definition is_ours (tc : tool_call) : bool :=
  shouldHandleInternally reg cfg (fname tc)
  || match findMcpForTool reg (fname tc) with Some _ => true | None => false end.

Definition is_client (tc : tool_call) : bool :=
  if shouldHandleInternally reg cfg (fname tc) then false
  else match findMcpForTool reg (fname tc) with Some _ => false | None => true end.

(** [config.toolExecution.maxConsecutiveInternal || 10] *)
Definition maxConsecutiveInternal' : nat :=
  match maxConsecutiveInternal cfg with 0 => 10 | n => n end.

(** Everything observable of one run of the loop. *)
Record run := {
  outcome : result response;
  calls : list glm_request;       (* requests passed to callGlmFn, in order *)
  history : list message;         (* [messages] when the loop is left *)
  iterations : nat;               (* final value of [iteration] *)
  final_world : world
}.

(** The [while (iteration < maxIterations)] loop; [remaining] is
    [maxIterations - iteration]. *)
Fixpoint loop (glmRequest : glm_request) (remaining iteration consecutiveInternalCalls : nat)
         (msgs : list message) (log : list glm_request) (w : world) : run :=
  match remaining with
  | 0 =>
      {| outcome :=
           Throw (ToolExecutionError
                    ("Tool execution loop exceeded "
                       ++ string_of_nat (maxIterations cfg) ++ " iterations")%string
                    (maxIterations cfg));
         calls := log; history := msgs; iterations := iteration;
         final_world := w |}
  | S remaining' =>
      let iteration := S iteration in
      let req := request_at glmRequest msgs in
      let log := (log ++ [req])%list in
      let done (o : result response) (ms : list message) (lg : list glm_request)
               (w' : world) :=
        {| outcome := o; calls := lg; history := ms;
           iterations := iteration; final_world := w' |} in
      match callGlmFn req w with
      | (Throw e, w1) => done (Throw e) msgs log w1
      | (Ok response, w1) =>
          match choice_message response with
          | None => done (Ok response) msgs log w1
          | Some assistantMessage =>
              let toolCalls := am_tool_calls assistantMessage in
              if length toolCalls =? 0 then done (Ok response) msgs log w1
              else
                let ourCalls := filter is_ours toolCalls in
                let clientCalls := filter is_client toolCalls in
                if length ourCalls =? 0 then done (Ok response) msgs log w1
                else
                  let consecutive :=
                    if length clientCalls =? 0
                    then S consecutiveInternalCalls else 0 in
                  if (length clientCalls =? 0)
                     && (maxConsecutiveInternal' <? consecutive)
                  then
                    let '(results, w2) := executeAll ourCalls w1 in
                    let msgs' := push_round msgs assistantMessage ourCalls results in
                    let final := forced_final msgs' in
                    let '(finalResponse, w3) := callGlmFn final w2 in
                    done finalResponse msgs' (log ++ [final])%list w3
                  else
                    let '(results, w2) := executeAll ourCalls w1 in
                    let msgs' := push_round msgs assistantMessage ourCalls results in
                    if 0 <? length clientCalls then
                      done (Ok {| choice_message :=
                                    Some {| am_content := am_content assistantMessage;
                                            am_tool_calls := clientCalls |};
                                  payload := payload response |})
                           msgs' log w2
                    else
                      loop glmRequest remaining' iteration consecutive msgs' log w2
          end
      end
  end.

Definition executeWithTools (glmRequest : glm_request) (w : world) : run :=
  loop glmRequest (maxIterations cfg) 0 0 (messages glmRequest) [] w.

(** The error thrown after the [while] loop. *)
Definition cap_error : error :=
  ToolExecutionError
    ("Tool execution loop exceeded " ++ string_of_nat (maxIterations cfg)
       ++ " iterations")%string
    (maxIterations cfg).

(** A backend that answers every call with exactly one tool call, an
    internal one. *)
Definition always_one_internal : Prop :=
  forall (req : glm_request) (w : world),
  exists (resp : response) (w1 : world) (am : assistant_message) (tc : tool_call),
    callGlmFn req w = (Ok resp, w1)
    /\ choice_message resp = Some am
    /\ am_tool_calls am = [tc]
    /\ is_ours tc = true.

(** A backend whose calls never reject. *)
Definition backend_total : Prop :=
  forall (req : glm_request) (w : world),
  exists (resp : response) (w1 : world), callGlmFn req w = (Ok resp, w1).

End Loop.

Arguments outcome {world} r.
Arguments calls {world} r.
Arguments history {world} r.
Arguments iterations {world} r.
Arguments final_world {world} r.

End Executor.

(** A backend that proposes one [web_search] call on every call. *)
Module ExecutorExample.
Import Executor.
Local Open Scope string_scope.

Definition search_call : tool_call :=
  {| id := "call_1"; fname := "web_search"; arguments := "{}" |}.

Definition search_response : response :=
  {| choice_message := Some {| am_content := None; am_tool_calls := [search_call] |};
     payload := EmptyString |}.

Definition backend (req : glm_request) (w : unit) : result response * unit :=
  (Ok search_response, w).

Definition parse (s : string) : Router.value + string :=
  inl (Router.VObj []).

Definition mcp (t : mcp_target) (args : Router.value) (w : unit) : settled * unit :=
  (Fulfilled "results", w).

(** The limits of config.js, with [maxConsecutiveInternal] as given. *)
Definition shipped (maxC : nat) : config :=
  {| maxIterations := 15; maxConsecutiveInternal := maxC;
     webSearch_enabled := true |}.

Definition request : glm_request :=
  {| messages := [Plain "user" "search the web for rocq"];
     tools := Some ["web_search"; "web_reader"];
     tool_choice := None |}.

Definition run1 : run unit :=
  executeWithTools unit backend parse mcp [] (shipped 1) request tt.
End ExecutorExample.

(** A backend whose first answer carries malformed tool arguments. *)
Module ExecutorBadJson.
Import Executor ExecutorExample.
Local Open Scope string_scope.

Definition bad_call : tool_call :=
  {| id := "call_7"; fname := "WebSearch"; arguments := "{oops" |}.

Definition bad_response : response :=
  {| choice_message := Some {| am_content := Some EmptyString; am_tool_calls := [bad_call] |};
     payload := EmptyString |}.

Definition answer : response :=
  {| choice_message := Some {| am_content := Some "done"; am_tool_calls := [] |};
     payload := EmptyString |}.

Definition backend (req : glm_request) (w : unit) : result response * unit :=
  match messages req with
  | [_] => (Ok bad_response, w)
  | _ => (Ok answer, w)
  end.

Definition parse (s : string) : Router.value + string :=
  if String.eqb s "{oops" then inr "Unexpected token o in JSON at position 1"
  else inl (Router.VObj []).

Definition run_bad : run unit :=
  executeWithTools unit backend parse mcp [] (shipped 10) request tt.

(** Limits under which the iteration cap is reached. *)
Definition tight : config :=
  {| maxIterations := 1; maxConsecutiveInternal := 1; webSearch_enabled := true |}.

Definition run_tight : run unit :=
  executeWithTools unit ExecutorExample.backend ExecutorExample.parse mcp []
                   tight request tt.
End ExecutorBadJson.

(** ** Context recovery (server.js: summarizeConversation, handleMessages) *)

Module Recovery.
Import Router.
Local Open Scope string_scope.
Local Open Scope list_scope.
Local Open Scope nat_scope.

Record anthropic_request := {
  model : string;
  stream : bool;                   (* isStreamingRequest: [stream === true] *)
  messages : list value;
  others : string                  (* every other field, copied by the spread *)
}.

(** A backend response as summarizeConversation reads it: Anthropic
    [content] blocks, or OpenAI [choices[0].message.content]. *)
Record content_block := { block_type : string; block_text : string }.

Record api_response := {
  content : option (list content_block);
  choice_content : option string
}.

(** [summaryPrompt]: fixed instructions around the conversation text. *)
Record summary_prompt := {
  prompt_model : string;
  prompt_max_tokens : nat;
  prompt_conversation : list value
}.

Definition instanceof_ContextLimitError (e : error) : bool :=
  match e with
  | ContextLimitError _ => true
  | _ => false
  end.

Section Server.

Variable world : Type.

(** The GLM-format request produced by transformRequest. *)
Variable glm_request : Type.

Variable handleAnthropicPath : anthropic_request -> world -> result unit * world.
Variable handleBigModelPath : anthropic_request -> world -> result unit * world.
Variable handleOpenAIPath : anthropic_request -> world -> result unit * world.

Variable transformRequest : summary_prompt -> world -> result glm_request * world.

(** Backend calls made while summarizing.  On the Anthropic endpoint
    the prepared request is read off a promise that was not awaited,
    so the body sent is [{ stream: false }] alone. *)
Inductive api_call :=
| callAnthropicApi_stream_false
| callBigModelApi (req : glm_request)
| callGLMApi (req : glm_request).

Variable callApi : api_call -> world -> result api_response * world.

Definition dispatch (endpoint : string) (req : anthropic_request) (w : world)
  : result unit * world :=
  if String.eqb endpoint "anthropic" then handleAnthropicPath req w
  else if String.eqb endpoint "bigmodel" then handleBigModelPath req w
  else handleOpenAIPath req w.

Definition extract_summary (summaryResponse : api_response) : string :=
  match content summaryResponse with
  | Some blocks =>
      match find (fun b => String.eqb (block_type b) "text") blocks with
      | Some textBlock => block_text textBlock
      | None => EmptyString
      end
  | None =>
      match choice_content summaryResponse with
      | Some s => s
      | None => EmptyString
      end
  end.

Definition fallback_summary (messages : list value) : string :=
  ("<summary>Previous conversation contained "
     ++ Executor.string_of_nat (length messages)
     ++ " messages. Summary generation failed, but the conversation was compacted to continue.</summary>")%string.

(** Result: the summary, the backend calls made, the new world. *)
Definition summarizeConversation (messages : list value) (model : string)
           (endpoint : string) (w : world)
  : string * list api_call * world :=
  let summaryPrompt :=
    {| prompt_model := model; prompt_max_tokens := 2000;
       prompt_conversation := messages |} in
  let finish (c : api_call) (w1 : world) :=
    match callApi c w1 with
    | (Ok summaryResponse, w2) => (extract_summary summaryResponse, [c], w2)
    | (Throw _, w2) => (fallback_summary messages, [c], w2)
    end in
  if String.eqb endpoint "anthropic" then
    finish callAnthropicApi_stream_false w
  else
    match transformRequest summaryPrompt w with
    | (Throw _, w1) => (fallback_summary messages, [], w1)
    | (Ok glmRequest, w1) =>
        if String.eqb endpoint "bigmodel"
        then finish (callBigModelApi glmRequest) w1
        else finish (callGLMApi glmRequest) w1
    end.

Inductive reply :=
| Responded                      (* the path handler sent the response *)
| ErrorSent (e : error).         (* sendError(res, error) *)

Record handled := {
  sent : reply;
  attempts : list anthropic_request;   (* requests given to a path handler *)
  summary_calls : list api_call;
  end_world : world
}.

Definition compact (anthropicRequest : anthropic_request) (summary : string)
  : anthropic_request :=
  {| model := model anthropicRequest;
     stream := stream anthropicRequest;
     messages := [VObj [("role", VStr "assistant"); ("content", VStr summary)]];
     others := others anthropicRequest |}.

(** handleMessages from the [try] on; [endpoint] is the result of
    determineEndpoint. *)
Definition handleMessages (endpoint : string) (anthropicRequest : anthropic_request)
           (w : world) : handled :=
  let messages := messages anthropicRequest in
  let wantsStreaming := stream anthropicRequest in
  match dispatch endpoint anthropicRequest w with
  | (Ok _, w1) =>
      {| sent := Responded; attempts := [anthropicRequest];
         summary_calls := []; end_world := w1 |}
  | (Throw error, w1) =>
      if instanceof_ContextLimitError error && negb wantsStreaming
         && (1 <? length messages)
      then
        let '(summary, calls, w2) :=
          summarizeConversation messages (model anthropicRequest) endpoint w1 in
        let compactedRequest := compact anthropicRequest summary in
        match dispatch endpoint compactedRequest w2 with
        | (Ok _, w3) =>
            {| sent := Responded;
               attempts := [anthropicRequest; compactedRequest];
               summary_calls := calls; end_world := w3 |}
        | (Throw retryError, w3) =>
            {| sent := ErrorSent retryError;
               attempts := [anthropicRequest; compactedRequest];
               summary_calls := calls; end_world := w3 |}
        end
      else
        {| sent := ErrorSent error; attempts := [anthropicRequest];
           summary_calls := []; end_world := w1 |}
  end.

End Server.

Arguments sent {world glm_request} h.
Arguments attempts {world glm_request} h.
Arguments summary_calls {world glm_request} h.
Arguments end_world {world glm_request} h.

End Recovery.

(** A backend that rejects any conversation of more than one message as
    too long, and summarizes on request. *)
Module RecoveryExample.
Import Router Recovery.
Local Open Scope string_scope.

Definition path (req : anthropic_request) (w : unit) : result unit * unit :=
  if (1 <? length (messages req))%nat
  then (Throw (ContextLimitError "The model has reached its context window limit. Please compact the conversation to continue."), w)
  else (Ok tt, w).

Definition transform (p : summary_prompt) (w : unit)
  : result summary_prompt * unit := (Ok p, w).

Definition api (c : api_call summary_prompt) (w : unit)
  : result api_response * unit :=
  (Ok {| content := None;
         choice_content := Some "<summary>short</summary>" |}, w).

Definition long_request : anthropic_request :=
  {| model := "claude"; stream := false;
     messages := [RouterExample.text_message "one";
                  VObj [("role", VStr "assistant"); ("content", VStr "two")];
                  RouterExample.text_message "three"];
     others := EmptyString |}.

Definition handled_long : handled unit summary_prompt :=
  handleMessages unit summary_prompt path path path transform api
                 "openai" long_request tt.
End RecoveryExample.

(** ** Streaming engine (streaming/anthropic-stream.js) *)

Module Stream.
Import Splitter.
Local Open Scope string_scope.
Local Open Scope list_scope.
Local Open Scope Z_scope.

(** *** Upstream events, as parsed from the [data:] lines *)

Inductive delta :=
| input_json_delta (partial_json : string)
| text_delta (text : jsstring)
| thinking_delta (thinking : jsstring)
| other_delta (type : string).

Record content_block := {
  block_type : string;
  block_id : string;
  block_name : string
}.

Inductive upstream :=
(* OpenAI-style chunk: [choices[0].delta] and [choices[0].finish_reason];
   an absent field is the empty string *)
| choices_delta (reasoning_content content : jsstring) (finish_reason : string)
| message_start
| content_block_start (index : Z) (block : content_block)
| content_block_delta (index : Z) (d : delta)
| content_block_stop (index : Z)
| message_delta (stop_reason : string)
| message_stop
| unknown_event (type : string).

(** *** Outbound events, as written with [res.write] *)

Inductive kind := k_thinking | k_text.

Inductive out_event :=
| out_message_start                                (* built by the engine *)
| out_block_start (index : Z) (k : kind)           (* built by the engine *)
| out_block_delta (index : Z) (k : kind) (content : jsstring)
| out_block_stop (index : Z)                       (* built by the engine *)
| forwarded (event : upstream)                     (* JSON.stringify(event) *)
| out_message_delta (stop_reason : string)
| out_message_stop
| out_error (message : string).

Definition VALID_CONTENT_TYPES : list string :=
  ["text"; "image"; "tool_use"; "tool_result"; "thinking"].

Definition SERVER_TOOL_TYPES : list string :=
  ["server_tool_use"; "server_tool_result"].

Definition has (set : list string) (s : string) : bool :=
  existsb (String.eqb s) set.

(** *** State *)

Record tool_use := {
  tu_id : string;
  tu_name : string;
  tu_input : string;
  tu_index : Z
}.

(** [streamState], shared by every continuation of one response, and the
    local variables of one call of streamAnthropicWithToolDetection;
    [written] is everything written to [res] so far. *)
Record state := {
  (* streamState *)
  messageStartSent : bool;
  currentBlockIndex : Z;
  skippingBlockIndex : option Z;
  serverToolInProgress : option (string * Z);
  afterServerTool : bool;
  (* locals *)
  currentToolUse : option tool_use;
  nativeThinkingBlockActive : bool;
  thinkingBlockStarted : bool;
  thinkingBlockIndex : Z;
  textBlockStarted : bool;
  textBlockIndex : Z;
  parsedThinkingBlockStarted : bool;
  reasoningParser : parser;
  stopReason : string;
  internalToolCalls : list tool_use;
  clientToolCalls : list tool_use;
  (* res *)
  written : list out_event
}.

Definition write (e : out_event) (s : state) : state :=
  {| messageStartSent := messageStartSent s;
     currentBlockIndex := currentBlockIndex s;
     skippingBlockIndex := skippingBlockIndex s;
     serverToolInProgress := serverToolInProgress s;
     afterServerTool := afterServerTool s;
     currentToolUse := currentToolUse s;
     nativeThinkingBlockActive := nativeThinkingBlockActive s;
     thinkingBlockStarted := thinkingBlockStarted s;
     thinkingBlockIndex := thinkingBlockIndex s;
     textBlockStarted := textBlockStarted s;
     textBlockIndex := textBlockIndex s;
     parsedThinkingBlockStarted := parsedThinkingBlockStarted s;
     reasoningParser := reasoningParser s;
     stopReason := stopReason s;
     internalToolCalls := internalToolCalls s;
     clientToolCalls := clientToolCalls s;
     written := written s ++ [e] |}.

Definition set_messageStartSent (s : state) : state :=
  {| messageStartSent := true;
     currentBlockIndex := currentBlockIndex s;
     skippingBlockIndex := skippingBlockIndex s;
     serverToolInProgress := serverToolInProgress s;
     afterServerTool := afterServerTool s;
     currentToolUse := currentToolUse s;
     nativeThinkingBlockActive := nativeThinkingBlockActive s;
     thinkingBlockStarted := thinkingBlockStarted s;
     thinkingBlockIndex := thinkingBlockIndex s;
     textBlockStarted := textBlockStarted s;
     textBlockIndex := textBlockIndex s;
     parsedThinkingBlockStarted := parsedThinkingBlockStarted s;
     reasoningParser := reasoningParser s;
     stopReason := stopReason s;
     internalToolCalls := internalToolCalls s;
     clientToolCalls := clientToolCalls s;
     written := written s |}.

(** [thinkingBlockStarted = true; thinkingBlockIndex =
    streamState.currentBlockIndex++], and [parsedThinkingBlockStarted]
    as given. *)
Definition take_thinking_index (parsed : bool) (s : state) : state :=
  {| messageStartSent := messageStartSent s;
     currentBlockIndex := currentBlockIndex s + 1;
     skippingBlockIndex := skippingBlockIndex s;
     serverToolInProgress := serverToolInProgress s;
     afterServerTool := afterServerTool s;
     currentToolUse := currentToolUse s;
     nativeThinkingBlockActive := nativeThinkingBlockActive s;
     thinkingBlockStarted := true;
     thinkingBlockIndex := currentBlockIndex s;
     textBlockStarted := textBlockStarted s;
     textBlockIndex := textBlockIndex s;
     parsedThinkingBlockStarted := parsed;
     reasoningParser := reasoningParser s;
     stopReason := stopReason s;
     internalToolCalls := internalToolCalls s;
     clientToolCalls := clientToolCalls s;
     written := written s |}.

(** [textBlockStarted = true; textBlockIndex =
    streamState.currentBlockIndex++] *)
Definition take_text_index (s : state) : state :=
  {| messageStartSent := messageStartSent s;
     currentBlockIndex := currentBlockIndex s + 1;
     skippingBlockIndex := skippingBlockIndex s;
     serverToolInProgress := serverToolInProgress s;
     afterServerTool := afterServerTool s;
     currentToolUse := currentToolUse s;
     nativeThinkingBlockActive := nativeThinkingBlockActive s;
     thinkingBlockStarted := thinkingBlockStarted s;
     thinkingBlockIndex := thinkingBlockIndex s;
     textBlockStarted := true;
     textBlockIndex := currentBlockIndex s;
     parsedThinkingBlockStarted := parsedThinkingBlockStarted s;
     reasoningParser := reasoningParser s;
     stopReason := stopReason s;
     internalToolCalls := internalToolCalls s;
     clientToolCalls := clientToolCalls s;
     written := written s |}.

Definition set_parsedThinkingBlockStarted (b : bool) (s : state) : state :=
  {| messageStartSent := messageStartSent s;
     currentBlockIndex := currentBlockIndex s;
     skippingBlockIndex := skippingBlockIndex s;
     serverToolInProgress := serverToolInProgress s;
     afterServerTool := afterServerTool s;
     currentToolUse := currentToolUse s;
     nativeThinkingBlockActive := nativeThinkingBlockActive s;
     thinkingBlockStarted := thinkingBlockStarted s;
     thinkingBlockIndex := thinkingBlockIndex s;
     textBlockStarted := textBlockStarted s;
     textBlockIndex := textBlockIndex s;
     parsedThinkingBlockStarted := b;
     reasoningParser := reasoningParser s;
     stopReason := stopReason s;
     internalToolCalls := internalToolCalls s;
     clientToolCalls := clientToolCalls s;
     written := written s |}.

Definition set_reasoningParser (p : parser) (s : state) : state :=
  {| messageStartSent := messageStartSent s;
     currentBlockIndex := currentBlockIndex s;
     skippingBlockIndex := skippingBlockIndex s;
     serverToolInProgress := serverToolInProgress s;
     afterServerTool := afterServerTool s;
     currentToolUse := currentToolUse s;
     nativeThinkingBlockActive := nativeThinkingBlockActive s;
     thinkingBlockStarted := thinkingBlockStarted s;
     thinkingBlockIndex := thinkingBlockIndex s;
     textBlockStarted := textBlockStarted s;
     textBlockIndex := textBlockIndex s;
     parsedThinkingBlockStarted := parsedThinkingBlockStarted s;
     reasoningParser := p;
     stopReason := stopReason s;
     internalToolCalls := internalToolCalls s;
     clientToolCalls := clientToolCalls s;
     written := written s |}.

Definition set_stopReason (r : string) (s : state) : state :=
  {| messageStartSent := messageStartSent s;
     currentBlockIndex := currentBlockIndex s;
     skippingBlockIndex := skippingBlockIndex s;
     serverToolInProgress := serverToolInProgress s;
     afterServerTool := afterServerTool s;
     currentToolUse := currentToolUse s;
     nativeThinkingBlockActive := nativeThinkingBlockActive s;
     thinkingBlockStarted := thinkingBlockStarted s;
     thinkingBlockIndex := thinkingBlockIndex s;
     textBlockStarted := textBlockStarted s;
     textBlockIndex := textBlockIndex s;
     parsedThinkingBlockStarted := parsedThinkingBlockStarted s;
     reasoningParser := reasoningParser s;
     stopReason := r;
     internalToolCalls := internalToolCalls s;
     clientToolCalls := clientToolCalls s;
     written := written s |}.

(** The fields touched by the native passthrough: skipping and server
    tool bookkeeping, the tool call being accumulated, the native
    thinking flag and the collected tool calls. *)
Definition set_passthrough
           (skip : option Z) (srv : option (string * Z)) (after : bool)
           (tu : option tool_use) (native : bool)
           (internal client : list tool_use) (s : state) : state :=
  {| messageStartSent := messageStartSent s;
     currentBlockIndex := currentBlockIndex s;
     skippingBlockIndex := skip;
     serverToolInProgress := srv;
     afterServerTool := after;
     currentToolUse := tu;
     nativeThinkingBlockActive := native;
     thinkingBlockStarted := thinkingBlockStarted s;
     thinkingBlockIndex := thinkingBlockIndex s;
     textBlockStarted := textBlockStarted s;
     textBlockIndex := textBlockIndex s;
     parsedThinkingBlockStarted := parsedThinkingBlockStarted s;
     reasoningParser := reasoningParser s;
     stopReason := stopReason s;
     internalToolCalls := internal;
     clientToolCalls := client;
     written := written s |}.

(** *** Helpers of streamAnthropicWithToolDetection *)

Definition ensureMessageStart (s : state) : state :=
  if messageStartSent s then s
  else set_messageStartSent (write out_message_start s).

Definition startTextBlock (s : state) : state :=
  if textBlockStarted s then s
  else
    let s1 := take_text_index (ensureMessageStart s) in
    write (out_block_start (textBlockIndex s1) k_text) s1.

Definition startParsedThinkingBlock (s : state) : state :=
  if parsedThinkingBlockStarted s then s
  else
    let s1 := take_thinking_index true (ensureMessageStart s) in
    write (out_block_start (thinkingBlockIndex s1) k_thinking) s1.

Definition closeParsedThinkingBlock (s : state) : state :=
  if parsedThinkingBlockStarted s then
    set_parsedThinkingBlockStarted false
      (write (out_block_stop (thinkingBlockIndex s)) s)
  else s.

Definition emitThinkingDelta (content : jsstring) (s : state) : state :=
  let s1 := startParsedThinkingBlock s in
  write (out_block_delta (thinkingBlockIndex s1) k_thinking content) s1.

Definition emitTextDelta (content : jsstring) (s : state) : state :=
  let s1 := startTextBlock (closeParsedThinkingBlock s) in
  write (out_block_delta (textBlockIndex s1) k_text content) s1.

(** [for (const segment of segments) if (segment.content) ...] *)
Definition emitSegment (s : state) (sg : segment) : state :=
  if truthy (Splitter.content sg) then
    match Splitter.type sg with
    | thinking => emitThinkingDelta (Splitter.content sg) s
    | text => emitTextDelta (Splitter.content sg) s
    end
  else s.

Definition emitSegments (segments : list segment) (s : state) : state :=
  fold_left emitSegment segments s.

Section Engine.

(** [config.thinking?.enabled || anthropicRequest.thinking?.type === 'enabled'] *)
Variable thinkingEnabled : bool.

(** [shouldHandleInternally(name)] under the live configuration. *)
Variable shouldHandleInternally : string -> bool.

(** Whether [JSON.parse] accepts the accumulated tool input. *)
Variable JSON_parses : string -> bool.

(** The OpenAI-style branch: [event.choices && event.choices[0]?.delta]. *)
Definition on_choices (reasoning_content content : jsstring)
           (finishReason : string) (s : state) : state :=
  let s1 :=
    if truthy reasoning_content then
      let s' :=
        if thinkingBlockStarted s then s
        else
          let a := take_thinking_index (parsedThinkingBlockStarted s) s in
          let b := if messageStartSent a then a
                   else set_messageStartSent (write out_message_start a) in
          write (out_block_start (thinkingBlockIndex b) k_thinking) b in
      write (out_block_delta (thinkingBlockIndex s') k_thinking reasoning_content) s'
    else s in
  let s2 :=
    if truthy content then
      let a :=
        if thinkingBlockStarted s1 && negb (textBlockStarted s1)
        then write (out_block_stop (thinkingBlockIndex s1)) s1
        else s1 in
      let b :=
        if textBlockStarted a then a
        else
          let c := take_text_index a in
          let d := if messageStartSent c then c
                   else set_messageStartSent (write out_message_start c) in
          write (out_block_start (textBlockIndex d) k_text) d in
      write (out_block_delta (textBlockIndex b) k_text content) b
    else s1 in
  match finishReason with
  | EmptyString => s2
  | _ =>
      let r :=
        if String.eqb finishReason "tool_calls" then "tool_use"
        else if String.eqb finishReason "stop" then "end_turn"
        else finishReason in
      let s3 := set_stopReason r s2 in
      if textBlockStarted s3
      then write (out_block_stop (textBlockIndex s3)) s3
      else if thinkingBlockStarted s3
           then write (out_block_stop (thinkingBlockIndex s3)) s3
           else s3
  end.

Definition keep (s : state) : state := s.

Definition on_content_block_start (index : Z) (block : content_block)
           (s : state) : state :=
  let event := content_block_start index block in
  if has SERVER_TOOL_TYPES (block_type block) then
    set_passthrough
      (Some index)
      (if String.eqb (block_type block) "server_tool_use"
       then Some (block_name block, index)
       else serverToolInProgress s)
      (afterServerTool s) (currentToolUse s) (nativeThinkingBlockActive s)
      (internalToolCalls s) (clientToolCalls s) s
  else if negb (has VALID_CONTENT_TYPES (block_type block)) then
    set_passthrough
      (Some index) (serverToolInProgress s)
      (afterServerTool s) (currentToolUse s) (nativeThinkingBlockActive s)
      (internalToolCalls s) (clientToolCalls s) s
  else if String.eqb (block_type block) "thinking" then
    write (forwarded event)
      (set_passthrough
         (skippingBlockIndex s) (serverToolInProgress s) (afterServerTool s)
         (currentToolUse s) true
         (internalToolCalls s) (clientToolCalls s) s)
  else if String.eqb (block_type block) "tool_use" then
    let s1 :=
      set_passthrough
        (skippingBlockIndex s) (serverToolInProgress s) (afterServerTool s)
        (Some {| tu_id := block_id block; tu_name := block_name block;
                 tu_input := EmptyString; tu_index := index |})
        (nativeThinkingBlockActive s)
        (internalToolCalls s) (clientToolCalls s) s in
    if shouldHandleInternally (block_name block) then s1
    else write (forwarded event) s1
  else if String.eqb (block_type block) "text" && thinkingEnabled then
    keep s
  else write (forwarded event) s.

Definition skipping (index : Z) (s : state) : bool :=
  match skippingBlockIndex s with
  | Some i => Z.eqb i index
  | None => false
  end.

Definition on_content_block_delta (index : Z) (d : delta) (s : state) : state :=
  let event := content_block_delta index d in
  if skipping index s then keep s
  else
    match d, currentToolUse s with
    | input_json_delta partial_json, Some tu =>
        let s1 :=
          set_passthrough
            (skippingBlockIndex s) (serverToolInProgress s) (afterServerTool s)
            (Some {| tu_id := tu_id tu; tu_name := tu_name tu;
                     tu_input := (tu_input tu ++ partial_json)%string;
                     tu_index := tu_index tu |})
            (nativeThinkingBlockActive s)
            (internalToolCalls s) (clientToolCalls s) s in
        if shouldHandleInternally (tu_name tu) then s1
        else write (forwarded event) s1
    | _, _ =>
        match d with
        | text_delta chunk =>
            if thinkingEnabled then
              let '(p, segments) := processChunk (reasoningParser s) chunk in
              emitSegments segments (set_reasoningParser p s)
            else write (forwarded event) s
        | _ => write (forwarded event) s
        end
    end.

Definition on_content_block_stop (index : Z) (s : state) : state :=
  let event := content_block_stop index in
  if skipping index s then
    match serverToolInProgress s with
    | Some _ =>
        set_passthrough None None true
          (currentToolUse s) (nativeThinkingBlockActive s)
          (internalToolCalls s) (clientToolCalls s) s
    | None =>
        set_passthrough None None (afterServerTool s)
          (currentToolUse s) (nativeThinkingBlockActive s)
          (internalToolCalls s) (clientToolCalls s) s
    end
  else
    match currentToolUse s with
    | Some tu =>
        let clear (internal client : list tool_use) (s' : state) :=
          set_passthrough
            (skippingBlockIndex s) (serverToolInProgress s) (afterServerTool s)
            None (nativeThinkingBlockActive s) internal client s' in
        if match tu_input tu with EmptyString => true | i => JSON_parses i end
        then
          if shouldHandleInternally (tu_name tu)
          then clear (internalToolCalls s ++ [tu]) (clientToolCalls s) s
          else clear (internalToolCalls s) (clientToolCalls s ++ [tu])
                     (write (forwarded event) s)
        else clear (internalToolCalls s) (clientToolCalls s) s
    | None =>
        if nativeThinkingBlockActive s then
          set_passthrough
            (skippingBlockIndex s) (serverToolInProgress s) (afterServerTool s)
            (currentToolUse s) false
            (internalToolCalls s) (clientToolCalls s)
            (write (forwarded event) s)
        else if thinkingEnabled then
          let '(p, remainingSegments) := flush (reasoningParser s) in
          let s1 := emitSegments remainingSegments (set_reasoningParser p s) in
          let s2 := closeParsedThinkingBlock s1 in
          if textBlockStarted s2
          then write (out_block_stop (textBlockIndex s2)) s2
          else s2
        else write (forwarded event) s
    end.

(** One parsed upstream event. *)
Definition on_event (s : state) (event : upstream) : state :=
  match event with
  | choices_delta reasoning_content content finish_reason =>
      on_choices reasoning_content content finish_reason s
  | message_start =>
      if messageStartSent s then s
      else set_messageStartSent (write (forwarded event) s)
  | content_block_start index block => on_content_block_start index block s
  | content_block_delta index d => on_content_block_delta index d s
  | content_block_stop index => on_content_block_stop index s
  | message_delta stop_reason =>
      match stop_reason with
      | EmptyString => s
      | _ => set_stopReason stop_reason s
      end
  | message_stop => s
  | unknown_event _ => write (forwarded event) s
  end.

(** What one backend call delivers: a failed fetch, or the events read
    before the body ended or a read failed. *)
Inductive body :=
| fetch_failed (message : string)
| events (evs : list upstream) (read_failed : bool).

(** The locals of a new call; [streamState] and [res] carry over. *)
Definition enter (s : state) : state :=
  {| messageStartSent := messageStartSent s;
     currentBlockIndex := currentBlockIndex s;
     skippingBlockIndex := skippingBlockIndex s;
     serverToolInProgress := serverToolInProgress s;
     afterServerTool := afterServerTool s;
     currentToolUse := None;
     nativeThinkingBlockActive := false;
     thinkingBlockStarted := false;
     thinkingBlockIndex := -1;
     textBlockStarted := false;
     textBlockIndex := -1;
     parsedThinkingBlockStarted := false;
     reasoningParser := new_parser;
     stopReason := "end_turn";
     internalToolCalls := [];
     clientToolCalls := [];
     written := written s |}.

(** The read loop over the events of one body. *)
Definition streamAnthropicWithToolDetection
           (evs : list upstream) (read_failed : bool) (s : state) : state :=
  let s1 := fold_left on_event evs (enter s) in
  if read_failed
  then write (out_error "Stream read failed - response may be incomplete") s1
  else s1.

Definition sendFinalEvents (stopReason : string) (s : state) : state :=
  write out_message_stop (write (out_message_delta stopReason) s).

(** [config.toolExecution?.maxIterations || 10] *)
Variable maxToolIterations : nat.

(** The body answered to the call made after [n] tool rounds. *)
Variable fetch : nat -> body.

(** streamFromAnthropic; [remaining] is
    [maxToolIterations - toolIteration]. *)
Fixpoint streamFromAnthropic (remaining : nat) (toolIteration : nat)
         (s : state) : state :=
  match fetch toolIteration with
  | fetch_failed message => write (out_error message) s
  | events evs read_failed =>
      let result := streamAnthropicWithToolDetection evs read_failed s in
      match internalToolCalls result with
      | _ :: _ =>
          match remaining with
          | O => sendFinalEvents "end_turn" result
          | S remaining' =>
              streamFromAnthropic remaining' (S toolIteration) result
          end
      | [] =>
          match clientToolCalls result with
          | _ :: _ => sendFinalEvents "tool_use" result
          | [] =>
              sendFinalEvents
                (match stopReason result with
                 | EmptyString => "end_turn"
                 | r => r
                 end)
                result
          end
      end
  end.

(** [streamState] of a new response and an untouched [res]. *)
Definition initial : state :=
  {| messageStartSent := false;
     currentBlockIndex := 0;
     skippingBlockIndex := None;
     serverToolInProgress := None;
     afterServerTool := false;
     currentToolUse := None;
     nativeThinkingBlockActive := false;
     thinkingBlockStarted := false;
     thinkingBlockIndex := -1;
     textBlockStarted := false;
     textBlockIndex := -1;
     parsedThinkingBlockStarted := false;
     reasoningParser := new_parser;
     stopReason := "end_turn";
     internalToolCalls := [];
     clientToolCalls := [];
     written := [] |}.

(** One logical streamed response: everything written to [res]. *)
Definition response : list out_event :=
  written (streamFromAnthropic maxToolIterations 0%nat initial).

End Engine.

(** *** Reading block structure off the outbound events *)

Definition block_kind_of (b : content_block) : option kind :=
  if String.eqb (block_type b) "text" then Some k_text
  else if String.eqb (block_type b) "thinking" then Some k_thinking
  else None.

(** Index carried by a [content_block_start] on the wire. *)
Definition start_index (e : out_event) : option Z :=
  match e with
  | out_block_start i _ => Some i
  | forwarded (content_block_start i _) => Some i
  | _ => None
  end.

Definition stop_index (e : out_event) : option Z :=
  match e with
  | out_block_stop i => Some i
  | forwarded (content_block_stop i) => Some i
  | _ => None
  end.

Fixpoint pick {A B : Type} (f : A -> option B) (l : list A) : list B :=
  match l with
  | [] => []
  | x :: rest =>
      match f x with
      | Some y => y :: pick f rest
      | None => pick f rest
      end
  end.

Definition start_indices (tr : list out_event) : list Z := pick start_index tr.

(** Index of a [content_block_start] the engine built itself. *)
Definition own_start_index (e : out_event) : option Z :=
  match e with
  | out_block_start i _ => Some i
  | _ => None
  end.

Definition own_start_indices (tr : list out_event) : list Z :=
  pick own_start_index tr.

(** [0; 1; ...; n-1] *)
Definition upto (n : nat) : list Z := map Z.of_nat (seq 0%nat n).

Fixpoint strictly_increasing (l : list Z) : bool :=
  match l with
  | a :: (b :: _) as rest => (a <? b) && strictly_increasing rest
  | _ => true
  end.

Definition count_stops (i : Z) (tr : list out_event) : nat :=
  length (filter (fun e => match stop_index e with
                           | Some j => Z.eqb i j
                           | None => false
                           end) tr).

(** Kind of the text or thinking block a wire event starts. *)
Definition start_kind (e : out_event) : option (Z * kind) :=
  match e with
  | out_block_start i k => Some (i, k)
  | forwarded (content_block_start i b) =>
      match block_kind_of b with
      | Some k => Some (i, k)
      | None => None
      end
  | _ => None
  end.

(** Text and thinking blocks open after a trace: started, not stopped. *)
Definition track (open : list (Z * kind)) (e : out_event) : list (Z * kind) :=
  match start_kind e, stop_index e with
  | Some b, _ => open ++ [b]
  | None, Some i => filter (fun b => negb (Z.eqb (fst b) i)) open
  | None, None => open
  end.

Definition open_blocks (tr : list out_event) : list (Z * kind) :=
  fold_left track tr [].

Definition is_kind (k : kind) (b : Z * kind) : bool :=
  match k, snd b with
  | k_text, k_text => true
  | k_thinking, k_thinking => true
  | _, _ => false
  end.

Definition both_open (tr : list out_event) : bool :=
  existsb (is_kind k_text) (open_blocks tr)
  && existsb (is_kind k_thinking) (open_blocks tr).

(** Thinking blocks built by the engine and still open. *)
Definition track_own_thinking (open : list Z) (e : out_event) : list Z :=
  match e with
  | out_block_start i k_thinking => open ++ [i]
  | out_block_stop i => filter (fun j => negb (Z.eqb j i)) open
  | _ => open
  end.

(** No text delta built by the engine is written while a thinking block
    built by the engine is open. *)
Fixpoint text_after_close (open : list Z) (tr : list out_event) : bool :=
  match tr with
  | [] => true
  | e :: rest =>
      match e with
      | out_block_delta _ k_text _ =>
          match open with
          | [] => text_after_close open rest
          | _ :: _ => false
          end
      | _ => text_after_close (track_own_thinking open e) rest
      end
  end.

(** The Anthropic-native dialect: no OpenAI-style chunk. *)
Definition native (e : upstream) : bool :=
  match e with
  | choices_delta _ _ _ => false
  | _ => true
  end.

(** *** Invariants *)

(** The counter and the trace agree: the engine's own block starts carry
    0, 1, ..., currentBlockIndex - 1, in this order. *)
Definition counted (cur : Z) (tr : list out_event) : Prop :=
  0 <= cur /\ own_start_indices tr = upto (Z.to_nat cur).

Definition counted_state (s : state) : Prop :=
  counted (currentBlockIndex s) (written s).

Definition still_open (tr : list out_event) : list Z :=
  fold_left track_own_thinking tr [].

Definition is_text_delta (e : out_event) : bool :=
  match e with
  | out_block_delta _ k_text _ => true
  | _ => false
  end.

(** The parsed thinking block that the engine's flag says is open. *)
Definition open_flag (s : state) : list Z :=
  if parsedThinkingBlockStarted s then [thinkingBlockIndex s] else [].

(** Since the trace was [pre], what has been written is clean, and the
    engine's flag tells which parsed thinking block is open. *)
Definition closing (pre : list out_event) (s : state) : Prop :=
  exists new : list out_event,
    written s = pre ++ new
    /\ text_after_close [] new = true
    /\ still_open new = open_flag s.

(** Events that neither open or close a block of the engine nor carry
    engine-built text. *)
Definition plain (e : out_event) : bool :=
  match e with
  | out_block_start _ k_thinking => false
  | out_block_stop _ => false
  | out_block_delta _ k_text _ => false
  | _ => true
  end.

End Stream.

Module StreamExample.
Import Stream.
Local Open Scope string_scope.
Local Open Scope Z_scope.

Definition blk (t n : string) : content_block :=
  {| block_type := t; block_id := "toolu_1"; block_name := n |}.

Definition internal (n : string) : bool := String.eqb n "web_search".

(** Native passthrough with one internal tool round: text, then a
    [web_search] call; after the tool result, text again. *)
Definition searching (n : nat) : body :=
  match n with
  | O => events [message_start;
                 content_block_start 0 (blk "text" EmptyString);
                 content_block_delta 0 (text_delta (lit "Let me check."));
                 content_block_stop 0;
                 content_block_start 1 (blk "tool_use" "web_search");
                 content_block_delta 1 (input_json_delta "{}");
                 content_block_stop 1;
                 message_delta "tool_use"; message_stop] false
  | _ => events [message_start;
                 content_block_start 0 (blk "text" EmptyString);
                 content_block_delta 0 (text_delta (lit "Done."));
                 content_block_stop 0;
                 message_delta "end_turn"; message_stop] false
  end.

Definition searching_response : list out_event :=
  response false internal (fun _ => true) 10 searching.

(** Tag parsing: text, tagged reasoning, text; then a second text block. *)
Definition tagged_events : list upstream :=
  [message_start;
   content_block_start 0 (blk "text" EmptyString);
   content_block_delta 0
     (text_delta (lit "a<reasoning_content>b</reasoning_content>c"));
   content_block_stop 0;
   content_block_start 1 (blk "text" EmptyString);
   content_block_delta 1 (text_delta (lit "d"));
   content_block_stop 1;
   message_delta "end_turn"; message_stop].

Definition tagged (n : nat) : body := events tagged_events false.

Definition tagged_response : list out_event :=
  response true internal (fun _ => true) 10 tagged.
End StreamExample.

(** ** Further definitions used by the statements below *)

Module SplitterAux.
Import Splitter.

(** The code unit [<], with which both markers start. *)
Definition lt_sign : code_unit := 60%N.

End SplitterAux.

Module ExecutorAux.
Import Executor.
Local Open Scope string_scope.
Local Open Scope list_scope.

(** What one round of the loop appends to the conversation: the
    assistant message with the internal calls, then one tool message
    per call, carrying the call's id, in the order of the calls. *)
Definition round (content : option string) (ourCalls : list tool_call)
           (results : list string) : list message :=
  AssistantCalls content ourCalls
  :: map (fun cr => ToolResult (id (fst cr)) (snd cr)) (combine ourCalls results).

(** A sequence of complete rounds. *)
Inductive rounds : list message -> Prop :=
| rounds_nil : rounds []
| rounds_cons (content : option string) (ourCalls : list tool_call)
              (results : list string) (rest : list message) :
    length results = length ourCalls ->
    rounds rest ->
    rounds (round content ourCalls results ++ rest).

(** A request that carries the conversation [msgs] followed by some of
    the complete rounds of [added]. *)
Definition extends (msgs added : list message) (req : glm_request) : Prop :=
  exists pre post : list message,
    added = pre ++ post /\ rounds pre /\ messages req = msgs ++ pre.

(** A response proposing one internal and one client call. *)
Definition read_call : tool_call :=
  {| id := "call_2"; fname := "Read"; arguments := "{}" |}.

Definition mixed_message : assistant_message :=
  {| am_content := Some "Looking.";
     am_tool_calls := [ExecutorExample.search_call; read_call] |}.

Definition mixed_response : response :=
  {| choice_message := Some mixed_message; payload := "usage" |}.

Definition mixed_backend (req : glm_request) (w : unit)
  : result response * unit := (Ok mixed_response, w).

(** The shipped limits with web search switched off. *)
Definition search_off : config :=
  {| maxIterations := 15; maxConsecutiveInternal := 10;
     webSearch_enabled := false |}.

End ExecutorAux.

Module StreamAux.
Import Stream.
Local Open Scope string_scope.
Local Open Scope list_scope.

(** A [message_start] on the wire: built by the engine or forwarded. *)
Definition is_message_start (e : out_event) : bool :=
  match e with
  | out_message_start => true
  | forwarded message_start => true
  | _ => false
  end.

Definition is_own_start (e : out_event) : bool :=
  match e with
  | out_block_start _ _ => true
  | _ => false
  end.

(** Reading a trace from the left, [seen] telling whether a
    [message_start] went by: no second [message_start], and no block
    start built by the engine before the first one. *)
Fixpoint message_start_first (seen : bool) (tr : list out_event) : bool :=
  match tr with
  | [] => true
  | e :: rest =>
      if is_message_start e then negb seen && message_start_first true rest
      else if is_own_start e then seen && message_start_first seen rest
      else message_start_first seen rest
  end.

(** The events that close a response. *)
Definition is_final (e : out_event) : bool :=
  match e with
  | out_message_delta _ => true
  | out_message_stop => true
  | forwarded (message_delta _) => true
  | forwarded message_stop => true
  | _ => false
  end.

Section Filter.

Variable thinkingEnabled : bool.
Variable shouldHandleInternally : string -> bool.

(** Upstream block starts that may reach the client as they are: a
    valid content type, not a tool the proxy runs itself, and not a
    text block when the text is re-cut by the tag parser. *)
Definition passes_filter (b : content_block) : bool :=
  has VALID_CONTENT_TYPES (block_type b)
  && negb (String.eqb (block_type b) "tool_use"
           && shouldHandleInternally (block_name b))
  && negb (String.eqb (block_type b) "text" && thinkingEnabled).

Definition forwarded_start_ok (e : out_event) : bool :=
  match e with
  | forwarded (content_block_start _ b) => passes_filter b
  | _ => true
  end.

(** What the read loop may write. *)
Definition wire_ok (e : out_event) : bool :=
  forwarded_start_ok e && negb (is_final e).

(** From [s] to [s'] only such events were written. *)
Definition grows (s s' : state) : Prop :=
  exists new : list out_event,
    written s' = written s ++ new /\ forallb wire_ok new = true.

End Filter.

(** The flag [streamState.messageStartSent] tells whether a
    [message_start] is on the wire, and the wire is in order. *)
Definition kept (flag : bool) (tr : list out_event) : Prop :=
  message_start_first false tr = true
  /\ existsb is_message_start tr = flag.

Definition message_start_kept (s : state) : Prop :=
  kept (messageStartSent s) (written s).

End StreamAux.

(** ** Request validation (middleware/validate.js) *)

Module Validate.
Import Router.
Local Open Scope list_scope.
Local Open Scope string_scope.

(** What validation can throw: the InvalidRequestError it raises
    itself, or the TypeError of a property read on [undefined] or
    [null]. *)
Inductive failure :=
| InvalidRequestError (message : string)
| JsTypeError (message : string).

Inductive checked (A : Type) :=
| Pass (a : A)
| Fail (f : failure).
Arguments Pass {A} a.
Arguments Fail {A} f.

Definition and_then {A B : Type} (c : checked A) (k : A -> checked B)
  : checked B :=
  match c with
  | Pass a => k a
  | Fail f => Fail f
  end.

Notation "x <~ c ;; k" := (and_then c (fun x => k))
  (at level 61, c at next level, right associativity).
Notation "c ;;; k" := (and_then c (fun _ => k))
  (at level 61, right associativity).

(** [throw new InvalidRequestError(message)] *)
Definition throw {A : Type} (message : string) : checked A :=
  Fail (InvalidRequestError message).

(** [if (bad) throw new InvalidRequestError(message)] *)
Definition reject_if (bad : bool) (message : string) : checked unit :=
  if bad then throw message else Pass tt.

(** Property read [v.k], for the keys read here; none of them is a
    built-in member of arrays. *)
Definition read (v : value) (k : string) : checked value :=
  match v with
  | VUndefined => Fail (JsTypeError "Cannot read properties of undefined")
  | VNull => Fail (JsTypeError "Cannot read properties of null")
  | VObj fields => Pass (lookup k fields)
  | _ => Pass VUndefined
  end.

(** [!v] *)
Definition falsy (v : value) : bool :=
  match v with
  | VUndefined => true
  | VNull => true
  | VBool b => negb b
  | VNum n => Z.eqb n 0
  | VStr EmptyString => true
  | VStr _ => false
  | VArr _ => false
  | VObj _ => false
  end.

Definition typeof (v : value) : string :=
  match v with
  | VUndefined => "undefined"
  | VNull => "object"
  | VBool _ => "boolean"
  | VNum _ => "number"
  | VStr _ => "string"
  | VArr _ => "object"
  | VObj _ => "object"
  end.

Definition isArray (v : value) : bool :=
  match v with VArr _ => true | _ => false end.

(** [v !== undefined] *)
Definition defined (v : value) : bool :=
  match v with VUndefined => false | _ => true end.

Definition is_object (v : value) : bool := String.eqb (typeof v) "object".
Definition is_string (v : value) : bool := String.eqb (typeof v) "string".
Definition is_number (v : value) : bool := String.eqb (typeof v) "number".

(** [list.includes(v)] for a list of strings. *)
Definition includes (l : list string) (v : value) : bool :=
  existsb (is_str v) l.

Definition index_text (n : nat) : string := Executor.string_of_nat n.

(** The double-quote character of the messages. *)
Definition dq : string := String (Ascii.ascii_of_nat 34) EmptyString.

Definition validTypes : list string :=
  ["text"; "image"; "video"; "tool_use"; "tool_result"; "thinking"].

Definition validRoles : list string := ["user"; "assistant"].

(** The checks of the [image] and [video] cases, which differ in the
    word [what] of the first message only. *)
Definition source_checks (block : value) (here what : string) : checked unit :=
  source <~ read block "source" ;;
  reject_if (falsy source || negb (is_object source))
            (here ++ ".source is required for " ++ what ++ " blocks") ;;;
  stype <~ read source "type" ;;
  reject_if (negb (is_str stype "base64") && negb (is_str stype "url"))
            (here ++ ".source.type must be " ++ dq ++ "base64" ++ dq
                  ++ " or " ++ dq ++ "url" ++ dq) ;;;
  (if is_str stype "base64"
   then data <~ read source "data" ;;
        reject_if (negb (is_string data)) (here ++ ".source.data must be a string")
   else Pass tt) ;;;
  (if is_str stype "url"
   then url <~ read source "url" ;;
        reject_if (negb (is_string url)) (here ++ ".source.url must be a string")
   else Pass tt).

Definition validateContentBlock (block : value) (msgIndex blockIndex : nat)
  : checked unit :=
  let here := "messages[" ++ index_text msgIndex ++ "].content["
                          ++ index_text blockIndex ++ "]" in
  reject_if (falsy block || negb (is_object block)) (here ++ " must be an object") ;;;
  type <~ read block "type" ;;
  reject_if (falsy type) (here ++ ".type is required") ;;;
  reject_if (negb (includes validTypes type))
            (here ++ ".type must be one of: text, image, video, tool_use, tool_result, thinking") ;;;
  if is_str type "text" then
    text <~ read block "text" ;;
    reject_if (negb (is_string text)) (here ++ ".text must be a string")
  else if is_str type "thinking" then
    thinking <~ read block "thinking" ;;
    reject_if (negb (is_string thinking)) (here ++ ".thinking must be a string")
  else if is_str type "image" then source_checks block here "image"
  else if is_str type "video" then source_checks block here "video"
  else if is_str type "tool_use" then
    id <~ read block "id" ;;
    reject_if (negb (is_string id)) (here ++ ".id is required for tool_use blocks") ;;;
    name <~ read block "name" ;;
    reject_if (negb (is_string name)) (here ++ ".name is required for tool_use blocks")
  else if is_str type "tool_result" then
    tool_use_id <~ read block "tool_use_id" ;;
    reject_if (negb (is_string tool_use_id))
              (here ++ ".tool_use_id is required for tool_result blocks")
  else Pass tt.

(** [for (let j = 0; j < msg.content.length; j++)
       validateContentBlock(msg.content[j], index, j)] from [j] on. *)
Fixpoint validateContentBlocks (blocks : list value) (msgIndex j : nat)
  : checked unit :=
  match blocks with
  | [] => Pass tt
  | block :: rest =>
      validateContentBlock block msgIndex j ;;;
      validateContentBlocks rest msgIndex (S j)
  end.

Definition validateMessage (msg : value) (index : nat) : checked unit :=
  let here := "messages[" ++ index_text index ++ "]" in
  reject_if (falsy msg || negb (is_object msg)) (here ++ " must be an object") ;;;
  role <~ read msg "role" ;;
  reject_if (falsy role) (here ++ ".role is required") ;;;
  reject_if (negb (includes validRoles role))
            (here ++ ".role must be one of: user, assistant") ;;;
  content <~ read msg "content" ;;
  reject_if (negb (defined content)) (here ++ ".content is required") ;;;
  reject_if (negb (is_string content) && negb (isArray content))
            (here ++ ".content must be a string or array") ;;;
  match content with
  | VArr blocks => validateContentBlocks blocks index 0
  | _ => Pass tt
  end.

Fixpoint validateMessages (msgs : list value) (i : nat) : checked unit :=
  match msgs with
  | [] => Pass tt
  | msg :: rest => validateMessage msg i ;;; validateMessages rest (S i)
  end.

Definition validateTool (tool : value) (index : nat) : checked unit :=
  let here := "tools[" ++ index_text index ++ "]" in
  reject_if (falsy tool || negb (is_object tool)) (here ++ " must be an object") ;;;
  name <~ read tool "name" ;;
  reject_if (negb (is_string name) || falsy name)
            (here ++ ".name is required and must be a string") ;;;
  description <~ read tool "description" ;;
  reject_if (defined description && negb (is_string description))
            (here ++ ".description must be a string") ;;;
  input_schema <~ read tool "input_schema" ;;
  let hasInputSchema := negb (falsy input_schema) && is_object input_schema in
  parameters <~ read tool "parameters" ;;
  let hasParameters := negb (falsy parameters) && is_object parameters in
  reject_if (defined input_schema && negb hasInputSchema)
            (here ++ ".input_schema must be an object if provided") ;;;
  reject_if (defined parameters && negb hasParameters)
            (here ++ ".parameters must be an object if provided").

Fixpoint validateTools (tools : list value) (i : nat) : checked unit :=
  match tools with
  | [] => Pass tt
  | tool :: rest => validateTool tool i ;;; validateTools rest (S i)
  end.

(** The numbers of [value] are the integral ones, for which
    [Number.isInteger] holds. *)
Definition number_of (v : value) : Z :=
  match v with VNum n => n | _ => 0%Z end.

Definition validateRequest (body : value) : checked bool :=
  reject_if (falsy body || negb (is_object body))
            "Request body must be a JSON object" ;;;
  messages <~ read body "messages" ;;
  reject_if (falsy messages) "messages is required" ;;;
  reject_if (negb (isArray messages)) "messages must be an array" ;;;
  match messages with
  | VArr msgs =>
      reject_if (Nat.eqb (length msgs) 0) "messages array cannot be empty" ;;;
      validateMessages msgs 0
  | _ => Pass tt
  end ;;;
  max_tokens <~ read body "max_tokens" ;;
  (if defined max_tokens then
     reject_if (negb (is_number max_tokens)) "max_tokens must be a number" ;;;
     reject_if (Z.leb (number_of max_tokens) 0)
               "max_tokens must be a positive integer"
   else Pass tt) ;;;
  temperature <~ read body "temperature" ;;
  (if defined temperature then
     reject_if (negb (is_number temperature)) "temperature must be a number" ;;;
     reject_if (Z.ltb (number_of temperature) 0 || Z.ltb 2 (number_of temperature))
               "temperature must be between 0 and 2"
   else Pass tt) ;;;
  tools <~ read body "tools" ;;
  (if defined tools then
     reject_if (negb (isArray tools)) "tools must be an array" ;;;
     match tools with
     | VArr ts => validateTools ts 0
     | _ => Pass tt
     end
   else Pass tt) ;;;
  system <~ read body "system" ;;
  reject_if (defined system && negb (is_string system) && negb (isArray system))
            "system must be a string or array" ;;;
  Pass true.

(** The outcome is not a TypeError. *)
Definition never_type_error {A : Type} (c : checked A) : Prop :=
  match c with
  | Fail (JsTypeError _) => False
  | _ => True
  end.

(** A three-message request with a tool result and an image. *)
Definition sample_body : value :=
  VObj [("model", VStr "claude-sonnet");
        ("max_tokens", VNum 1024);
        ("messages",
         VArr [RouterExample.text_message "look at this";
               VObj [("role", VStr "assistant");
                     ("content", VArr [VObj [("type", VStr "tool_use");
                                             ("id", VStr "toolu_1");
                                             ("name", VStr "Read")]])];
               VObj [("role", VStr "user");
                     ("content",
                      VArr [VObj [("type", VStr "tool_result");
                                  ("tool_use_id", VStr "toolu_1");
                                  ("content", VStr "ok")];
                            VObj [("type", VStr "image");
                                  ("source", VObj [("type", VStr "base64");
                                                   ("data", VStr "aGk=")])]])]])].

End Validate.

(** ** Reasoning prompt injection and extraction
       (reasoning/injector.js, transformers/anthropic-request.js) *)

Module Reasoning.
Import Router.
Local Open Scope list_scope.
Local Open Scope string_scope.

Definition nl : string := String (Ascii.ascii_of_nat 10) EmptyString.

Definition REASONING_PROMPT : string :=
  "ultrathink really hard" ++ nl ++ nl
    ++ "Think step-by-step in <reasoning_content> tags before answering.".

Definition ACK_TEXT : string :=
  "I understand. I will think step by step and show my reasoning in <reasoning_content> tags before providing my final answer.".

(** [result[i].role === 'user'] *)
Definition role_is_user (msg : value) : result bool :=
  role <- get msg "role" ;;
  Ok (is_str role "user").

(** The loop [for (let i = result.length - 1; i >= 0; i--)] that sets
    [lastUserIdx], entered with [i = n - 1]; [None] is the value -1. *)
Fixpoint lastUserIdx_below (n : nat) (arr : list value) : result (option nat) :=
  match n with
  | O => Ok None
  | S i =>
      found <- role_is_user (nth i arr VUndefined) ;;
      if found then Ok (Some i) else lastUserIdx_below i arr
  end.

Definition lastUserIdx (arr : list value) : result (option nat) :=
  lastUserIdx_below (length arr) arr.

(** [arr.splice(i, 0, a, b)] *)
Definition splice2 (arr : list value) (i : nat) (a b : value) : list value :=
  (firstn i arr ++ [a; b] ++ skipn i arr)%list.

(** *** OpenAI format (reasoning/injector.js) *)

Definition reasoningMessage : value :=
  VObj [("role", VStr "user"); ("content", VStr REASONING_PROMPT)].

Definition assistantAck : value :=
  VObj [("role", VStr "assistant"); ("content", VStr ACK_TEXT)].

Definition injectReasoningPrompt (messages : list value) : result (list value) :=
  idx <- lastUserIdx messages ;;
  match idx with
  | Some i => Ok (splice2 messages i reasoningMessage assistantAck)
  | None => Ok (messages ++ [reasoningMessage; assistantAck])%list
  end.

(** *** Anthropic format (transformers/anthropic-request.js) *)

Definition text_blocks (s : string) : value :=
  VArr [VObj [("type", VStr "text"); ("text", VStr s)]].

Definition reasoningMessageAnthropic : value :=
  VObj [("role", VStr "user"); ("content", text_blocks REASONING_PROMPT)].

Definition assistantAckAnthropic : value :=
  VObj [("role", VStr "assistant"); ("content", text_blocks ACK_TEXT)].

Definition injectReasoningPromptAnthropic (messages : list value)
  : result (list value) :=
  match messages with
  | [] => Ok messages
  | _ :: _ =>
      idx <- lastUserIdx messages ;;
      match idx with
      | Some i =>
          Ok (splice2 messages i reasoningMessageAnthropic assistantAckAnthropic)
      | None => Ok messages
      end
  end.

(** Whether a message is a user message, for messages that are objects. *)
Definition is_user (msg : value) : bool :=
  match role_is_user msg with
  | Ok b => b
  | Throw _ => false
  end.

(** A user turn after an exchange. *)
Definition sample_turns : list value :=
  [RouterExample.text_message "hello";
   VObj [("role", VStr "assistant"); ("content", VStr "hi")];
   RouterExample.text_message "what is 2+2?";
   VObj [("role", VStr "assistant"); ("content", VStr "let me see")]].

End Reasoning.

(** *** extractReasoning (reasoning/injector.js) *)

Module ReasoningExtract.
Import Splitter.
Local Open Scope list_scope.

(** Code units removed by [String.prototype.trim]: WhiteSpace and
    LineTerminator. *)
Definition is_white_space (c : code_unit) : bool :=
  existsb (N.eqb c)
          [9; 10; 11; 12; 13; 32; 160; 5760; 8232; 8233; 8239; 8287;
           12288; 65279]%N
  || ((8192 <=? c)%N && (c <=? 8202)%N).

Fixpoint trimStart (s : jsstring) : jsstring :=
  match s with
  | [] => []
  | c :: s' => if is_white_space c then trimStart s' else s
  end.

Definition trimEnd (s : jsstring) : jsstring := rev (trimStart (rev s)).

Definition trim (s : jsstring) : jsstring := trimEnd (trimStart s).

(** [{ reasoning, content }]; [None] is [null]. *)
Record extracted := { reasoning : option jsstring; content : jsstring }.

(** [s || null] *)
Definition or_null (s : jsstring) : option jsstring :=
  if truthy s then Some s else None.

(** A match of
    [/<reasoning_content>([\s\S]*?)<\/reasoning_content>/]: the
    leftmost open marker that is followed by a close marker, with the
    nearest such close marker.  If any open marker is followed by a
    close marker then so is the first one, so the match starts at the
    first open marker or there is none.  The result is the text before
    the match, the captured group and the text after the match. *)
Definition match_pair (s : jsstring) : option (jsstring * jsstring * jsstring) :=
  match indexOf s REASONING_OPEN_TAG with
  | None => None
  | Some i =>
      let inner := substringFrom s (i + length REASONING_OPEN_TAG) in
      match indexOf inner REASONING_CLOSE_TAG with
      | None => None
      | Some j =>
          Some (substring s 0 i,
                substring inner 0 j,
                substringFrom inner (j + length REASONING_CLOSE_TAG))
      end
  end.

(** extractReasoning on a string. *)
Definition extractReasoning (text : jsstring) : extracted :=
  if negb (truthy text) then {| reasoning := None; content := text |}
  else
    match match_pair text with
    | Some (before, group, after) =>
        {| reasoning := or_null (trim group);
           content := trim (before ++ after) |}
    | None => {| reasoning := None; content := text |}
    end.

(** The content of the segments of one type, in order. *)
Definition of_type (k : segtype) (out : list segment) : jsstring :=
  concat (map Splitter.content
              (filter (fun sg => match Splitter.type sg, k with
                                 | thinking, thinking => true
                                 | text, text => true
                                 | _, _ => false
                                 end) out)).

End ReasoningExtract.

(** ** Response transformer (transformers/response.js) *)

Module Response.
Import StopReason ReasoningExtract.
Local Open Scope string_scope.
Local Open Scope list_scope.

(** [choices[0].message]; [None] is an absent or [null] field. *)
Record message := {
  reasoning_content : option jsstring;
  content : option jsstring;
  tool_calls : option (list Executor.tool_call)
}.

Record choice := {
  choice_message : option message;
  finish_reason : finish_value
}.

Record glm_response := {
  choices : option (list choice);
  model : option string;
  prompt_tokens : option Z;          (* usage?.prompt_tokens *)
  completion_tokens : option Z       (* usage?.completion_tokens *)
}.

(** Anthropic content blocks built by transformResponse. *)
Inductive block :=
| Thinking (thinking : jsstring)
| Text (text : jsstring)
| ToolUse (id name : string) (input : Router.value).

Inductive anthropic_response :=
| Message (id : string) (content : list block) (model : string)
          (stop_reason : stop_value) (input_tokens output_tokens : Z)
| ErrorResponse (type message : string).

Definition createErrorResponse (message : string) : anthropic_response :=
  ErrorResponse "api_error" message.

(** [s || ''] on an optional string. *)
Definition or_empty (s : option jsstring) : jsstring :=
  match s with Some x => x | None => [] end.

(** [n || 0] *)
Definition or_zero (n : option Z) : Z :=
  match n with Some x => x | None => 0%Z end.

Section Transform.

(** [generateMessageId()]: read off the clock and the random source. *)
Variable messageId : string.

Variable JSON_parse : string -> Router.value + string.

(** [input = {}; try { input = JSON.parse(...) } catch { }] *)
Definition parsed_input (toolCall : Executor.tool_call) : Router.value :=
  match JSON_parse (Executor.arguments toolCall) with
  | inl v => v
  | inr _ => Router.VObj []
  end.

Definition tool_use_block (toolCall : Executor.tool_call) : block :=
  ToolUse (Executor.id toolCall) (Executor.fname toolCall) (parsed_input toolCall).

Definition transformResponse (glmResponse : option glm_response)
  : result anthropic_response :=
  match glmResponse with
  | None => Ok (createErrorResponse "Empty response from upstream API")
  | Some glm =>
      match choices glm with
      | None => Ok (createErrorResponse "Empty response from upstream API")
      | Some [] => Ok (createErrorResponse "Empty response from upstream API")
      | Some (choice0 :: _) =>
          match choice_message choice0 with
          | None => Throw (TypeError "Cannot read properties of undefined")
          | Some message0 =>
              let native := or_empty (reasoning_content message0) in
              let content1 :=
                if truthy native then [Thinking native] else [] in
              let textContent := or_empty (content message0) in
              let extracted := extractReasoning textContent in
              let content2 :=
                match reasoning extracted with
                | Some r =>
                    if truthy r && negb (truthy native)
                    then content1 ++ [Thinking r] else content1
                | None => content1
                end in
              let textContent := ReasoningExtract.content extracted in
              let content3 :=
                if truthy textContent then content2 ++ [Text textContent]
                else content2 in
              let toolCalls :=
                match tool_calls message0 with Some l => l | None => [] end in
              let clientToolCalls :=
                filter (fun tc => negb (isOurTool (Executor.fname tc))) toolCalls in
              let content4 := content3 ++ map tool_use_block clientToolCalls in
              let hasClientToolCalls := Nat.ltb 0 (length clientToolCalls) in
              let stopReason :=
                mapStopReason (finish_reason choice0) hasClientToolCalls in
              Ok (Message messageId content4
                          (match model glm with
                           | Some m => Router.or_str m "glm-4.7-enhanced"
                           | None => "glm-4.7-enhanced"
                           end)
                          stopReason
                          (or_zero (prompt_tokens glm))
                          (or_zero (completion_tokens glm)))
          end
      end
  end.

End Transform.

(** Reading the blocks of a response. *)
Definition is_thinking (b : block) : bool :=
  match b with Thinking _ => true | _ => false end.

Definition is_text (b : block) : bool :=
  match b with Text _ => true | _ => false end.

Definition is_tool_use (b : block) : bool :=
  match b with ToolUse _ _ _ => true | _ => false end.

(** No empty thinking or text block, and no tool_use block of a tool
    the proxy runs itself. *)
Definition block_ok (b : block) : bool :=
  match b with
  | Thinking s => truthy s
  | Text s => truthy s
  | ToolUse _ name _ => negb (isOurTool name)
  end.

(** Thinking first, then text, then tool use. *)
Definition rank (b : block) : nat :=
  match b with
  | Thinking _ => 0
  | Text _ => 1
  | ToolUse _ _ _ => 2
  end.

Fixpoint ordered (l : list block) : bool :=
  match l with
  | a :: (b :: _) as rest => Nat.leb (rank a) (rank b) && ordered rest
  | _ => true
  end.

End Response.

(** ** Simulated streaming of a complete response (streaming/sse.js) *)

Module Sse.
Local Open Scope string_scope.
Local Open Scope list_scope.

(** A content block of the response, by its [type]; a block of any
    other type is sent as it is. *)
Inductive block :=
| TextBlock (text : jsstring)
| ThinkingBlock (thinking : jsstring)
| ToolUseBlock (id name : string) (input : Router.value)
| OtherBlock (raw : Router.value).

Record response := {
  id : option string;
  model : option string;
  content : option (list block);
  stop_reason : option string;
  input_tokens : option Z;           (* usage?.input_tokens *)
  output_tokens : option Z           (* usage?.output_tokens *)
}.

(** [content_block] of a content_block_start event. *)
Inductive start_block :=
| StartText                                    (* {type:'text', text:''} *)
| StartThinking                                (* {type:'thinking', thinking:''} *)
| StartToolUse (id name : string)              (* input: {} *)
| StartAsIs (raw : Router.value).

(** [{type: deltaType, [deltaField]: chunk}] *)
Record delta := {
  delta_type : string;
  delta_field : string;
  chunk : jsstring
}.

Inductive event :=
| message_start (id : string) (model : option string) (input_tokens : Z)
| content_block_start (index : nat) (content_block : start_block)
| content_block_delta (index : nat) (d : delta)
| content_block_stop (index : nat)
| message_delta (stop_reason : string) (output_tokens : Z)
| message_stop.

(** How a call ends: it returns, it throws, or the loop is still running
    when the fuel is used up. *)
Inductive outcome :=
| Completed
| Threw (e : error)
| Running.

(** The events written so far and how the call ended. *)
Definition run : Type := list event * outcome.

(** [first; second]: the second part runs only if the first returns. *)
Definition and_then (first second : run) : run :=
  match snd first with
  | Completed => (fst first ++ fst second, snd second)
  | _ => first
  end.

(** [text.substring(a, b)] on numbers that may be negative: a negative
    bound counts as 0. *)
Definition substringZ (text : jsstring) (a b : Z) : jsstring :=
  substring text (Z.to_nat a) (Z.to_nat b).

(** [while (position < text.length) { ... position += chunkSize ... }] *)
Fixpoint streamText_from (fuel : nat) (text : jsstring) (index : nat)
         (deltaType deltaField : string) (chunkSize position : Z) : run :=
  match fuel with
  | O => ([], Running)
  | S fuel' =>
      if (position <? Z.of_nat (length text))%Z then
        let chunk := substringZ text position (position + chunkSize) in
        let rest := streamText_from fuel' text index deltaType deltaField
                                    chunkSize (position + chunkSize) in
        (content_block_delta index
           {| delta_type := deltaType; delta_field := deltaField;
              chunk := chunk |} :: fst rest,
         snd rest)
      else ([], Completed)
  end.

Definition streamText (fuel : nat) (text : jsstring) (index : nat)
           (deltaType deltaField : string) (chunkSize : Z) : run :=
  streamText_from fuel text index deltaType deltaField chunkSize 0.

Definition startBlock (b : block) : start_block :=
  match b with
  | TextBlock _ => StartText
  | ThinkingBlock _ => StartThinking
  | ToolUseBlock id name _ => StartToolUse id name
  | OtherBlock raw => StartAsIs raw
  end.

Section Streaming.

(** [JSON.stringify]; [None] is its result [undefined] (on
    [undefined] itself), whose [length] cannot be read. *)
Variable JSON_stringify : Router.value -> option jsstring.

(** [generateMessageId()]: read off the clock and the random source. *)
Variable generatedId : string.

Definition streamContentBlock (fuel : nat) (b : block) (index : nat)
           (chunkSize : Z) : run :=
  and_then
    ([content_block_start index (startBlock b)], Completed)
    (and_then
       match b with
       | TextBlock text =>
           if truthy text
           then streamText fuel text index "text_delta" "text" chunkSize
           else ([], Completed)
       | ThinkingBlock thinking =>
           if truthy thinking
           then streamText fuel thinking index "thinking_delta" "thinking"
                           chunkSize
           else ([], Completed)
       | ToolUseBlock _ _ input =>
           match JSON_stringify input with
           | Some inputJson =>
               streamText fuel inputJson index "input_json_delta"
                          "partial_json" chunkSize
           | None =>
               ([], Threw (TypeError "Cannot read properties of undefined"))
           end
       | OtherBlock _ => ([], Completed)
       end
       ([content_block_stop index], Completed)).

(** [for (const block of content) { await streamContentBlock(...);
    blockIndex++ }] *)
Fixpoint streamBlocks (fuel : nat) (blocks : list block) (blockIndex : nat)
         (chunkSize : Z) : run :=
  match blocks with
  | [] => ([], Completed)
  | b :: rest =>
      and_then (streamContentBlock fuel b blockIndex chunkSize)
               (streamBlocks fuel rest (S blockIndex) chunkSize)
  end.

(** [options.chunkSize], 20 when it is not given. *)
Definition chunkSize_of (option_chunkSize : option Z) : Z :=
  match option_chunkSize with Some c => c | None => 20%Z end.

Definition streamResponse (fuel : nat) (anthropicResponse : response)
           (option_chunkSize : option Z) : run :=
  let chunkSize := chunkSize_of option_chunkSize in
  and_then
    ([message_start
        (match id anthropicResponse with
         | Some i => Router.or_str i generatedId
         | None => generatedId
         end)
        (model anthropicResponse)
        (Response.or_zero (input_tokens anthropicResponse))],
     Completed)
    (and_then
       (streamBlocks fuel
          (match content anthropicResponse with Some l => l | None => [] end)
          0 chunkSize)
       ([message_delta
           (match stop_reason anthropicResponse with
            | Some s => Router.or_str s "end_turn"
            | None => "end_turn"
            end)
           (Response.or_zero (output_tokens anthropicResponse));
         message_stop],
        Completed)).

(** What the deltas of a block carry in all. *)
Definition block_text (b : block) : jsstring :=
  match b with
  | TextBlock text => text
  | ThinkingBlock thinking => thinking
  | ToolUseBlock _ _ input =>
      match JSON_stringify input with Some j => j | None => [] end
  | OtherBlock _ => []
  end.

Definition can_stringify (b : block) : bool :=
  match b with
  | ToolUseBlock _ _ input =>
      match JSON_stringify input with Some _ => true | None => false end
  | _ => true
  end.

End Streaming.

(** All events are deltas of block [index] of one type. *)
Definition deltas_of (index : nat) (deltaType deltaField : string)
           (events : list event) : Prop :=
  Forall (fun e => exists c,
              e = content_block_delta index
                    {| delta_type := deltaType; delta_field := deltaField;
                       chunk := c |}) events.

(** Reading a stream of events as a client does. *)
Definition chunk_at (i : nat) (e : event) : jsstring :=
  match e with
  | content_block_delta j d => if Nat.eqb j i then chunk d else []
  | _ => []
  end.

(** The text received for block [i]: its deltas put together. *)
Definition received (i : nat) (events : list event) : jsstring :=
  concat (map (chunk_at i) events).

Definition chunks (events : list event) : list jsstring :=
  flat_map (fun e => match e with
                     | content_block_delta _ d => [chunk d]
                     | _ => []
                     end) events.

(** Blocks come one after the other, numbered from [next]: a start, the
    deltas of that block, its stop.  [opened] tells whether a block is
    open. *)
Fixpoint framed (next : nat) (opened : bool) (events : list event) : bool :=
  match events with
  | [] => negb opened
  | content_block_start i _ :: rest =>
      negb opened && Nat.eqb i next && framed next true rest
  | content_block_delta i _ :: rest =>
      opened && Nat.eqb i next && framed next true rest
  | content_block_stop i :: rest =>
      opened && Nat.eqb i next && framed (S next) false rest
  | _ => false
  end.

Definition starts (events : list event) : list start_block :=
  flat_map (fun e => match e with
                     | content_block_start _ sb => [sb]
                     | _ => []
                     end) events.

(** [JSON.stringify] on the inputs of the sample below: the empty
    object gives the text of two braces, [undefined] gives [undefined]. *)
Definition sample_stringify (v : Router.value) : option jsstring :=
  match v with
  | Router.VObj [] => Some (lit "{}")
  | _ => None
  end.

Definition sample_response : response :=
  {| id := None;
     model := Some "glm-4.7";
     content := Some [ThinkingBlock (lit "plan the answer step by step");
                      TextBlock (lit "Here is the answer.");
                      ToolUseBlock "call_1" "get_weather" (Router.VObj [])];
     stop_reason := Some "tool_use";
     input_tokens := Some 12%Z;
     output_tokens := None |}.

End Sse.

(** ** Cleaning a response of the Anthropic endpoint
       (transformers/anthropic-response.js) *)

Module AnthropicClean.
Import StopReason ReasoningExtract.
Local Open Scope string_scope.
Local Open Scope list_scope.

(** A content block of the response.  [text] and [thinking] are
    strings when present; [id] and [input] are those of a tool_use
    block; [content], [result] and [output] are the payload of a
    server-side tool block; [others] are the fields the proxy does not
    look at (source, signature, ...). *)
Record block := {
  type : string;
  id : option string;
  input : Router.value;
  name : option string;
  tool_name : option string;
  text : option jsstring;
  thinking : option jsstring;
  content : Router.value;
  result : Router.value;
  output : Router.value;
  others : string
}.

(** The response object; [rest] are the fields copied by the spread
    (id, model, role, usage, ...). *)
Record response := {
  response_type : string;
  reasoning_content : option jsstring;
  response_content : option (list block);
  stop_reason : option string;
  rest : string
}.

Definition VALID_CONTENT_TYPES : list string :=
  ["text"; "image"; "tool_use"; "tool_result"; "thinking"].

(** [{type: 'thinking', thinking}] and [{type: 'text', text}] *)
Definition thinking_block (thinking : jsstring) : block :=
  {| type := "thinking"; id := None; input := Router.VUndefined;
     name := None; tool_name := None; text := None;
     thinking := Some thinking; content := Router.VUndefined;
     result := Router.VUndefined; output := Router.VUndefined;
     others := "" |}.

Definition text_block (text : jsstring) : block :=
  {| type := "text"; id := None; input := Router.VUndefined;
     name := None; tool_name := None; text := Some text;
     thinking := None; content := Router.VUndefined;
     result := Router.VUndefined; output := Router.VUndefined;
     others := "" |}.

(** [a || b] on values. *)
Definition or_value (a b : Router.value) : Router.value :=
  if Validate.falsy a then b else a.

(** [a || b] on optional strings. *)
Definition or_name (a : option string) (b : string) : string :=
  match a with
  | Some s => Router.or_str s b
  | None => b
  end.

Section Clean.

Variable reg : Executor.registry.
Variable cfg : Executor.config.
Variable JSON_stringify : Router.value -> jsstring.

(** A name that is not there is the name of no tool. *)
Definition isInternalTool (toolName : option string) : bool :=
  match toolName with
  | Some n =>
      if Executor.shouldHandleInternally reg cfg n then true
      else match Executor.findMcpForTool reg n with
           | Some _ => true
           | None => false
           end
  | None => false
  end.

(** The text put in place of a server-side tool block, if its
    payload is not empty. *)
Definition server_tool_text (b : block) : option block :=
  let toolName := or_name (name b) (or_name (tool_name b) "unknown_tool") in
  let toolContent :=
    or_value (content b)
             (or_value (result b) (or_value (output b) (Router.VStr ""))) in
  if Validate.falsy toolContent then None
  else Some (text_block
               (lit "[" ++ lit toolName ++ lit " result]: "
                    ++ match toolContent with
                       | Router.VStr s => lit s
                       | v => JSON_stringify v
                       end)).

(** The four lists filled by the loop over the content. *)
Record sorted := {
  processedContent : list block;
  internalToolBlocks : list block;
  clientToolBlocks : list block;
  otherBlocks : list block
}.

Definition push_processed (acc : sorted) (b : block) : sorted :=
  {| processedContent := processedContent acc ++ [b];
     internalToolBlocks := internalToolBlocks acc;
     clientToolBlocks := clientToolBlocks acc;
     otherBlocks := otherBlocks acc |}.

Definition push_internal (acc : sorted) (b : block) : sorted :=
  {| processedContent := processedContent acc;
     internalToolBlocks := internalToolBlocks acc ++ [b];
     clientToolBlocks := clientToolBlocks acc;
     otherBlocks := otherBlocks acc |}.

Definition push_client (acc : sorted) (b : block) : sorted :=
  {| processedContent := processedContent acc;
     internalToolBlocks := internalToolBlocks acc;
     clientToolBlocks := clientToolBlocks acc ++ [b];
     otherBlocks := otherBlocks acc |}.

Definition push_other (acc : sorted) (b : block) : sorted :=
  {| processedContent := processedContent acc;
     internalToolBlocks := internalToolBlocks acc;
     clientToolBlocks := clientToolBlocks acc;
     otherBlocks := otherBlocks acc ++ [b] |}.

(** One turn of [for (const block of content)]; [hasNative] is
    [anthropicResponse.reasoning_content] being truthy. *)
Definition sort_block (hasNative : bool) (acc : sorted) (b : block)
  : sorted :=
  if negb (includes VALID_CONTENT_TYPES (type b)) then
    if String.eqb (type b) "server_tool_use"
       || String.eqb (type b) "server_tool_result"
    then match server_tool_text b with
         | Some t => push_other acc t
         | None => acc
         end
    else acc
  else if String.eqb (type b) "tool_use" then
    if isInternalTool (name b) then push_internal acc b
    else push_client acc b
  else if String.eqb (type b) "text" then
    let extracted := extractReasoning (Response.or_empty (text b)) in
    let acc1 :=
      match reasoning extracted with
      | Some r =>
          if truthy r && negb hasNative
          then push_processed acc (thinking_block r) else acc
      | None => acc
      end in
    if truthy (ReasoningExtract.content extracted)
    then push_other acc1 (text_block (ReasoningExtract.content extracted))
    else acc1
  else push_other acc b.

(** [null] and error responses are returned as they are. *)
Definition cleanAnthropicResponse (anthropicResponse : option response)
  : option response :=
  match anthropicResponse with
  | None => None
  | Some r =>
      if String.eqb (response_type r) "error" then Some r
      else
        let content := match response_content r with
                       | Some l => l
                       | None => []
                       end in
        let native := Response.or_empty (reasoning_content r) in
        let start :=
          {| processedContent :=
               if truthy native then [thinking_block native] else [];
             internalToolBlocks := [];
             clientToolBlocks := [];
             otherBlocks := [] |} in
        let acc := fold_left (sort_block (truthy native)) content start in
        let cleanedContent :=
          processedContent acc ++ otherBlocks acc ++ clientToolBlocks acc in
        let stopReason :=
          match stop_reason r with
          | Some s =>
              if String.eqb s "tool_use"
                 && Nat.eqb (length (clientToolBlocks acc)) 0
              then Some "end_turn" else Some s
          | None => None
          end in
        Some {| response_type := response_type r;
                reasoning_content := None;
                response_content := Some cleanedContent;
                stop_reason := stopReason;
                rest := rest r |}
  end.

Definition getInternalToolCalls (anthropicResponse : option response)
  : list block :=
  match anthropicResponse with
  | Some {| response_content := Some content |} =>
      filter (fun b => String.eqb (type b) "tool_use"
                       && isInternalTool (name b)) content
  | _ => []
  end.

Definition getClientToolCalls (anthropicResponse : option response)
  : list block :=
  match anthropicResponse with
  | Some {| response_content := Some content |} =>
      filter (fun b => String.eqb (type b) "tool_use"
                       && negb (isInternalTool (name b))) content
  | _ => []
  end.

End Clean.

Definition content_of (r : option response) : list block :=
  match r with
  | Some {| response_content := Some content |} => content
  | _ => []
  end.

Definition tool_block (n : string) : block :=
  {| type := "tool_use"; id := Some ("toolu_" ++ n)%string;
     input := Router.VObj [("query", Router.VStr "rocq")];
     name := Some n; tool_name := None; text := None;
     thinking := None; content := Router.VUndefined;
     result := Router.VUndefined; output := Router.VUndefined;
     others := "" |}.

(** An answer that searches the web, reads a file and carries a
    server-side block. *)
Definition sample_response : response :=
  {| response_type := "message";
     reasoning_content := None;
     response_content :=
       Some [text_block
               (lit "<reasoning_content>look it up</reasoning_content>Let me check.");
             tool_block "web_search";
             {| type := "server_tool_use"; id := Some "srv_1";
                input := Router.VUndefined; name := Some "web_search_prime";
                tool_name := None; text := None; thinking := None;
                content := Router.VUndefined; result := Router.VUndefined;
                output := Router.VUndefined; others := "" |};
             tool_block "Read"];
     stop_reason := Some "tool_use";
     rest := "usage" |}.

End AnthropicClean.

(** ** Tool loop for the Anthropic endpoint (tools/anthropic-executor.js) *)

Module AnthropicExecutor.
Import StopReason.
Import Executor(registry, config, maxIterations, maxConsecutiveInternal,
                settled, Fulfilled, Rejected, mcp_target, CustomMcp,
                SearchMcp, ReaderMcp, findMcpForTool, getCanonicalToolName).
Import AnthropicClean(block, type, id, input, name, response, response_type,
                      response_content, reasoning_content, stop_reason,
                      rest, cleanAnthropicResponse, getInternalToolCalls,
                      getClientToolCalls, VALID_CONTENT_TYPES, content_of,
                      tool_block).
Local Open Scope string_scope.
Local Open Scope list_scope.

(** [{type: 'tool_result', tool_use_id, content, is_error}] *)
Record tool_result := {
  tool_use_id : option string;
  result_content : string;
  is_error : bool
}.

(** The conversation: the messages of the request, which the loop does
    not look at, and the two kinds of message it appends. *)
Inductive message :=
| Given (payload : string)
| AssistantTurn (content : option (list block))   (* role 'assistant' *)
| ToolResults (content : list tool_result).       (* role 'user' *)

Record request := {
  messages : option (list message);
  tools : option string;
  other_fields : string
}.

(** [{ ...anthropicRequest, messages }] *)
Definition request_at (anthropicRequest : request) (msgs : list message)
  : request :=
  {| messages := Some msgs; tools := tools anthropicRequest;
     other_fields := other_fields anthropicRequest |}.

(** [{ ...anthropicRequest, messages, tools: undefined }] *)
Definition forced_final (anthropicRequest : request) (msgs : list message)
  : request :=
  {| messages := Some msgs; tools := None;
     other_fields := other_fields anthropicRequest |}.

(** [input.a || input.b || input.c || ''] *)
Definition first_of (input : Router.value) (a b c : string)
  : result Router.value :=
  x <- Router.get input a ;;
  if negb (Validate.falsy x) then Ok x else
  y <- Router.get input b ;;
  if negb (Validate.falsy y) then Ok y else
  z <- Router.get input c ;;
  if negb (Validate.falsy z) then Ok z else Ok (Router.VStr "").

(** The message of a thrown error. *)
Definition message_of (e : error) : string :=
  match e with
  | TypeError m => m
  | ToolExecutionError m _ => m
  | ContextLimitError m => m
  | GlmApiError m _ => m
  | OtherError m => m
  end.

Section Loop.

Variable world : Type.

(** [callApiFn]: resolves to a response or rejects. *)
Variable callApiFn : request -> world -> result response * world.

(** [callCustomMcpTool] / [callMcpTool] with the arguments passed. *)
Variable callMcp : mcp_target -> Router.value -> world -> settled * world.

Variable reg : registry.
Variable cfg : config.
Variable JSON_stringify : Router.value -> jsstring.

(** An async function: what it throws rejects its promise. *)
Definition executeToolAnthropic (name : option string) (input : Router.value)
           (w : world) : settled * world :=
  match name with
  | None => (Fulfilled "Error: Unknown tool undefined", w)
  | Some name =>
      let canonicalName := getCanonicalToolName name in
      match findMcpForTool reg name with
      | Some mcpId => callMcp (CustomMcp mcpId name) input w
      | None =>
          if String.eqb canonicalName "web_search" then
            match first_of input "query" "search_query" "q" with
            | Ok query =>
                callMcp SearchMcp (Router.VObj [("search_query", query)]) w
            | Throw e => (Rejected (Some (message_of e)), w)
            end
          else if String.eqb canonicalName "web_reader" then
            match first_of input "url" "href" "link" with
            | Ok url => callMcp ReaderMcp (Router.VObj [("url", url)]) w
            | Throw e => (Rejected (Some (message_of e)), w)
            end
          else (Fulfilled ("Error: Unknown tool " ++ name), w)
      end
  end.

(** Text of [${x}] for a value that may be [undefined]. *)
Definition shown (s : option string) : string :=
  match s with Some x => x | None => "undefined" end.

(** One turn of the loop of executeInternalToolsAnthropic: the
    try/catch turns a rejection into an error result. *)
Definition executeOne (toolUse : block) (w : world) : tool_result * world :=
  let '(r, w1) := executeToolAnthropic (name toolUse) (input toolUse) w in
  match r with
  | Fulfilled resultContent =>
      ({| tool_use_id := id toolUse;
          result_content := resultContent;
          is_error := String.prefix "Error:" resultContent |}, w1)
  | Rejected m =>
      ({| tool_use_id := id toolUse;
          result_content :=
            "Error executing " ++ shown (name toolUse) ++ ": " ++ shown m;
          is_error := true |}, w1)
  end.

Fixpoint executeInternalToolsAnthropic (toolUseBlocks : list block) (w : world)
  : list tool_result * world :=
  match toolUseBlocks with
  | [] => ([], w)
  | toolUse :: rest =>
      let '(r, w1) := executeOne toolUse w in
      let '(rs, w2) := executeInternalToolsAnthropic rest w1 in
      (r :: rs, w2)
  end.

(** [config.toolExecution?.maxIterations || 15] and
    [config.toolExecution?.maxConsecutiveInternal || 10] *)
Definition maxIterations' : nat :=
  match maxIterations cfg with 0 => 15 | n => n end.

Definition maxConsecutiveInternal' : nat :=
  match maxConsecutiveInternal cfg with 0 => 10 | n => n end.

Definition clean (r : response) : option response :=
  cleanAnthropicResponse reg cfg JSON_stringify (Some r).

(** The two [messages.push] steps of a round. *)
Definition push_round (msgs : list message) (r : response)
           (toolResults : list tool_result) : list message :=
  msgs ++ [AssistantTurn (response_content r); ToolResults toolResults].

(** Everything observable of one run of the loop. *)
Record run := {
  outcome : result (option response);
  calls : list request;           (* requests passed to callApiFn, in order *)
  history : list message;         (* [messages] when the loop is left *)
  iterations : nat;               (* final value of [iteration] *)
  final_world : world
}.

(** The [while (iteration < maxIterations)] loop; [remaining] is
    [maxIterations - iteration]. *)
Fixpoint loop (anthropicRequest : request)
         (remaining iteration consecutiveInternalCalls : nat)
         (msgs : list message) (log : list request) (w : world) : run :=
  match remaining with
  | 0 =>
      {| outcome :=
           Throw (ToolExecutionError
                    ("Tool execution loop exceeded "
                       ++ Executor.string_of_nat maxIterations'
                       ++ " iterations")
                    maxIterations');
         calls := log; history := msgs; iterations := iteration;
         final_world := w |}
  | S remaining' =>
      let iteration := S iteration in
      let req := request_at anthropicRequest msgs in
      let log := log ++ [req] in
      let done (o : result (option response)) (ms : list message)
               (lg : list request) (w' : world) :=
        {| outcome := o; calls := lg; history := ms;
           iterations := iteration; final_world := w' |} in
      match callApiFn req w with
      | (Throw e, w1) => done (Throw e) msgs log w1
      | (Ok response, w1) =>
          if String.eqb (response_type response) "error"
          then done (Ok (Some response)) msgs log w1
          else
            let internalTools :=
              getInternalToolCalls reg cfg (Some response) in
            let clientTools :=
              getClientToolCalls reg cfg (Some response) in
            if (length internalTools =? 0)%nat
            then done (Ok (clean response)) msgs log w1
            else
              let consecutive :=
                if (length clientTools =? 0)%nat
                then S consecutiveInternalCalls else 0 in
              if (length clientTools =? 0)%nat
                 && (maxConsecutiveInternal' <? consecutive)%nat
              then
                let '(toolResults, w2) :=
                  executeInternalToolsAnthropic internalTools w1 in
                let msgs' := push_round msgs response toolResults in
                let final := forced_final anthropicRequest msgs' in
                match callApiFn final w2 with
                | (Throw e, w3) => done (Throw e) msgs' (log ++ [final]) w3
                | (Ok finalResponse, w3) =>
                    done (Ok (clean finalResponse)) msgs' (log ++ [final]) w3
                end
              else
                let '(toolResults, w2) :=
                  executeInternalToolsAnthropic internalTools w1 in
                let msgs' := push_round msgs response toolResults in
                if (0 <? length clientTools)%nat
                then done (Ok (clean response)) msgs' log w2
                else loop anthropicRequest remaining' iteration
                          consecutive msgs' log w2
      end
  end.

Definition executeWithToolsAnthropic (anthropicRequest : request) (w : world)
  : run :=
  loop anthropicRequest maxIterations' 0 0
       (match messages anthropicRequest with Some l => l | None => [] end)
       [] w.

End Loop.

Arguments outcome {world} r.
Arguments calls {world} r.
Arguments history {world} r.
Arguments iterations {world} r.
Arguments final_world {world} r.

(** What a caller may receive: an error response of the backend as it
    came, or a cleaned message. *)
Definition presentable (reg : registry) (cfg : config) (r : response) : Prop :=
  response_type r = "error"
  \/ (forallb (fun b => includes VALID_CONTENT_TYPES (type b))
              (content_of (Some r)) = true
      /\ getInternalToolCalls reg cfg (Some r) = []
      /\ reasoning_content r = None).

(** A sequence of complete rounds: the assistant turn with the content
    of a response, then one tool_result per internal tool_use block of
    that response, with that block's id, in order. *)
Inductive rounds (reg : registry) (cfg : config) : list message -> Prop :=
| rounds_nil : rounds reg cfg []
| rounds_cons (r : response) (toolResults : list tool_result)
              (rest : list message) :
    map tool_use_id toolResults
    = map id (getInternalToolCalls reg cfg (Some r)) ->
    getInternalToolCalls reg cfg (Some r) <> [] ->
    rounds reg cfg rest ->
    rounds reg cfg (AssistantTurn (response_content r)
                      :: ToolResults toolResults :: rest).

End AnthropicExecutor.

(** ** Runtime configuration (config.js: updateConfig, saveSettings) *)

Module ConfigUpdate.
Import Router(value, VUndefined, VNull, VBool, VNum, VStr, VArr, VObj, get).
Local Open Scope string_scope.
Local Open Scope list_scope.

(** The mutable part of [config].  The three switches hold whatever
    value an update put there. *)
Record config := {
  forceReasoning : value;            (* config.reasoning.forceReasoning *)
  streaming_enabled : value;         (* config.streaming.enabled *)
  chunkSize : Z;                     (* config.streaming.chunkSize *)
  chunkDelay : Z;                    (* config.streaming.chunkDelay *)
  webSearch_enabled : value;         (* config.webSearch.enabled *)
  zaiApiKey : string;
  endpoint_mode : string;            (* config.endpoint.mode *)
  endpoint_useAnthropic : bool       (* config.endpoint.useAnthropic *)
}.

(** What updateConfig does outside [config]. *)
Inductive effect :=
| SetEnvApiKey (key : string)        (* setEnvApiKey('ZAI_API_KEY', key) *)
| SaveSettings (snapshot : config).  (* writeJsonFile(SETTINGS_FILE, ...) *)

(** [config] when the call is left, what was written, and the error if
    the call threw. *)
Record outcome := {
  final : config;
  effects : list effect;
  thrown : option error
}.

Definition validModes : list string := ["anthropic"; "openai"; "bigmodel"].

Definition is_boolean (v : value) : bool :=
  String.eqb (Validate.typeof v) "boolean".

Definition set_forceReasoning (c : config) (v : value) : config :=
  {| forceReasoning := v; streaming_enabled := streaming_enabled c;
     chunkSize := chunkSize c; chunkDelay := chunkDelay c;
     webSearch_enabled := webSearch_enabled c; zaiApiKey := zaiApiKey c;
     endpoint_mode := endpoint_mode c;
     endpoint_useAnthropic := endpoint_useAnthropic c |}.

Definition set_streaming_enabled (c : config) (v : value) : config :=
  {| forceReasoning := forceReasoning c; streaming_enabled := v;
     chunkSize := chunkSize c; chunkDelay := chunkDelay c;
     webSearch_enabled := webSearch_enabled c; zaiApiKey := zaiApiKey c;
     endpoint_mode := endpoint_mode c;
     endpoint_useAnthropic := endpoint_useAnthropic c |}.

Definition set_chunkSize (c : config) (n : Z) : config :=
  {| forceReasoning := forceReasoning c;
     streaming_enabled := streaming_enabled c;
     chunkSize := n; chunkDelay := chunkDelay c;
     webSearch_enabled := webSearch_enabled c; zaiApiKey := zaiApiKey c;
     endpoint_mode := endpoint_mode c;
     endpoint_useAnthropic := endpoint_useAnthropic c |}.

Definition set_chunkDelay (c : config) (n : Z) : config :=
  {| forceReasoning := forceReasoning c;
     streaming_enabled := streaming_enabled c;
     chunkSize := chunkSize c; chunkDelay := n;
     webSearch_enabled := webSearch_enabled c; zaiApiKey := zaiApiKey c;
     endpoint_mode := endpoint_mode c;
     endpoint_useAnthropic := endpoint_useAnthropic c |}.

Definition set_webSearch_enabled (c : config) (v : value) : config :=
  {| forceReasoning := forceReasoning c;
     streaming_enabled := streaming_enabled c;
     chunkSize := chunkSize c; chunkDelay := chunkDelay c;
     webSearch_enabled := v; zaiApiKey := zaiApiKey c;
     endpoint_mode := endpoint_mode c;
     endpoint_useAnthropic := endpoint_useAnthropic c |}.

Definition set_zaiApiKey (c : config) (k : string) : config :=
  {| forceReasoning := forceReasoning c;
     streaming_enabled := streaming_enabled c;
     chunkSize := chunkSize c; chunkDelay := chunkDelay c;
     webSearch_enabled := webSearch_enabled c; zaiApiKey := k;
     endpoint_mode := endpoint_mode c;
     endpoint_useAnthropic := endpoint_useAnthropic c |}.

Definition set_mode (c : config) (m : string) : config :=
  {| forceReasoning := forceReasoning c;
     streaming_enabled := streaming_enabled c;
     chunkSize := chunkSize c; chunkDelay := chunkDelay c;
     webSearch_enabled := webSearch_enabled c; zaiApiKey := zaiApiKey c;
     endpoint_mode := m;
     endpoint_useAnthropic := endpoint_useAnthropic c |}.

Definition set_useAnthropic (c : config) (b : bool) : config :=
  {| forceReasoning := forceReasoning c;
     streaming_enabled := streaming_enabled c;
     chunkSize := chunkSize c; chunkDelay := chunkDelay c;
     webSearch_enabled := webSearch_enabled c; zaiApiKey := zaiApiKey c;
     endpoint_mode := endpoint_mode c;
     endpoint_useAnthropic := b |}.

Section Update.

(** [parseInt(v, 10)]; [None] is NaN. *)
Variable parseInt : value -> option Z.

(** [if (updates.reasoning !== undefined) { ... }] *)
Definition update_reasoning (updates : value) (c : config) : result config :=
  r <- get updates "reasoning" ;;
  if negb (Validate.defined r) then Ok c
  else if is_boolean r then Ok (set_forceReasoning c r)
  else if Validate.is_object r then
    f <- get r "forceReasoning" ;;
    if Validate.defined f then Ok (set_forceReasoning c f) else Ok c
  else Ok c.

(** [if (updates.streaming !== undefined) { ... }] *)
Definition update_streaming (updates : value) (c : config) : result config :=
  s <- get updates "streaming" ;;
  if negb (Validate.defined s) then Ok c
  else if is_boolean s then Ok (set_streaming_enabled c s)
  else if Validate.is_object s then
    e <- get s "enabled" ;;
    let c1 := if Validate.defined e then set_streaming_enabled c e else c in
    n <- get s "chunkSize" ;;
    let c2 :=
      if Validate.defined n
      then set_chunkSize c1 match parseInt n with
                            | None => 20%Z
                            | Some parsed => parsed
                            end
      else c1 in
    d <- get s "chunkDelay" ;;
    Ok (if Validate.defined d
        then set_chunkDelay c2 match parseInt d with
                               | None => 0%Z
                               | Some parsed => parsed
                               end
        else c2)
  else Ok c.

(** [if (updates.webSearch !== undefined) { ... }] *)
Definition update_webSearch (updates : value) (c : config) : result config :=
  s <- get updates "webSearch" ;;
  if negb (Validate.defined s) then Ok c
  else if is_boolean s then Ok (set_webSearch_enabled c s)
  else if Validate.is_object s then
    e <- get s "enabled" ;;
    if Validate.defined e then Ok (set_webSearch_enabled c e) else Ok c
  else Ok c.

(** The key is taken when it is a string, and written to .env when it
    is not empty. *)
Definition update_zaiApiKey (updates : value) (c : config)
  : result (config * list effect) :=
  k <- get updates "zaiApiKey" ;;
  match k with
  | VStr key =>
      Ok (set_zaiApiKey c key,
          match key with EmptyString => [] | _ => [SetEnvApiKey key] end)
  | _ => Ok (c, [])
  end.

(** [if (updates.endpoint !== undefined) { ... }] *)
Definition update_endpoint (updates : value) (c : config) : result config :=
  e <- get updates "endpoint" ;;
  if negb (Validate.defined e) then Ok c
  else
    match e with
    | VStr m =>
        if StopReason.includes validModes m
        then Ok (set_useAnthropic (set_mode c m) (String.eqb m "anthropic"))
        else Ok c
    | _ =>
        if Validate.is_object e then
          m <- get e "mode" ;;
          let c1 :=
            match m with
            | VStr mode =>
                if StopReason.includes validModes mode
                then set_useAnthropic (set_mode c mode)
                                      (String.eqb mode "anthropic")
                else c
            | _ => c
            end in
          u <- get e "useAnthropic" ;;
          Ok (if Validate.defined u
              then set_useAnthropic c1 (negb (Validate.falsy u))
              else c1)
        else Ok c
    end.

(** The sections are applied in order; what a section throws leaves
    the earlier ones applied and the settings unsaved. *)
Definition updateConfig (updates : value) (c : config) : outcome :=
  let stop (c' : config) (written : list effect) (e : error) :=
    {| final := c'; effects := written; thrown := Some e |} in
  match update_reasoning updates c with
  | Throw e => stop c [] e
  | Ok c1 =>
      match update_streaming updates c1 with
      | Throw e => stop c1 [] e
      | Ok c2 =>
          match update_webSearch updates c2 with
          | Throw e => stop c2 [] e
          | Ok c3 =>
              match update_zaiApiKey updates c3 with
              | Throw e => stop c3 [] e
              | Ok (c4, written) =>
                  match update_endpoint updates c4 with
                  | Throw e => stop c4 written e
                  | Ok c5 =>
                      {| final := c5;
                         effects := written ++ [SaveSettings c5];
                         thrown := None |}
                  end
              end
          end
      end
  end.

End Update.

(** The part of the configuration read by the router; the model names
    are constants of config.js. *)
Definition routing (c : config) : Router.config :=
  {| Router.models := Some ("glm-4.7", "glm-4.6v");
     Router.defaultModel := "glm-4.7";
     Router.visionModel := "glm-4.6v";
     Router.endpoint_mode := endpoint_mode c;
     Router.endpoint_useAnthropic := endpoint_useAnthropic c |}.

(** [v === null]; a parsed JSON text holds no [undefined]. *)
Definition is_null (v : value) : bool :=
  match v with VNull => true | _ => false end.

(** The value of a section of the update, for an update that is an
    object. *)
Definition section (updates : value) (k : string) : value :=
  match updates with
  | VObj fields => Router.lookup k fields
  | _ => VUndefined
  end.

End ConfigUpdate.

(** ** Web search tools of a request (tools/triggers.js,
       tools/definitions.js, transformers/request.js) *)

Module WebTools.
Import Router(value, VStr, VArr, VObj).
Local Open Scope string_scope.
Local Open Scope list_scope.

(** *** Trigger phrases (tools/triggers.js) *)

(** A message of a validated request: the content is a string or an
    array of blocks; of a block only [type] and [text] are read. *)
Record block := { type : string; text : jsstring }.

Inductive content :=
| Text (s : jsstring)
| Blocks (blocks : list block).

Record message := { role : string; message_content : content }.

Definition WEB_SEARCH_TRIGGERS : list string :=
  [ "search the web"; "search online"; "look up online"; "find online";
    "search for"; "look this up"; "websearch"; "web search";
    "current news"; "latest news"; "recent news"; "what is the latest";
    "what are the latest"; "what's the latest";
    "latest docs"; "latest documentation"; "current documentation";
    "official docs"; "official documentation" ].

(** [parts.join(sep)] *)
Fixpoint join (sep : jsstring) (parts : list jsstring) : jsstring :=
  match parts with
  | [] => []
  | [p] => p
  | p :: rest => p ++ sep ++ join sep rest
  end.

(** [s.includes(pat)] *)
Definition contains (s pat : jsstring) : bool :=
  match indexOf s pat with Some _ => true | None => false end.

Definition is_user (m : message) : bool := String.eqb (role m) "user".

Section Trigger.

Variable toLowerCase : jsstring -> jsstring.

Definition textContent (lastUserMessage : message) : jsstring :=
  match message_content lastUserMessage with
  | Text s => s
  | Blocks blocks =>
      join (lit " ")
           (map text (filter (fun b => String.eqb (type b) "text") blocks))
  end.

Definition hasWebSearchTrigger (messages : option (list message)) : bool :=
  match messages with
  | None => false
  | Some [] => false
  | Some messages =>
      match find is_user (rev messages) with
      | None => false
      | Some lastUserMessage =>
          let lowerContent := toLowerCase (textContent lastUserMessage) in
          match find (fun trigger => contains lowerContent (lit trigger))
                     WEB_SEARCH_TRIGGERS with
          | Some matchedTrigger => true
          | None => false
          end
      end
  end.

End Trigger.

(** *** The tools array (transformers/request.js) *)

(** A client tool, in Anthropic format. *)
Record client_tool := {
  name : string;
  description : value;
  input_schema : value
}.

(** [{type: 'function', function: {name, description, parameters}}] *)
Record openai_tool := {
  function_name : string;
  function_description : value;
  function_parameters : value
}.

Definition string_parameter (key text : string) : value :=
  VObj [("type", VStr "object");
        ("properties",
         VObj [(key, VObj [("type", VStr "string");
                           ("description", VStr text)])]);
        ("required", VArr [VStr key])].

Definition WEB_SEARCH_TOOL : openai_tool :=
  {| function_name := "web_search";
     function_description :=
       VStr ("Search the INTERNET for current information, news, documentation, or real-time data. "
             ++ "Use ONLY when you need up-to-date information from the web that is not available locally. "
             ++ "DO NOT use this for searching local files or code - use Glob, Grep, or Read tools for local file operations.");
     function_parameters :=
       string_parameter
         "query"
         "The search query - be specific and descriptive for best results" |}.

Definition WEB_READER_TOOL : openai_tool :=
  {| function_name := "web_reader";
     function_description :=
       VStr ("Fetch and read the content of a specific webpage URL from the INTERNET. "
             ++ "Use ONLY when you need to read full content of a webpage, article, or online documentation. "
             ++ "DO NOT use this for reading local files - use the Read tool for local file operations.");
     function_parameters :=
       string_parameter
         "url"
         "The URL of the webpage to read (must be http:// or https://)" |}.

Definition getInjectedTools : list openai_tool :=
  [WEB_SEARCH_TOOL; WEB_READER_TOOL].

Definition duplicateToolNames (webSearchEnabled : bool) : list string :=
  if webSearchEnabled
  then ["WebSearch"; "websearch"; "web_search";
        "WebFetch"; "webfetch"; "web_reader"]
  else [].

Definition converted (tool : client_tool) : openai_tool :=
  {| function_name := name tool;
     function_description := description tool;
     function_parameters := input_schema tool |}.

Definition buildToolsArray (clientTools : option (list client_tool))
           (webSearchEnabled : bool) : list openai_tool :=
  let tools := if webSearchEnabled then getInjectedTools else [] in
  match clientTools with
  | Some clientTools =>
      tools
        ++ map converted
               (filter (fun tool =>
                          negb (StopReason.includes
                                  (duplicateToolNames webSearchEnabled)
                                  (name tool)))
                       clientTools)
  | None => tools
  end.

(** The tools array of transformRequest before the MCP tools are
    added: the web tools are injected when the configuration allows it
    and the user asked for it. *)
Definition request_tools (toLowerCase : jsstring -> jsstring)
           (cfg : Executor.config) (messages : option (list message))
           (clientTools : option (list client_tool)) : list openai_tool :=
  let configEnabled := Executor.webSearch_enabled cfg in
  let userTriggered := configEnabled && hasWebSearchTrigger toLowerCase messages in
  let webSearchEnabled := userTriggered in
  buildToolsArray clientTools webSearchEnabled.

Definition names (tools : list openai_tool) : list string :=
  map function_name tools.

(** A conversation whose last user turn asks for a search. *)
Definition sample_messages : list message :=
  [ {| role := "user"; message_content := Text (lit "hello") |};
    {| role := "assistant"; message_content := Text (lit "search for it?") |};
    {| role := "user";
       message_content :=
         Blocks [ {| type := "text"; text := lit "please search the" |};
                  {| type := "image"; text := [] |};
                  {| type := "text"; text := lit "web for rocq" |} ] |};
    {| role := "assistant"; message_content := Text (lit "ok") |} ].

End WebTools.

(** ** Reading a request body (server.js: readBody) *)

Module Body.
Local Open Scope string_scope.
Local Open Scope list_scope.

(** [50 * 1024 * 1024] *)
Definition MAX_BODY_SIZE : N := 50 * 1024 * 1024.

(** A chunk of the request: its bytes. *)
Definition chunk := list N.

(** What the request emits. *)
Inductive event :=
| data (c : chunk)
| end_
| error_ (message : string).

(** How the promise of readBody is settled. *)
Inductive settlement :=
| Resolved (body : jsstring)
| RejectedTooLarge (message type : string) (status : N)   (* InvalidRequestError *)
| RejectedWith (message : string).                        (* the request's error *)

Record reader := {
  body_data : jsstring;              (* [data] *)
  size : N;
  destroyed : bool;                  (* [req.destroy()] was called *)
  promise : option settlement
}.

(** [resolve] and [reject] settle a promise once. *)
Definition settle (p : option settlement) (s : settlement) : option settlement :=
  match p with
  | Some _ => p
  | None => Some s
  end.

Section Read.

(** The text of a chunk, as [data += chunk] appends it. *)
Variable toString : chunk -> jsstring.

Definition on_data (c : chunk) (r : reader) : reader :=
  let size' := (size r + N.of_nat (length c))%N in
  if (MAX_BODY_SIZE <? size')%N then
    {| body_data := body_data r; size := size'; destroyed := true;
       promise :=
         settle (promise r)
                (RejectedTooLarge
                   "Request body too large (max 52428800 bytes)"
                   "invalid_request_error" 413) |}
  else
    {| body_data := body_data r ++ toString c; size := size';
       destroyed := destroyed r; promise := promise r |}.

Definition on_end (r : reader) : reader :=
  {| body_data := body_data r; size := size r; destroyed := destroyed r;
     promise := settle (promise r) (Resolved (body_data r)) |}.

Definition on_error (message : string) (r : reader) : reader :=
  {| body_data := body_data r; size := size r; destroyed := destroyed r;
     promise := settle (promise r) (RejectedWith message) |}.

Definition handle (r : reader) (e : event) : reader :=
  match e with
  | data c => on_data c r
  | end_ => on_end r
  | error_ message => on_error message r
  end.

(** [let data = ''; let size = 0;] *)
Definition start : reader :=
  {| body_data := []; size := 0; destroyed := false; promise := None |}.

Definition readBody (events : list event) : reader :=
  fold_left handle events start.

Definition text_of (chunks : list chunk) : jsstring :=
  concat (map toString chunks).

End Read.

Definition bytes (chunks : list chunk) : N :=
  fold_right (fun c n => (N.of_nat (length c) + n)%N) 0%N chunks.

End Body.

(** ** Conversion of messages to the OpenAI format
       (transformers/messages.js) *)

Module Messages.
Import Router(value, VUndefined, VNull, VBool, VNum, VStr, VArr, VObj, get,
              is_str).
Local Open Scope string_scope.
Local Open Scope list_scope.

(** [block.source]; an absent field and an empty string behave alike
    in the tests made here, both are the empty string. *)
Record source := {
  source_type : string;
  media_type : string;
  data : string;
  url : string
}.

(** A content block; of each kind of block the fields that the
    conversion reads.  [content] is the content of a tool_result. *)
Record block := {
  type : string;
  text : string;
  block_source : option source;
  id : string;
  name : string;
  input : value;
  tool_use_id : string;
  content : value
}.

Inductive message_content :=
| CString (s : string)
| CArray (blocks : list block)
| COther.                            (* neither a string nor an array *)

Record message := { role : string; message_content_of : message_content }.

(** A part of an OpenAI content array. *)
Inductive part :=
| TextPart (text : string)
| ImageUrl (url : string)
| VideoUrl (url : string)
| AsIs (b : block).                  (* image_url and video_url blocks *)

Inductive openai_content :=
| Str (s : string)
| Parts (parts : list part).

Inductive openai_message :=
| Plain (role : string) (content : openai_content)
| Tool (tool_call_id : string) (content : string)
| AssistantCalls (content : option string)
                 (tool_calls : list Executor.tool_call).

(** [`data:${mediaType};base64,${data}`] *)
Definition data_url (mediaType data : string) : string :=
  "data:" ++ mediaType ++ ";base64," ++ data.

Definition transformImageBlock (b : block) : result part :=
  match block_source b with
  | None => Throw (OtherError "Image block missing source property")
  | Some src =>
      let sourceType := source_type src in
      if String.eqb sourceType "base64" then
        let mediaType := Router.or_str (media_type src) "image/png" in
        match data src with
        | EmptyString => Throw (OtherError "Base64 image missing data property")
        | d => Ok (ImageUrl (data_url mediaType d))
        end
      else if String.eqb sourceType "url" then
        match url src with
        | EmptyString => Throw (OtherError "URL image missing url property")
        | u => Ok (ImageUrl u)
        end
      else Throw (OtherError ("Unknown image source type: " ++ sourceType))
  end.

Definition transformVideoBlock (b : block) : result part :=
  match block_source b with
  | None => Throw (OtherError "Video block missing source property")
  | Some src =>
      let sourceType := source_type src in
      if String.eqb sourceType "base64" then
        let mediaType := Router.or_str (media_type src) "video/mp4" in
        match data src with
        | EmptyString => Throw (OtherError "Base64 video missing data property")
        | d => Ok (VideoUrl (data_url mediaType d))
        end
      else if String.eqb sourceType "url" then
        match url src with
        | EmptyString => Throw (OtherError "URL video missing url property")
        | u => Ok (VideoUrl u)
        end
      else Throw (OtherError ("Unknown video source type: " ++ sourceType))
  end.

(** One turn of the loop of convertContentToOpenAI on [parts] and
    [hasMedia]; a block that cannot be transformed is skipped. *)
Definition convert_block (acc : list part * bool) (b : block)
  : list part * bool :=
  let '(parts, hasMedia) := acc in
  if String.eqb (type b) "text" then (parts ++ [TextPart (text b)], hasMedia)
  else if String.eqb (type b) "image" then
    match transformImageBlock b with
    | Ok imageBlock => (parts ++ [imageBlock], true)
    | Throw _ => (parts, hasMedia)
    end
  else if String.eqb (type b) "image_url" then (parts ++ [AsIs b], true)
  else if String.eqb (type b) "video" then
    match transformVideoBlock b with
    | Ok videoBlock => (parts ++ [videoBlock], true)
    | Throw _ => (parts, hasMedia)
    end
  else if String.eqb (type b) "video_url" then (parts ++ [AsIs b], true)
  else (parts, hasMedia).

Definition convertContentToOpenAI (c : message_content) : openai_content :=
  match c with
  | CString s => Str s
  | COther => Str ""
  | CArray blocks =>
      let '(parts, hasMedia) := fold_left convert_block blocks ([], false) in
      match parts with
      | [TextPart t] => if negb hasMedia then Str t else Parts parts
      | [] => Str ""
      | _ => Parts parts
      end
  end.

(** [parts.join(sep)] *)
Fixpoint join (sep : string) (parts : list string) : string :=
  match parts with
  | [] => ""
  | [p] => p
  | p :: rest => p ++ sep ++ join sep rest
  end.

Definition nl : string := String (Ascii.ascii_of_nat 10) EmptyString.

Section Convert.

Variable JSON_stringify : value -> string.

(** [String(v)] for a value that is neither a string, [null] nor
    [undefined]. *)
Variable String_ : value -> string.

(** The text of an element under [join]. *)
Definition joined (v : value) : string :=
  match v with
  | VUndefined | VNull => ""
  | VStr s => s
  | _ => String_ v
  end.

Fixpoint format_items (items : list value) : result (list string) :=
  match items with
  | [] => Ok []
  | item :: rest =>
      t <- get item "type" ;;
      first <- (if is_str t "text"
                then (x <- get item "text" ;; Ok (joined x))
                else Ok (JSON_stringify item)) ;;
      others <- format_items rest ;;
      Ok (first :: others)
  end.

Definition formatToolResultContent (content : value) : result string :=
  match content with
  | VStr s => Ok s
  | VArr items =>
      texts <- format_items items ;;
      Ok (join nl texts)
  | VObj _ => Ok (JSON_stringify content)
  | _ => if Validate.falsy content then Ok "" else Ok (String_ content)
  end.

Fixpoint tool_messages (toolResults : list block)
  : result (list openai_message) :=
  match toolResults with
  | [] => Ok []
  | r :: rest =>
      c <- formatToolResultContent (content r) ;;
      others <- tool_messages rest ;;
      Ok (Tool (tool_use_id r) c :: others)
  end.

Definition is_type (t : string) (b : block) : bool := String.eqb (type b) t.

Definition tool_call_of (b : block) : Executor.tool_call :=
  {| Executor.id := id b;
     Executor.fname := name b;
     Executor.arguments :=
       JSON_stringify (if Validate.falsy (input b) then VObj [] else input b) |}.

(** The messages a message becomes: several for tool results. *)
Definition convertMessageToOpenAI (m : message)
  : result (list openai_message) :=
  let standard :=
    Ok [Plain (role m) (convertContentToOpenAI (message_content_of m))] in
  match message_content_of m with
  | CArray blocks =>
      if String.eqb (role m) "user" then
        let toolResults := filter (is_type "tool_result") blocks in
        let otherContent :=
          filter (fun b => negb (is_type "tool_result" b)) blocks in
        match toolResults with
        | [] => standard
        | _ =>
            messages <- tool_messages toolResults ;;
            match otherContent with
            | [] => Ok messages
            | _ =>
                Ok (messages
                      ++ [Plain "user"
                                (convertContentToOpenAI (CArray otherContent))])
            end
        end
      else if String.eqb (role m) "assistant" then
        let toolUses := filter (is_type "tool_use") blocks in
        let textContent := filter (is_type "text") blocks in
        match toolUses with
        | [] => standard
        | _ =>
            Ok [AssistantCalls
                  match textContent with
                  | [] => None
                  | _ => Some (join nl (map text textContent))
                  end
                  (map tool_call_of toolUses)]
        end
      else standard
  | _ => standard
  end.

(** The loop of transformRequest over the messages. *)
Fixpoint convertMessages (messages : list message)
  : result (list openai_message) :=
  match messages with
  | [] => Ok []
  | msg :: rest =>
      converted <- convertMessageToOpenAI msg ;;
      others <- convertMessages rest ;;
      Ok (converted ++ others)
  end.

End Convert.

(** What a conversation says about tools: a call proposed by the
    assistant, or the answer to a call given in a user turn. *)
Inductive tool_event :=
| Called (id name : string)
| Answered (id : string).

Definition events_in (m : message) : list tool_event :=
  match message_content_of m with
  | CArray blocks =>
      if String.eqb (role m) "user" then
        map (fun b => Answered (tool_use_id b))
            (filter (fun b => String.eqb (type b) "tool_result") blocks)
      else if String.eqb (role m) "assistant" then
        map (fun b => Called (id b) (name b))
            (filter (fun b => String.eqb (type b) "tool_use") blocks)
      else []
  | _ => []
  end.

Definition events_out (m : openai_message) : list tool_event :=
  match m with
  | Plain _ _ => []
  | Tool i _ => [Answered i]
  | AssistantCalls _ calls =>
      map (fun tc => Called (Executor.id tc) (Executor.fname tc)) calls
  end.

(** A tool result whose content is an array holding [null] or
    [undefined]: its blocks cannot be read. *)
Definition unreadable (b : block) : bool :=
  match content b with
  | VArr items =>
      existsb (fun v => match v with
                        | VUndefined | VNull => true
                        | _ => false
                        end) items
  | _ => false
  end.

Definition has_unreadable_result (m : message) : bool :=
  match message_content_of m with
  | CArray blocks =>
      String.eqb (role m) "user"
      && existsb (fun b => String.eqb (type b) "tool_result" && unreadable b)
                 blocks
  | _ => false
  end.

End Messages.

(** * Proofs *)

(** ** Reasoning tag splitter *)

Section SplitterProofs.
Import Splitter SplitterSpec.

Lemma startsWith_app_iff (s pat : jsstring) :
  startsWith s pat = true <-> exists r, s = pat ++ r.
Proof.
  revert s; induction pat as [|p pat IH]; intros s; simpl.
  - split; [intros _; now exists s | reflexivity].
  - destruct s as [|c s]; simpl.
    + split; [discriminate | intros [r Hr]; discriminate].
    + rewrite andb_true_iff, N.eqb_eq, IH. split.
      * intros [-> [r ->]]. now exists r.
      * intros [r Hr]. injection Hr as -> ->. split; eauto.
Qed.

Lemma startsWith_shorter (a rest pat : jsstring) :
  length pat <= length a ->
  startsWith (a ++ rest) pat = true -> startsWith a pat = true.
Proof.
  revert a; induction pat as [|p pat IH]; intros a Hlen; simpl; auto.
  destruct a as [|c a]; simpl in *; [lia|].
  rewrite !andb_true_iff. intros [? ?]; split; auto. apply IH; auto; lia.
Qed.

Lemma startsWith_split (a s pat : jsstring) :
  length a <= length pat ->
  startsWith (a ++ s) pat = true ->
  startsWith s (skipn (length a) pat) = true /\ a = firstn (length a) pat.
Proof.
  revert pat; induction a as [|c a IH]; intros pat Hlen H; simpl in *.
  - auto.
  - destruct pat as [|p pat]; simpl in *; [lia|].
    apply andb_true_iff in H as [Hc H]. apply N.eqb_eq in Hc; subst.
    destruct (IH pat) as [H1 H2]; auto; [lia|]. split; auto. now f_equal.
Qed.

Lemma startsWith_length (s pat : jsstring) :
  startsWith s pat = true -> length pat <= length s.
Proof.
  intros H. apply startsWith_app_iff in H as [r ->]. rewrite length_app. lia.
Qed.

Lemma jsstring_eqb_eq (a b : jsstring) : jsstring_eqb a b = true <-> a = b.
Proof.
  revert b; induction a as [|x a IH]; intros [|y b]; simpl;
    try (split; [discriminate|discriminate]); try tauto.
  rewrite andb_true_iff, N.eqb_eq, IH. split.
  - intros [-> ->]; reflexivity.
  - intros H; injection H; auto.
Qed.

(** indexOf *)
Lemma indexOf_Some (s pat : jsstring) (i : nat) :
  indexOf s pat = Some i ->
  startsWith (skipn i s) pat = true /\
  forall j, j < i -> startsWith (skipn j s) pat = false.
Proof.
  revert i; induction s as [|c s IH]; intros i; simpl.
  - destruct (startsWith [] pat) eqn:E; [|discriminate].
    intros [= <-]. split; auto. intros; lia.
  - destruct (startsWith (c :: s) pat) eqn:E.
    + intros [= <-]. split; auto. intros; lia.
    + destruct (indexOf s pat) as [k|] eqn:Ek; simpl; [|discriminate].
      intros [= <-]. destruct (IH k eq_refl) as [H1 H2]. split; auto.
      intros [|j] Hj; simpl; auto. apply H2; lia.
Qed.

Lemma indexOf_None (s pat : jsstring) :
  indexOf s pat = None -> forall j, startsWith (skipn j s) pat = false.
Proof.
  induction s as [|c s IH]; simpl.
  - destruct (startsWith [] pat) eqn:E; [discriminate|].
    intros _ j. now rewrite skipn_nil.
  - destruct (startsWith (c :: s) pat) eqn:E; [discriminate|].
    destruct (indexOf s pat) eqn:Ek; simpl; [discriminate|].
    intros _ [|j]; simpl; auto.
Qed.

(** scan *)
Lemma tag_of_length_pos (m : bool) : 0 < length (tag_of m).
Proof. destruct m; simpl; lia. Qed.

Lemma scan_skip (m : bool) (n : nat) (s : jsstring) :
  scan m n s = scan m 0 (skipn n s).
Proof.
  revert n; induction s as [|c s IH]; intros [|n]; simpl; auto.
Qed.

Lemma scan_tag (m : bool) (s : jsstring) :
  startsWith s (tag_of m) = true ->
  scan m 0 s = scan (negb m) 0 (skipn (length (tag_of m)) s).
Proof.
  intros H. pose proof (tag_of_length_pos m) as Hp.
  destruct s as [|c s].
  - apply startsWith_length in H. simpl in H. lia.
  - simpl scan. rewrite H. rewrite scan_skip.
    destruct (length (tag_of m)) as [|k]; [lia|]. simpl. now rewrite Nat.sub_0_r.
Qed.

Lemma scan_keep (m : bool) (x y : jsstring) :
  (forall j, j < length x -> startsWith (skipn j (x ++ y)) (tag_of m) = false) ->
  scan m 0 (x ++ y) = map (pair (kind_of m)) x ++ scan m 0 y.
Proof.
  induction x as [|c x IH]; intros H; simpl; auto.
  pose proof (H 0 ltac:(simpl; lia)) as H0. simpl in H0. rewrite H0.
  f_equal. apply IH. intros j Hj. apply (H (S j)). simpl; lia.
Qed.

Lemma units_app (a b : list segment) : units (a ++ b) = units a ++ units b.
Proof. unfold units. apply flat_map_app. Qed.

Lemma units_push (out : list segment) (k : segtype) (c : jsstring) :
  units (push out k c) = units out ++ map (pair k) c.
Proof. unfold push. rewrite units_app. simpl. now rewrite app_nil_r. Qed.

Lemma units_push_if (out : list segment) (k : segtype) (c : jsstring) :
  units (push_if out k c) = units out ++ map (pair k) c.
Proof.
  unfold push_if. destruct c; simpl.
  - now rewrite app_nil_r.
  - apply units_push.
Qed.

Lemma substring_0 (s : jsstring) (n : nat) : substring s 0 n = firstn n s.
Proof. unfold substring. simpl. now rewrite Nat.sub_0_r. Qed.

(** findPartialTag returns the longest suffix of [text], of length at most
    [length tag - 1], that is a prefix of [tag]. *)
Lemma findPartialTag_from_spec (n : nat) (text tag : jsstring) :
  findPartialTag_from n text tag <= n /\
  forall len, findPartialTag_from n text tag < len <= n ->
              skipn (length text - len) text <> firstn len tag.
Proof.
  induction n as [|n [IH1 IH2]]; simpl.
  - split; [lia|]. intros; lia.
  - destruct (jsstring_eqb _ _) eqn:E.
    + split; [lia|]. intros; lia.
    + split; [lia|]. intros len Hlen.
      destruct (Nat.eq_dec len (S n)) as [->|Hne].
      * intros Heq. unfold substringFrom in E. rewrite substring_0 in E.
        apply jsstring_eqb_eq in Heq. congruence.
      * apply IH2. lia.
Qed.

Lemma findPartialTag_bound (text tag : jsstring) :
  0 < length tag ->
  findPartialTag text tag <= length text /\
  findPartialTag text tag < length tag.
Proof.
  intros Hp. unfold findPartialTag.
  destruct (findPartialTag_from_spec
              (Nat.min (length text) (length tag - 1)) text tag) as [H _].
  lia.
Qed.

(** When the tag does not occur in [buf], no occurrence in [buf ++ rest]
    starts before the retained partial tag. *)
Lemma no_early_occurrence (buf rest tag : jsstring) :
  0 < length tag ->
  indexOf buf tag = None ->
  forall j, j < length buf - findPartialTag buf tag ->
            startsWith (skipn j (buf ++ rest)) tag = false.
Proof.
  intros Hp Hnone j Hj.
  destruct (startsWith (skipn j (buf ++ rest)) tag) eqn:E; auto. exfalso.
  rewrite skipn_app in E.
  replace (j - length buf) with 0 in E by lia. simpl in E.
  pose proof (indexOf_None _ _ Hnone j) as Hn.
  destruct (le_lt_dec (length tag) (length (skipn j buf))) as [Hle|Hlt].
  - apply startsWith_shorter in E; auto. congruence.
  - apply startsWith_split in E as [_ E]; [|lia].
    rewrite length_skipn in E, Hlt.
    unfold findPartialTag in Hj.
    destruct (findPartialTag_from_spec
                (Nat.min (length buf) (length tag - 1)) buf tag) as [_ H].
    apply (H (length buf - j)); [lia|].
    replace (length buf - (length buf - j)) with j by lia. exact E.
Qed.

Lemma occurrence_in_prefix (buf rest tag : jsstring) (i : nat) :
  0 < length tag ->
  indexOf buf tag = Some i ->
  startsWith (skipn i (buf ++ rest)) tag = true /\
  (forall j, j < i -> startsWith (skipn j (buf ++ rest)) tag = false) /\
  i + length tag <= length buf.
Proof.
  intros Hp H. apply indexOf_Some in H as [H1 H2].
  pose proof (startsWith_length _ _ H1) as Hl. rewrite length_skipn in Hl.
  assert (Hi : i <= length buf).
  { destruct (le_lt_dec i (length buf)); auto.
    rewrite skipn_all2 in H1 by lia.
    destruct tag; simpl in *; [lia|discriminate]. }
  split; [|split].
  - rewrite skipn_app. replace (i - length buf) with 0 by lia. simpl.
    apply startsWith_app_iff in H1 as [r ->]. rewrite <- app_assoc.
    apply startsWith_app_iff. eauto.
  - intros j Hj.
    destruct (startsWith (skipn j (buf ++ rest)) tag) eqn:E; auto.
    rewrite skipn_app in E. replace (j - length buf) with 0 in E by lia.
    simpl in E. apply startsWith_shorter in E.
    + rewrite H2 in E; auto.
    + rewrite length_skipn. lia.
  - lia.
Qed.

Lemma scan_split_at (m : bool) (buf rest : jsstring) (n : nat) :
  n <= length buf ->
  (forall j, j < n -> startsWith (skipn j (buf ++ rest)) (tag_of m) = false) ->
  scan m 0 (buf ++ rest)
  = map (pair (kind_of m)) (firstn n buf) ++ scan m 0 (skipn n buf ++ rest).
Proof.
  intros Hn H.
  replace (buf ++ rest) with (firstn n buf ++ (skipn n buf ++ rest)) at 1
    by now rewrite app_assoc, firstn_skipn.
  apply scan_keep. intros j Hj. rewrite app_assoc, firstn_skipn.
  apply H. rewrite length_firstn in Hj. lia.
Qed.

Lemma scan_switch_at (m : bool) (buf rest : jsstring) (i : nat) :
  i + length (tag_of m) <= length buf ->
  startsWith (skipn i (buf ++ rest)) (tag_of m) = true ->
  scan m 0 (skipn i buf ++ rest)
  = scan (negb m) 0 (skipn (i + length (tag_of m)) buf ++ rest).
Proof.
  intros Hi H. rewrite skipn_app in H.
  replace (i - length buf) with 0 in H by lia. simpl in H.
  rewrite scan_tag by exact H.
  rewrite skipn_app, skipn_skipn, length_skipn.
  replace (length (tag_of m) - (length buf - i)) with 0 by lia.
  now rewrite Nat.add_comm.
Qed.

(** One pass of the loop, uniformly in the mode. *)
Lemma processLoop_eq (fuel : nat) (c : code_unit) (b : jsstring) (m : bool)
      (out : list segment) :
  processLoop (S fuel) (c :: b) m out =
  match indexOf (c :: b) (tag_of m) with
  | Some i =>
      processLoop fuel (skipn (i + length (tag_of m)) (c :: b)) (negb m)
                  (push_if out (kind_of m) (firstn i (c :: b)))
  | None =>
      let p := findPartialTag (c :: b) (tag_of m) in
      if 0 <? p then
        ({| buffer := skipn (length (c :: b) - p) (c :: b); inReasoning := m |},
         push_if out (kind_of m) (firstn (length (c :: b) - p) (c :: b)))
      else ({| buffer := []; inReasoning := m |}, push out (kind_of m) (c :: b))
  end.
Proof.
  destruct m; cbn [processLoop tag_of kind_of negb];
    unfold substringFrom;
    match goal with |- context [indexOf ?s ?t] => destruct (indexOf s t) end;
    rewrite ?substring_0; reflexivity.
Qed.


Lemma nonempty_push (out : list segment) (k : segtype) (c : jsstring) :
  c <> [] -> Forall nonempty out -> Forall nonempty (push out k c).
Proof.
  intros Hc Ho. unfold push. apply Forall_app. split; auto.
Qed.

Lemma nonempty_push_if (out : list segment) (k : segtype) (c : jsstring) :
  Forall nonempty out -> Forall nonempty (push_if out k c).
Proof.
  intros Ho. unfold push_if. destruct c; simpl; auto.
  apply nonempty_push; auto. discriminate.
Qed.

Lemma processLoop_sound (fuel : nat) :
  forall (buf : jsstring) (m : bool) (out : list segment) (rest : jsstring),
    length buf < fuel ->
    let r := processLoop fuel buf m out in
    units (snd r) ++ scan (inReasoning (fst r)) 0 (buffer (fst r) ++ rest)
    = units out ++ scan m 0 (buf ++ rest)
    /\ length (buffer (fst r)) < length (tag_of (inReasoning (fst r)))
    /\ (Forall nonempty out -> Forall nonempty (snd r)).
Proof.
  induction fuel as [|fuel IH]; intros buf m out rest Hlen; [lia|].
  destruct buf as [|c b].
  - simpl. split; [reflexivity|]. split; [apply tag_of_length_pos|auto].
  - rewrite processLoop_eq. set (buf := c :: b) in *.
    pose proof (tag_of_length_pos m) as Hp.
    destruct (indexOf buf (tag_of m)) as [i|] eqn:Ei.
    + destruct (occurrence_in_prefix buf rest _ _ Hp Ei) as (H1 & H2 & H3).
      specialize (IH (skipn (i + length (tag_of m)) buf) (negb m)
                     (push_if out (kind_of m) (firstn i buf)) rest).
      destruct IH as (IH1 & IH2 & IH3).
      { rewrite length_skipn. lia. }
      split; [|split]; auto.
      * rewrite IH1, units_push_if, <- app_assoc. f_equal.
        rewrite (scan_split_at m buf rest i) by (auto; lia).
        f_equal. symmetry. now apply scan_switch_at.
      * intros Ho. apply IH3. now apply nonempty_push_if.
    + pose proof (findPartialTag_bound buf _ Hp) as [Hb1 Hb2].
      pose proof (no_early_occurrence buf rest _ Hp Ei) as Hno.
      cbv zeta. destruct (0 <? findPartialTag buf (tag_of m)) eqn:E0.
      * cbn [fst snd buffer inReasoning]. split; [|split].
        -- rewrite units_push_if, <- app_assoc. f_equal.
           symmetry. apply scan_split_at; auto. lia.
        -- rewrite length_skipn. lia.
        -- intros Ho. now apply nonempty_push_if.
      * cbn [fst snd buffer inReasoning]. apply Nat.ltb_ge in E0.
        split; [|split].
        -- rewrite units_push, <- app_assoc. f_equal.
           change (@nil code_unit ++ rest) with rest.
           symmetry. apply scan_keep. intros j Hj. apply Hno. lia.
        -- simpl. lia.
        -- intros Ho. apply nonempty_push; auto. subst buf; discriminate.
Qed.

(** The bound [length buffer + 1] on the passes is enough: more fuel
    changes nothing. *)
Lemma processLoop_fuel (fuel1 : nat) :
  forall (fuel2 : nat) (buf : jsstring) (m : bool) (out : list segment),
    length buf < fuel1 -> length buf < fuel2 ->
    processLoop fuel1 buf m out = processLoop fuel2 buf m out.
Proof.
  induction fuel1 as [|fuel1 IH]; intros fuel2 buf m out H1 H2; [lia|].
  destruct fuel2 as [|fuel2]; [lia|].
  destruct buf as [|c b]; [reflexivity|].
  rewrite !processLoop_eq.
  destruct (indexOf (c :: b) (tag_of m)) as [i|] eqn:Ei; [|reflexivity].
  pose proof (tag_of_length_pos m) as Hp.
  destruct (occurrence_in_prefix (c :: b) [] _ _ Hp Ei) as (_ & _ & H3).
  apply IH; rewrite length_skipn; lia.
Qed.

Lemma short_no_occurrence (a tag : jsstring) :
  length a < length tag -> forall j, startsWith (skipn j a) tag = false.
Proof.
  intros Hl j. destruct (startsWith (skipn j a) tag) eqn:E; auto.
  apply startsWith_length in E. rewrite length_skipn in E. lia.
Qed.

Lemma flush_sound (p : parser) :
  length (buffer p) < length (tag_of (inReasoning p)) ->
  units (snd (flush p)) = scan (inReasoning p) 0 (buffer p)
  /\ Forall nonempty (snd (flush p)).
Proof.
  intros Hl. unfold flush. destruct (buffer p) as [|c b] eqn:Eb.
  - simpl. auto.
  - cbn [truthy snd units flat_map type content]. rewrite app_nil_r. split.
    + rewrite <- (app_nil_r (c :: b)) at 2.
      rewrite scan_keep; [now rewrite app_nil_r; destruct (inReasoning p)|].
      intros j _. rewrite app_nil_r. now apply short_no_occurrence.
    + repeat constructor. unfold nonempty; simpl. discriminate.
Qed.

Lemma feed_sound (chunks : list jsstring) :
  forall p : parser,
    length (buffer p) < length (tag_of (inReasoning p)) ->
    units (feed p chunks) = scan (inReasoning p) 0 (buffer p ++ concat chunks)
    /\ Forall nonempty (feed p chunks).
Proof.
  induction chunks as [|c rest IH]; intros p Hp.
  - cbn [feed concat]. rewrite app_nil_r. now apply flush_sound.
  - cbn [feed concat]. unfold processChunk.
    pose proof (processLoop_sound (S (length (buffer p ++ c))) (buffer p ++ c)
                  (inReasoning p) [] (concat rest) (Nat.lt_succ_diag_r _)) as H.
    cbv zeta in H.
    destruct (processLoop _ _ _ _) as [p' out]. cbn [fst snd] in H.
    destruct H as (H1 & H2 & H3). destruct (IH p' H2) as [IH1 IH2].
    split.
    + rewrite units_app, IH1, H1. simpl. now rewrite <- app_assoc.
    + apply Forall_app. split; auto.
Qed.

(** The splitter agrees with the one-pass reference, whatever the chunking. *)
Lemma run_sound (chunks : list jsstring) :
  units (run chunks) = scan false 0 (concat chunks)
  /\ Forall nonempty (run chunks).
Proof.
  unfold run. destruct (feed_sound chunks new_parser) as [H1 H2].
  - simpl. lia.
  - split; auto.
Qed.

Lemma units_contents (out : list segment) :
  map snd (units out) = concat (map content out).
Proof.
  induction out as [|sg out IH]; simpl; auto.
  rewrite map_app, IH, map_map. simpl. now rewrite map_id.
Qed.

(** Reference scan of a well-formed document *)
Lemma border_free_spec (t : jsstring) (k : nat) :
  border_free t = true -> 0 < k < length t ->
  startsWith t (skipn k t) = false.
Proof.
  unfold border_free. rewrite forallb_forall. intros H Hk.
  apply negb_true_iff. apply H. apply in_seq. lia.
Qed.

Lemma no_occurrence_before_tag (x rest tag : jsstring) :
  border_free tag = true ->
  indexOf x tag = None ->
  forall j, j < length x ->
            startsWith (skipn j (x ++ tag ++ rest)) tag = false.
Proof.
  intros Hbf Hx j Hj.
  destruct (startsWith (skipn j (x ++ tag ++ rest)) tag) eqn:E; auto. exfalso.
  rewrite skipn_app in E. replace (j - length x) with 0 in E by lia.
  simpl in E. pose proof (indexOf_None _ _ Hx j) as Hn.
  destruct (le_lt_dec (length tag) (length (skipn j x))) as [Hle|Hlt].
  - apply startsWith_shorter in E; auto. congruence.
  - apply startsWith_split in E as [E _]; [|lia].
    apply startsWith_shorter in E; [|rewrite length_skipn; lia].
    rewrite border_free_spec in E; auto; [discriminate|].
    rewrite length_skipn in *. lia.
Qed.

Lemma open_border_free : border_free REASONING_OPEN_TAG = true.
Proof. vm_compute. reflexivity. Qed.

Lemma close_border_free : border_free REASONING_CLOSE_TAG = true.
Proof. vm_compute. reflexivity. Qed.

Lemma tag_of_border_free (m : bool) : border_free (tag_of m) = true.
Proof. destruct m; [apply close_border_free | apply open_border_free]. Qed.

Lemma scan_part (m : bool) (x rest : jsstring) :
  indexOf x (tag_of m) = None ->
  scan m 0 (x ++ tag_of m ++ rest)
  = map (pair (kind_of m)) x ++ scan (negb m) 0 rest.
Proof.
  intros Hx. rewrite scan_keep.
  - f_equal. rewrite scan_tag.
    + now rewrite skipn_app, skipn_all, Nat.sub_diag.
    + apply startsWith_app_iff. eauto.
  - apply no_occurrence_before_tag; auto. apply tag_of_border_free.
Qed.

Lemma scan_last_part (m : bool) (x : jsstring) :
  indexOf x (tag_of m) = None -> scan m 0 x = map (pair (kind_of m)) x.
Proof.
  intros Hx. rewrite <- (app_nil_r x) at 1. rewrite scan_keep.
  - now rewrite app_nil_r.
  - intros j _. rewrite app_nil_r. now apply indexOf_None.
Qed.

Lemma scan_text_then_pairs (t : jsstring) (ps : list (jsstring * jsstring)) :
  indexOf t REASONING_OPEN_TAG = None ->
  scan false 0 (t ++ render_pairs ps)
  = map (pair text) t ++ scan false 0 (render_pairs ps).
Proof.
  intros Ht. destruct ps as [|[r t'] ps].
  - simpl render_pairs. rewrite app_nil_r.
    rewrite (scan_last_part false t Ht). simpl. now rewrite app_nil_r.
  - cbn [render_pairs]. apply scan_keep.
    apply (no_occurrence_before_tag t _ REASONING_OPEN_TAG open_border_free Ht).
Qed.

Lemma scan_render_pairs (ps : list (jsstring * jsstring)) :
  Forall (fun rt => tag_free (fst rt) /\ tag_free (snd rt)) ps ->
  scan false 0 (render_pairs ps) = expected_pairs ps.
Proof.
  induction 1 as [|[r t] ps [[_ Hr] [Ht _]] _ IH]; auto.
  cbn [render_pairs expected_pairs fst snd] in *.
  rewrite (scan_tag false) by (apply startsWith_app_iff; eauto).
  cbn [tag_of negb]. rewrite skipn_app, skipn_all, Nat.sub_diag.
  cbn [skipn app].
  rewrite (scan_part true r _ Hr). cbn [kind_of negb]. f_equal.
  rewrite scan_text_then_pairs by exact Ht. now rewrite IH.
Qed.

Lemma scan_render (d : doc) :
  well_formed d -> scan false 0 (render d) = expected d.
Proof.
  destruct d as [t0 ps]. intros [[Ht _] Hps]. unfold render, expected.
  cbn [fst snd] in *. rewrite scan_text_then_pairs by exact Ht.
  now rewrite scan_render_pairs.
Qed.

Lemma expected_contents (d : doc) : map snd (expected d) = stripped d.
Proof.
  destruct d as [t0 ps]. unfold expected, stripped. cbn [fst snd].
  rewrite map_app, map_map. cbn [snd]. rewrite map_id. f_equal.
  induction ps as [|[r t] ps IH]; auto. cbn [expected_pairs stripped_pairs].
  rewrite !map_app, !map_map, IH. cbn [snd]. now rewrite !map_id.
Qed.

(** C1. Splitter round-trip: for an input with zero or more well-formed
    tag pairs and for every partition of it into chunks fed in order to
    [processChunk] followed by one [flush], the contents of the emitted
    segments concatenate to the input with the tag markers removed, every
    emitted code unit carries the type [thinking] exactly when it lies
    between a matching open/close pair and [text] otherwise, and no
    emitted segment is empty. *)
Theorem splitter_round_trip (d : doc) (chunks : list jsstring) :
  well_formed d ->
  concat chunks = render d ->
  concat (map content (run chunks)) = stripped d
  /\ units (run chunks) = expected d
  /\ Forall (fun sg => content sg <> []) (run chunks).
Proof.
  intros Hwf Hc. destruct (run_sound chunks) as [H1 H2].
  rewrite Hc, (scan_render d Hwf) in H1. split; [|split]; auto.
  rewrite <- units_contents, H1. apply expected_contents.
Qed.


Lemma splitter_round_trip_witness :
  units (run [lit "Hi <reasoning_"; lit "content>plan</reasoning_content"; [];
              lit "> done<reasoning_content></reasoning_content>!"])
  = expected sample_doc.
Proof.
  apply (splitter_round_trip sample_doc).
  - vm_compute. repeat constructor.
  - vm_compute. reflexivity.
Defined.

(** C9. Splitter unterminated tag: for every chunking of
    "a<reasoning_content>b" followed by one [flush], the emitted segments
    concatenate to text "a" followed by thinking "b"; the marker is
    neither duplicated nor lost. *)
Theorem splitter_unterminated_tag (chunks : list jsstring) :
  concat chunks = lit "a<reasoning_content>b" ->
  units (run chunks) = [(text, 97%N); (thinking, 98%N)]
  /\ concat (map content (run chunks)) = lit "ab"
  /\ Forall (fun sg => content sg <> []) (run chunks).
Proof.
  intros Hc. destruct (run_sound chunks) as [H1 H2]. rewrite Hc in H1.
  assert (E : units (run chunks) = [(text, 97%N); (thinking, 98%N)])
    by (rewrite H1; vm_compute; reflexivity).
  split; [exact E|]. split; [|exact H2].
  rewrite <- units_contents, E. reflexivity.
Qed.

Lemma splitter_unterminated_tag_witness :
  units (run [lit "a<reasoning"; lit "_content"; lit ">b"])
  = [(text, 97%N); (thinking, 98%N)].
Proof.
  apply (splitter_unterminated_tag [lit "a<reasoning"; lit "_content"; lit ">b"]).
  vm_compute. reflexivity.
Defined.

End SplitterProofs.

(** ** Stop reasons and routing *)

Section StopReasonProofs.
Import StopReason.
Open Scope string_scope.

Lemma client_tool_present (names : list string) (n : string) :
  In n names -> isOurTool n = false ->
  (0 <? length (filter (fun n => negb (isOurTool n)) names))%nat = true.
Proof.
  intros Hin Hn. apply Nat.ltb_lt.
  assert (H : In n (filter (fun n => negb (isOurTool n)) names)).
  { apply filter_In. split; auto. now rewrite Hn. }
  destruct (filter _ names); [contradiction|simpl; lia].
Qed.

Lemma no_client_tool (names : list string) :
  forallb isOurTool names = true ->
  (0 <? length (filter (fun n => negb (isOurTool n)) names))%nat = false.
Proof.
  induction names as [|n names IH]; simpl; auto.
  rewrite andb_true_iff. intros [-> H]. simpl. auto.
Qed.

(** C5, as the code has it.  Stop-reason mapping: when a client tool
    call is present the stop reason is "tool_use" whatever the finish
    reason; otherwise "stop" gives "end_turn", "length" gives
    "max_tokens", "tool_calls" and "function_call" give "tool_use",
    "content_filter" gives "end_turn", and an absent finish reason or an
    unrecognized one that is not the name of a member of
    Object.prototype gives "end_turn". *)
Theorem stop_reason_mapping (f : finish_value) (names : list string) (s : string) :
  (forall n, In n names -> isOurTool n = false ->
     transformResponse_stop_reason f names = Str "tool_use")
  /\ (forallb isOurTool names = true ->
      (f = FStr "stop" -> transformResponse_stop_reason f names = Str "end_turn")
      /\ (f = FStr "length" -> transformResponse_stop_reason f names = Str "max_tokens")
      /\ (f = FStr "tool_calls" -> transformResponse_stop_reason f names = Str "tool_use")
      /\ (f = FStr "function_call" -> transformResponse_stop_reason f names = Str "tool_use")
      /\ (f = FStr "content_filter" -> transformResponse_stop_reason f names = Str "end_turn")
      /\ (f = FStr s -> recognized s = false ->
          includes object_prototype_members s = false ->
          transformResponse_stop_reason f names = Str "end_turn")
      /\ (f = FUndefined \/ f = FNull ->
          transformResponse_stop_reason f names = Str "end_turn")).
Proof.
  unfold transformResponse_stop_reason. split.
  - intros n Hin Hn. now rewrite (client_tool_present names n Hin Hn).
  - intros Hnone. rewrite (no_client_tool names Hnone).
    repeat split; try (intros ->; reflexivity).
    + intros -> Hr Hp. unfold mapStopReason, recognized in *. simpl property_key.
      destruct (assoc s mapping); [discriminate|]. now rewrite Hp.
    + intros [-> | ->]; reflexivity.
Qed.

Lemma stop_reason_mapping_witness :
  transformResponse_stop_reason (FStr "tool_calls") ["Read"; "web_search"] = Str "tool_use"
  /\ transformResponse_stop_reason (FStr "length") ["web_search"] = Str "max_tokens"
  /\ transformResponse_stop_reason (FStr "weird") [] = Str "end_turn".
Proof.
  split; [|split].
  - destruct (stop_reason_mapping (FStr "tool_calls") ["Read"; "web_search"] EmptyString)
      as [H _].
    apply (H "Read"); [simpl; auto | reflexivity].
  - destruct (stop_reason_mapping (FStr "length") ["web_search"] EmptyString) as [_ H].
    destruct (H eq_refl) as (_ & H2 & _). apply H2. reflexivity.
  - destruct (stop_reason_mapping (FStr "weird") [] "weird") as [_ H].
    destruct (H eq_refl) as (_ & _ & _ & _ & _ & H6 & _).
    apply H6; reflexivity.
Defined.

(** Finish reason "length" together with a client tool call: the stop
    reason is "tool_use", not "max_tokens". *)
Lemma stop_reason_length_with_client_tool :
  mapStopReason (FStr "length") true = Str "tool_use"
  /\ transformResponse_stop_reason (FStr "length") ["Read"] <> Str "max_tokens".
Proof. split; [reflexivity | discriminate]. Qed.

End StopReasonProofs.

Section RouterProofs.
Import Router RouterExample.
Open Scope string_scope.


Lemma get_readable (v : value) (k : string) :
  readable v -> exists w, get v k = Ok w.
Proof.
  intros [H1 H2]. destruct v; simpl; eauto; congruence.
Qed.

Lemma contentHasMedia_block_returns (b : value) :
  readable b -> exists r, contentHasMedia_block b = Ok r.
Proof.
  intros Hb. unfold contentHasMedia_block.
  destruct (isMediaBlock b); eauto.
  destruct (get_readable b "type" Hb) as [t ->]. simpl.
  destruct (is_str t "tool_result"); eauto.
  destruct (get_readable b "content" Hb) as [c ->]. simpl.
  destruct c; eauto.
Qed.

Lemma some_found (f : value -> result bool) (l : list value) (x : value) :
  (forall y, In y l -> exists r, f y = Ok r) ->
  In x l -> f x = Ok true -> some f l = Ok true.
Proof.
  induction l as [|y l IH]; intros Hall Hin Hx; [contradiction|].
  simpl. destruct (Hall y (or_introl eq_refl)) as [r Hr]. rewrite Hr. simpl.
  destruct r; auto. destruct Hin as [->|Hin]; [congruence|].
  apply IH; auto. intros z Hz. apply Hall. now right.
Qed.

Lemma some_none (f : value -> result bool) (l : list value) :
  (forall y, In y l -> f y = Ok false) -> some f l = Ok false.
Proof.
  induction l as [|y l IH]; intros Hall; auto.
  simpl. rewrite (Hall y (or_introl eq_refl)). simpl.
  apply IH. intros z Hz. apply Hall. now right.
Qed.

Lemma type_is_get (b : value) (s : string) :
  type_is b s = true -> exists t, get b "type" = Ok t /\ is_str t s = true.
Proof.
  unfold type_is. destruct (get b "type") as [t|]; [eauto|discriminate].
Qed.

Lemma type_is_readable (b : value) (s : string) :
  type_is b s = true -> readable b.
Proof.
  destruct b; simpl; try discriminate; intros _; split; discriminate.
Qed.

Lemma tool_result_not_media (b : value) :
  type_is b "tool_result" = true -> isMediaBlock b = false.
Proof.
  intros H. unfold isMediaBlock, isImageBlock, isVideoBlock.
  destruct (not_an_object b); auto.
  apply type_is_get in H as (t & Ht & Hs).
  unfold type_is. rewrite Ht.
  destruct t; simpl in *; try discriminate.
  apply String.eqb_eq in Hs. subst. reflexivity.
Qed.

Lemma detectMedia_single (msg : value) (blocks : list value) :
  get msg "content" = Ok (VArr blocks) ->
  detectMedia (VArr [msg]) = some contentHasMedia_block blocks.
Proof.
  intros H. simpl. unfold detectMedia_message. rewrite H. simpl.
  destruct (some contentHasMedia_block blocks) as [[|]|]; reflexivity.
Qed.

Lemma selectModel_of_detect (cfg : config) (messages : value) (b : bool) :
  detectMedia messages = Ok b ->
  selectModel cfg messages
  = Ok {| model := if b then vision_variant cfg else text_variant cfg;
          hasMedia := b; hasImages := b |}.
Proof.
  intros H. unfold selectModel. rewrite H. reflexivity.
Qed.




Lemma lastMessage_snoc (earlier : list value) (m : value) :
  lastMessage (earlier ++ [m]) = VArr [m].
Proof. unfold lastMessage. now rewrite rev_unit. Qed.

Lemma route_last (cfg : config) (earlier : list value) (m : value) (b : bool) :
  detectImages (VArr [m]) = Ok b ->
  route cfg (earlier ++ [m])
  = Ok (determineEndpoint cfg b,
        if b then vision_variant cfg else text_variant cfg).
Proof.
  intros H. unfold route. rewrite lastMessage_snoc, H.
  unfold detectImages in H. cbn [bind].
  now rewrite (selectModel_of_detect cfg _ b H).
Qed.

(** C8. Endpoint/model routing table: with media in the last message
    the OpenAI-style endpoint and the media-capable model are chosen
    whatever the mode; without, mode "anthropic" routes to the native
    endpoint, "openai" to the OpenAI-style one, "bigmodel" to the
    alternative provider, and any other mode to the endpoint given by
    the legacy [useAnthropic] flag; earlier messages never matter. *)
Theorem endpoint_model_routing (cfg : config) (earlier : list value) (m : value) :
  (detectImages (VArr [m]) = Ok true ->
     route cfg (earlier ++ [m]) = Ok ("openai", vision_variant cfg))
  /\ (detectImages (VArr [m]) = Ok false ->
      (endpoint_mode cfg = "anthropic" ->
         route cfg (earlier ++ [m]) = Ok ("anthropic", text_variant cfg))
      /\ (endpoint_mode cfg = "openai" ->
          route cfg (earlier ++ [m]) = Ok ("openai", text_variant cfg))
      /\ (endpoint_mode cfg = "bigmodel" ->
          route cfg (earlier ++ [m]) = Ok ("bigmodel", text_variant cfg))
      /\ (endpoint_mode cfg <> "anthropic" -> endpoint_mode cfg <> "openai" ->
          endpoint_mode cfg <> "bigmodel" ->
          route cfg (earlier ++ [m])
          = Ok (if endpoint_useAnthropic cfg then "anthropic" else "openai",
                text_variant cfg)))
  /\ (forall earlier' : list value,
        route cfg (earlier' ++ [m]) = route cfg (earlier ++ [m])).
Proof.
  split; [|split].
  - intros H. now rewrite (route_last cfg earlier m true H).
  - intros H. rewrite (route_last cfg earlier m false H).
    unfold determineEndpoint. repeat split.
    + intros ->. reflexivity.
    + intros ->. reflexivity.
    + intros ->. reflexivity.
    + intros H1 H2 H3.
      apply String.eqb_neq in H1, H2, H3. now rewrite H1, H2, H3.
  - intros earlier'. unfold route. now rewrite !lastMessage_snoc.
Qed.


Lemma endpoint_model_routing_witness :
  route default_config [text_message "hi"; image_message]
  = Ok ("openai", "glm-4.6v")
  /\ route default_config [image_message; text_message "hi"]
     = Ok ("anthropic", "glm-4.7").
Proof.
  split.
  - apply (proj1 (endpoint_model_routing default_config
                    [text_message "hi"] image_message)).
    reflexivity.
  - destruct (endpoint_model_routing default_config
                [image_message] (text_message "hi")) as (_ & H & _).
    destruct (H eq_refl) as (H1 & _). apply H1. reflexivity.
Defined.

End RouterProofs.

(** ** Tool execution loop *)

Section ExecutorProofs.
Import Executor.
Local Open Scope string_scope.
Local Open Scope list_scope.
Local Open Scope nat_scope.

Variable world : Type.
Variable callGlmFn : glm_request -> world -> result response * world.
Variable JSON_parse : string -> Router.value + string.
Variable callMcp : mcp_target -> Router.value -> world -> settled * world.
Variable reg : registry.
Variable cfg : config.

Local Abbreviation loop := (Executor.loop world callGlmFn JSON_parse callMcp reg cfg).
Local Abbreviation executeAll := (Executor.executeAll world JSON_parse callMcp reg).
Local Abbreviation executeTool := (Executor.executeTool world JSON_parse callMcp reg).
Local Abbreviation executeWithTools :=
  (Executor.executeWithTools world callGlmFn JSON_parse callMcp reg cfg).
Local Abbreviation is_ours := (Executor.is_ours reg cfg).
Local Abbreviation is_client := (Executor.is_client reg cfg).
Local Abbreviation max' := (maxConsecutiveInternal' cfg).
Local Abbreviation always_one_internal :=
  (Executor.always_one_internal world callGlmFn reg cfg).
Local Abbreviation backend_total := (Executor.backend_total world callGlmFn).
Local Abbreviation cap_error := (Executor.cap_error cfg).

Lemma is_client_not_ours (tc : tool_call) : is_client tc = negb (is_ours tc).
Proof.
  unfold Executor.is_client, Executor.is_ours.
  destruct (shouldHandleInternally reg cfg (fname tc)); simpl; auto.
  destruct (findMcpForTool reg (fname tc)); auto.
Qed.


(** One pass of the loop when the backend proposes internal calls only. *)
Lemma loop_internal_only
      (glmRequest : glm_request) (rem it c : nat) (msgs : list message)
      (log : list glm_request) (w w1 : world) (resp : response)
      (am : assistant_message) :
  callGlmFn (request_at glmRequest msgs) w = (Ok resp, w1) ->
  choice_message resp = Some am ->
  filter is_ours (am_tool_calls am) <> [] ->
  filter is_client (am_tool_calls am) = [] ->
  let ourCalls := filter is_ours (am_tool_calls am) in
  let results := fst (executeAll ourCalls w1) in
  let w2 := snd (executeAll ourCalls w1) in
  let msgs' := push_round msgs am ourCalls results in
  loop glmRequest (S rem) it c msgs log w =
  if max' <? S c then
    {| outcome := fst (callGlmFn (forced_final msgs') w2);
       calls := log ++ [request_at glmRequest msgs; forced_final msgs'];
       history := msgs';
       iterations := S it;
       final_world := snd (callGlmFn (forced_final msgs') w2) |}
  else loop glmRequest rem (S it) (S c) msgs' (log ++ [request_at glmRequest msgs]) w2.
Proof.
  intros Hcall Ham Hours Hclient. cbv zeta.
  cbn [Executor.loop]. fold (request_at glmRequest msgs). rewrite Hcall, Ham.
  destruct (am_tool_calls am) as [|tc0 tcs] eqn:Etc; [now simpl in Hours|].
  rewrite <- Etc in *. replace (length (am_tool_calls am) =? 0) with false
    by (rewrite Etc; reflexivity).
  destruct (filter is_ours (am_tool_calls am)) as [|o os] eqn:Eo;
    [congruence|].
  rewrite Hclient. cbn [length Nat.eqb andb].
  destruct (executeAll (o :: os) w1)
    as [results w2] eqn:Eexec.
  cbn [fst snd].
  destruct (max' <? S c) eqn:Emax.
  - fold (forced_final (push_round msgs am (o :: os) results)).
    destruct (callGlmFn _ w2) as [fr w3]. cbn [fst snd].
    now rewrite <- app_assoc.
  - reflexivity.
Qed.


Lemma one_internal_step
      (glmRequest : glm_request) (rem it c : nat) (msgs : list message)
      (log : list glm_request) (w : world) :
  always_one_internal ->
  exists (msgs' : list message) (w2 : world),
    loop glmRequest (S rem) it c msgs log w =
    if max' <? S c then
      {| outcome := fst (callGlmFn (forced_final msgs') w2);
         calls := log ++ [request_at glmRequest msgs; forced_final msgs'];
         history := msgs';
         iterations := S it;
         final_world := snd (callGlmFn (forced_final msgs') w2) |}
    else loop glmRequest rem (S it) (S c) msgs'
              (log ++ [request_at glmRequest msgs]) w2.
Proof.
  intros H. destruct (H (request_at glmRequest msgs) w)
    as (resp & w1 & am & tc & Hcall & Ham & Htc & Hours).
  assert (Ho : filter is_ours (am_tool_calls am) = [tc])
    by (rewrite Htc; simpl; now rewrite Hours).
  assert (Hc : filter is_client (am_tool_calls am) = [])
    by (rewrite Htc; simpl; now rewrite is_client_not_ours, Hours).
  eexists _, _.
  apply (loop_internal_only glmRequest rem it c msgs log w w1 resp am Hcall Ham);
    auto. rewrite Ho. discriminate.
Qed.


(** C2, as the code has it.  Tool loop convergence: with
    [maxConsecutiveInternal = 1] and a backend that answers every call
    with exactly one internal-only tool call, the loop ends after at
    most three backend calls and never runs more than [maxIterations]
    passes; when [maxIterations >= 2] it makes exactly two normal calls
    and one final call with tools disabled, whose response it returns;
    when [maxIterations < 2] it makes [maxIterations] calls and throws
    the ToolExecutionError of the iteration cap. *)
Theorem tool_loop_convergence (glmRequest : glm_request) (w : world) :
  maxConsecutiveInternal cfg = 1 ->
  always_one_internal ->
  let r := executeWithTools glmRequest w in
  length (calls r) <= 3
  /\ iterations r <= maxIterations cfg
  /\ (2 <= maxIterations cfg ->
      iterations r = 2
      /\ (exists resp, outcome r = Ok resp)
      /\ exists m2 m3,
          calls r = [request_at glmRequest (messages glmRequest);
                     request_at glmRequest m2; forced_final m3])
  /\ (maxIterations cfg < 2 ->
      outcome r = Throw cap_error /\ length (calls r) = maxIterations cfg).
Proof.
  intros Hmax Hback. cbv zeta. unfold Executor.executeWithTools, Executor.cap_error.
  assert (Hm : max' = 1) by (unfold maxConsecutiveInternal'; now rewrite Hmax).
  destruct (maxIterations cfg) as [|[|n]] eqn:En.
  - cbn [Executor.loop]. rewrite En. simpl. repeat split; try lia.
  - destruct (one_internal_step glmRequest 0 0 0 (messages glmRequest) [] w Hback)
      as (m2 & w2 & ->).
    rewrite Hm. cbn [Nat.ltb Nat.leb Executor.loop]. rewrite En. simpl.
    repeat split; try lia.
  - destruct (one_internal_step glmRequest (S n) 0 0 (messages glmRequest) [] w Hback)
      as (m2 & w2 & ->).
    rewrite Hm. cbn [Nat.ltb Nat.leb].
    destruct (one_internal_step glmRequest n 1 1 m2
                ([] ++ [request_at glmRequest (messages glmRequest)]) w2 Hback)
      as (m3 & w3 & ->).
    rewrite Hm. cbn [Nat.ltb Nat.leb].
    destruct (Hback (forced_final m3) w3) as (resp & w4 & _ & _ & E & _).
    rewrite E. simpl. repeat split; try lia; eauto.
Qed.

(** *** Failures of individual tool calls *)

Lemma executeTool_invalid_json (tc : tool_call) (w : world) (msg : string) :
  JSON_parse (arguments tc) = inr msg ->
  executeTool tc w
  = (Fulfilled ("Error: Invalid JSON in tool arguments: " ++ msg)%string, w).
Proof. intros H. unfold Executor.executeTool. now rewrite H. Qed.

Lemma executeAll_length (ourCalls : list tool_call) (w : world) :
  length (fst (executeAll ourCalls w)) = length ourCalls.
Proof.
  revert w; induction ourCalls as [|tc rest IH]; intros w; simpl; auto.
  destruct (Executor.executeMcpToolWithTiming _ _ _ _ tc w) as [r w1].
  specialize (IH w1). destruct (executeAll rest w1) as [rs w2].
  simpl in *. now rewrite IH.
Qed.

Ltac step_loop :=
  cbn [Executor.loop];
  repeat match goal with
         | |- context [match ?x with _ => _ end] => destruct x eqn:?
         | |- context [if ?x then _ else _] => destruct x eqn:?
         end.

(** The log of backend calls only grows, and every pass entered adds
    its request. *)
Lemma calls_extend (glmRequest : glm_request) (rem : nat) :
  forall (it c : nat) (msgs : list message) (log : list glm_request) (w : world),
  exists rest, calls (loop glmRequest rem it c msgs log w) = log ++ rest.
Proof.
  induction rem as [|rem IH]; intros it c msgs log w.
  - exists []. simpl. now rewrite app_nil_r.
  - step_loop; cbn [calls];
      try (eexists; reflexivity);
      try (eexists; rewrite <- app_assoc; reflexivity).
    all: match goal with
         | |- context [loop _ _ ?i ?c' ?m ?l ?w'] =>
             destruct (IH i c' m l w') as [rest ->]
         end.
    all: eexists; rewrite <- app_assoc; reflexivity.
Qed.

(** The exceptions that can leave the loop. *)
Lemma loop_throws (glmRequest : glm_request) (rem : nat) :
  forall (it c : nat) (msgs : list message) (log : list glm_request) (w : world)
         (e : error),
    rem + it = maxIterations cfg ->
    outcome (loop glmRequest rem it c msgs log w) = Throw e ->
    (exists req w0 w1, callGlmFn req w0 = (Throw e, w1))
    \/ (e = cap_error
        /\ iterations (loop glmRequest rem it c msgs log w) = maxIterations cfg).
Proof.
  induction rem as [|rem IH]; intros it c msgs log w e Hinv.
  - simpl. intros [= <-]. right. split; [reflexivity|]. simpl in Hinv. auto.
  - step_loop; cbn [outcome iterations]; try discriminate.
    all: try (apply IH; lia).
    all: intros He; left; try (injection He as ->); subst; eauto.
Qed.

Lemma loop_returns (glmRequest : glm_request) (rem : nat) :
  (forall req w0, exists resp w1, callGlmFn req w0 = (Ok resp, w1)) ->
  max' < maxIterations cfg ->
  forall (it : nat) (msgs : list message) (log : list glm_request) (w : world),
    rem + it = maxIterations cfg ->
    it <= max' ->
    exists resp, outcome (loop glmRequest rem it it msgs log w) = Ok resp.
Proof.
  intros Hback Hlim.
  induction rem as [|rem IH]; intros it msgs log w Hinv Hit.
  - simpl in Hinv. lia.
  - step_loop; cbn [outcome]; eauto.
    all: try match goal with
             | H : callGlmFn ?r ?w0 = (?fr, _) |- exists _, ?fr = _ =>
                 destruct (Hback r w0) as (? & ? & E); rewrite E in H;
                 injection H as <- _; eauto
             end.
    all: try match goal with
             | H : callGlmFn ?r ?w0 = (Throw _, _) |- _ =>
                 destruct (Hback r w0) as (? & ? & E); rewrite E in H; discriminate
             end.
    all: repeat match goal with
                | H : (_ =? _) = true |- _ => apply Nat.eqb_eq in H
                | H : (_ =? _) = false |- _ => apply Nat.eqb_neq in H
                | H : (_ <? _) = true |- _ => apply Nat.ltb_lt in H
                | H : (_ <? _) = false |- _ => apply Nat.ltb_ge in H
                | H : (_ && _) = false |- _ => apply andb_false_iff in H as [H|H]
                end.
    all: try lia; try discriminate.
    all: apply IH; lia.
Qed.

Lemma calls_first (glmRequest : glm_request) (rem it c : nat)
      (msgs : list message) (log : list glm_request) (w : world) :
  exists rest,
    calls (loop glmRequest (S rem) it c msgs log w)
    = log ++ request_at glmRequest msgs :: rest.
Proof.
  unfold request_at. step_loop; cbn [calls];
    try (eexists; reflexivity);
    try (eexists; rewrite <- app_assoc; reflexivity).
  all: match goal with
       | |- context [loop _ ?r ?i ?c' ?m ?l ?w'] =>
           destruct (calls_extend glmRequest r i c' m l w') as [rest ->]
       end.
  all: eexists; rewrite <- app_assoc; reflexivity.
Qed.

Lemma max'_pos : 1 <= max'.
Proof. unfold maxConsecutiveInternal'. destruct (maxConsecutiveInternal cfg); lia. Qed.


Lemma executeAll_cons (tc : tool_call) (rest : list tool_call) (w : world) :
  executeAll (tc :: rest) w
  = (settled_text (fst (executeTool tc w))
       :: fst (executeAll rest (snd (executeTool tc w))),
     snd (executeAll rest (snd (executeTool tc w)))).
Proof.
  cbn [Executor.executeAll]. unfold Executor.executeMcpToolWithTiming.
  destruct (executeTool tc w) as [r w1]. cbn [fst snd].
  destruct (executeAll rest w1) as [rs w2]. reflexivity.
Qed.

(** Every internal call of a round gets its result, whatever happens to
    the others; malformed arguments give the "Invalid JSON" text. *)
Lemma executeAll_results (ourCalls : list tool_call) :
  forall (w : world) (tc : tool_call),
    In tc ourCalls ->
    (exists content,
        In (tc, content) (combine ourCalls (fst (executeAll ourCalls w))))
    /\ (forall msg, JSON_parse (arguments tc) = inr msg ->
          In (tc, ("Error: Invalid JSON in tool arguments: " ++ msg)%string)
             (combine ourCalls (fst (executeAll ourCalls w)))).
Proof.
  induction ourCalls as [|tc0 rest IH]; intros w tc Hin; [contradiction|].
  rewrite executeAll_cons. cbn [fst combine].
  destruct Hin as [->|Hin].
  - split.
    + eexists. left. reflexivity.
    + intros msg Hj. left. now rewrite (executeTool_invalid_json tc w msg Hj).
  - destruct (IH (snd (executeTool tc0 w)) tc Hin) as [[c Hc] H2]. split.
    + exists c. now right.
    + intros msg Hj. right. now apply H2.
Qed.

Lemma in_push_round (msgs : list message) (am : assistant_message)
      (ourCalls : list tool_call) (results : list string)
      (tc : tool_call) (content : string) :
  In (tc, content) (combine ourCalls results) ->
  In (ToolResult (id tc) content) (push_round msgs am ourCalls results).
Proof.
  intros H. unfold push_round. apply in_or_app. right.
  apply in_or_app. right.
  apply in_map_iff. exists (tc, content). auto.
Qed.

Lemma rejected_is_error_text (m : option string) :
  exists rest, settled_text (Rejected m) = ("Error: " ++ rest)%string.
Proof. simpl. eauto. Qed.


(** With such a backend the streak cap alone bounds the calls: at most
    [maxConsecutiveInternal' + 1] normal calls and the forced final one. *)
Lemma internal_only_call_bound (glmRequest : glm_request) (rem : nat) :
  always_one_internal ->
  forall (it c : nat) (msgs : list message) (log : list glm_request) (w : world),
    c <= max' ->
    length (calls (loop glmRequest rem it c msgs log w))
    <= length log + (max' - c) + 2.
Proof.
  intros Hback. induction rem as [|rem IH]; intros it c msgs log w Hc.
  - simpl. lia.
  - destruct (one_internal_step glmRequest rem it c msgs log w Hback)
      as (m' & w2 & ->).
    destruct (max' <? S c) eqn:E.
    + cbn [calls]. rewrite length_app. simpl. lia.
    + apply Nat.ltb_ge in E.
      specialize (IH (S it) (S c) m' (log ++ [request_at glmRequest msgs]) w2 E).
      rewrite length_app in IH. simpl in IH. lia.
Qed.

End ExecutorProofs.


Lemma example_backend_one_internal :
  Executor.always_one_internal unit ExecutorExample.backend []
                               (ExecutorExample.shipped 1).
Proof.
  intros req w. unfold ExecutorExample.backend.
  eexists _, _, _, _. repeat split; reflexivity.
Qed.

(** With [maxConsecutiveInternal = 1] and the shipped cap of 15 the loop
    makes three backend calls, not two. *)
Lemma tool_loop_three_calls :
  Executor.maxConsecutiveInternal (ExecutorExample.shipped 1) = 1
  /\ Executor.always_one_internal unit ExecutorExample.backend []
       (ExecutorExample.shipped 1)
  /\ length (Executor.calls ExecutorExample.run1) = 3
  /\ Executor.iterations ExecutorExample.run1 = 2
  /\ ~ length (Executor.calls ExecutorExample.run1) <= 2.
Proof.
  split; [reflexivity|]. split.
  { intros req w. unfold ExecutorExample.backend.
    eexists _, _, _, _. repeat split; reflexivity. }
  split; [reflexivity|]. split; [reflexivity|]. vm_compute. lia.
Qed.

Lemma tool_loop_convergence_witness :
  length (Executor.calls ExecutorExample.run1) <= 3
  /\ Executor.iterations ExecutorExample.run1 <= 15.
Proof.
  destruct (tool_loop_convergence unit ExecutorExample.backend ExecutorExample.parse
              ExecutorExample.mcp [] (ExecutorExample.shipped 1)
              ExecutorExample.request tt eq_refl example_backend_one_internal)
    as (H1 & H2 & _).
  split; [exact H1 | exact H2].
Defined.





(** ** Context recovery *)

Section RecoveryProofs.
Import Router Recovery.
Local Open Scope string_scope.
Local Open Scope list_scope.
Local Open Scope nat_scope.

Variable world : Type.
Variable glm_request : Type.
Variable handleAnthropicPath : anthropic_request -> world -> result unit * world.
Variable handleBigModelPath : anthropic_request -> world -> result unit * world.
Variable handleOpenAIPath : anthropic_request -> world -> result unit * world.
Variable transformRequest : summary_prompt -> world -> result glm_request * world.
Variable callApi : api_call glm_request -> world -> result api_response * world.

Local Abbreviation dispatch :=
  (Recovery.dispatch world handleAnthropicPath handleBigModelPath handleOpenAIPath).
Local Abbreviation summarizeConversation :=
  (Recovery.summarizeConversation world glm_request transformRequest callApi).
Local Abbreviation handleMessages :=
  (Recovery.handleMessages world glm_request handleAnthropicPath handleBigModelPath
                           handleOpenAIPath transformRequest callApi).

Lemma summarize_calls (messages : list value) (model endpoint : string) (w : world) :
  length (snd (fst (summarizeConversation messages model endpoint w))) <= 1
  /\ ((endpoint = "anthropic"
       \/ exists g w1,
           transformRequest {| prompt_model := model; prompt_max_tokens := 2000;
                               prompt_conversation := messages |} w = (Ok g, w1)) ->
      length (snd (fst (summarizeConversation messages model endpoint w))) = 1).
Proof.
  unfold Recovery.summarizeConversation.
  destruct (String.eqb endpoint "anthropic") eqn:Ee.
  - destruct (callApi _ w) as [[r|e] w2]; simpl; split; auto.
  - destruct (transformRequest _ w) as [[g|e] w1] eqn:Et.
    + destruct (String.eqb endpoint "bigmodel");
        destruct (callApi _ w1) as [[r|e] w2]; simpl; split; auto.
    + simpl. split; auto. intros [->|(g & w' & Hg)]; [|discriminate].
      rewrite String.eqb_refl in Ee. discriminate.
Qed.

(** Never more than one retry. *)
Lemma at_most_two_attempts (endpoint : string) (req : anthropic_request) (w : world) :
  length (attempts (handleMessages endpoint req w)) <= 2.
Proof.
  unfold Recovery.handleMessages.
  destruct (dispatch endpoint req w) as [[u|e] w1]; simpl; auto.
  destruct (_ && _); simpl; auto.
  destruct (summarizeConversation _ _ _ _) as [[s c] w2].
  destruct (dispatch endpoint _ w2) as [[u|e'] w3]; simpl; auto.
Qed.


End RecoveryProofs.


(** ** Streaming engine *)

Section StreamProofs.
Import Splitter Stream.
Local Open Scope string_scope.
Local Open Scope list_scope.
Local Open Scope Z_scope.

Variable thinkingEnabled : bool.
Variable shouldHandleInternally : string -> bool.
Variable JSON_parses : string -> bool.

Local Abbreviation on_event :=
  (Stream.on_event thinkingEnabled shouldHandleInternally JSON_parses).
Local Abbreviation engine :=
  (Stream.streamAnthropicWithToolDetection thinkingEnabled shouldHandleInternally
                                           JSON_parses).

Lemma pick_app {A B : Type} (f : A -> option B) (a b : list A) :
  pick f (a ++ b) = pick f a ++ pick f b.
Proof.
  induction a as [|x a IH]; simpl; auto. destruct (f x); simpl; now rewrite IH.
Qed.

(** *** Indices the engine assigns *)


Lemma counted_other (cur : Z) (tr : list out_event) (e : out_event) :
  own_start_index e = None -> counted cur tr -> counted cur (tr ++ [e]).
Proof.
  intros He [H0 H]. split; auto. unfold own_start_indices in *.
  rewrite pick_app, H. simpl. rewrite He. now rewrite app_nil_r.
Qed.

Lemma counted_start (cur : Z) (tr : list out_event) (k : kind) :
  counted cur tr -> counted (cur + 1) (tr ++ [out_block_start cur k]).
Proof.
  intros [H0 H]. split; [lia|]. unfold own_start_indices in *.
  rewrite pick_app, H. simpl. unfold upto.
  replace (Z.to_nat (cur + 1)) with (S (Z.to_nat cur)) by lia.
  rewrite seq_S, map_app. simpl. now rewrite Z2Nat.id.
Qed.

Ltac counted_tac :=
  repeat first
         [ assumption
         | apply counted_start
         | apply counted_other; [reflexivity|] ].

Lemma counted_ensureMessageStart (s : state) :
  counted_state s -> counted_state (ensureMessageStart s).
Proof.
  unfold counted_state, ensureMessageStart.
  destruct (messageStartSent s); cbn; intros; counted_tac.
Qed.

Lemma counted_startTextBlock (s : state) :
  counted_state s -> counted_state (startTextBlock s).
Proof.
  unfold counted_state, startTextBlock, ensureMessageStart.
  destruct (textBlockStarted s); auto.
  destruct (messageStartSent s); cbn; intros; counted_tac.
Qed.

Lemma counted_startParsedThinkingBlock (s : state) :
  counted_state s -> counted_state (startParsedThinkingBlock s).
Proof.
  unfold counted_state, startParsedThinkingBlock, ensureMessageStart.
  destruct (parsedThinkingBlockStarted s); auto.
  destruct (messageStartSent s); cbn; intros; counted_tac.
Qed.

Lemma counted_closeParsedThinkingBlock (s : state) :
  counted_state s -> counted_state (closeParsedThinkingBlock s).
Proof.
  unfold counted_state, closeParsedThinkingBlock.
  destruct (parsedThinkingBlockStarted s); cbn; intros; counted_tac.
Qed.

Lemma counted_write (e : out_event) (s : state) :
  own_start_index e = None -> counted_state s -> counted_state (write e s).
Proof. unfold counted_state. cbn. intros He H. now apply counted_other. Qed.

Lemma counted_emitSegment (s : state) (sg : segment) :
  counted_state s -> counted_state (emitSegment s sg).
Proof.
  intros H. unfold emitSegment. destruct (truthy _); auto.
  destruct (Splitter.type sg); unfold emitThinkingDelta, emitTextDelta.
  - apply counted_write; auto. now apply counted_startParsedThinkingBlock.
  - apply counted_write; auto. apply counted_startTextBlock.
    now apply counted_closeParsedThinkingBlock.
Qed.

Lemma counted_emitSegments (segments : list segment) (s : state) :
  counted_state s -> counted_state (emitSegments segments s).
Proof.
  unfold emitSegments. revert s.
  induction segments as [|sg rest IH]; intros s H; simpl; auto.
  apply IH. now apply counted_emitSegment.
Qed.

Lemma counted_on_choices (rc c : jsstring) (f : string) (s : state) :
  counted_state s -> counted_state (on_choices rc c f s).
Proof.
  unfold counted_state, on_choices. intros H.
  destruct (truthy rc), (truthy c), f as [|a f'];
    destruct (thinkingBlockStarted s), (textBlockStarted s), (messageStartSent s);
    cbn;
    repeat match goal with
           | |- context [if ?b then _ else _] => destruct b; cbn
           end;
    counted_tac.
Qed.

Lemma counted_set_passthrough skip srv after tu nat' i c (s : state) :
  counted_state s ->
  counted_state (set_passthrough skip srv after tu nat' i c s).
Proof. auto. Qed.

Lemma counted_on_content_block_start (index : Z) (block : content_block) (s : state) :
  counted_state s ->
  counted_state (on_content_block_start thinkingEnabled shouldHandleInternally
                                        index block s).
Proof.
  intros H. unfold on_content_block_start, keep.
  repeat match goal with
         | |- context [if ?b then _ else _] => destruct b
         end;
    auto; apply counted_write; auto.
Qed.

Lemma counted_on_content_block_delta (index : Z) (d : delta) (s : state) :
  counted_state s ->
  counted_state (on_content_block_delta thinkingEnabled shouldHandleInternally
                                        index d s).
Proof.
  intros H. unfold on_content_block_delta, keep.
  destruct (skipping index s); auto.
  destruct d, (currentToolUse s);
    try destruct (shouldHandleInternally _);
    try destruct thinkingEnabled;
    try destruct (processChunk _ _) as [p segments];
    auto; try (apply counted_write; auto);
    apply counted_emitSegments; auto.
Qed.

Lemma counted_on_content_block_stop (index : Z) (s : state) :
  counted_state s ->
  counted_state (on_content_block_stop thinkingEnabled shouldHandleInternally
                                       JSON_parses index s).
Proof.
  intros H. unfold on_content_block_stop.
  destruct (skipping index s).
  { destruct (serverToolInProgress s); auto. }
  destruct (currentToolUse s) as [tu|].
  { destruct (match tu_input tu with EmptyString => true | _ => _ end); auto.
    destruct (shouldHandleInternally _); auto.
    apply counted_set_passthrough. apply counted_write; auto. }
  destruct (nativeThinkingBlockActive s).
  { apply counted_set_passthrough. apply counted_write; auto. }
  destruct thinkingEnabled; [|apply counted_write; auto].
  destruct (flush _) as [p segs].
  match goal with
  | |- counted_state (if textBlockStarted ?x then _ else _) =>
      assert (Hx : counted_state x)
        by (apply counted_closeParsedThinkingBlock, counted_emitSegments; auto);
      destruct (textBlockStarted x); auto; apply counted_write; auto
  end.
Qed.

Lemma counted_on_event (s : state) (event : upstream) :
  counted_state s -> counted_state (on_event s event).
Proof.
  intros H. destruct event; cbn [Stream.on_event].
  - now apply counted_on_choices.
  - destruct (messageStartSent s); auto.
    change (counted_state (write (forwarded message_start) s)).
    apply counted_write; auto.
  - now apply counted_on_content_block_start.
  - now apply counted_on_content_block_delta.
  - now apply counted_on_content_block_stop.
  - destruct stop_reason; auto.
  - auto.
  - apply counted_write; auto.
Qed.

Lemma counted_engine (evs : list upstream) (rf : bool) (s : state) :
  counted_state s -> counted_state (engine evs rf s).
Proof.
  intros H. unfold streamAnthropicWithToolDetection.
  assert (Hf : forall l s0, counted_state s0 ->
                            counted_state (fold_left on_event l s0)).
  { induction l as [|e l IH]; intros s0 H0; simpl; auto.
    apply IH. now apply counted_on_event. }
  destruct rf; [apply counted_write; auto|]; apply Hf; exact H.
Qed.

Lemma counted_sendFinalEvents (r : string) (s : state) :
  counted_state s -> counted_state (sendFinalEvents r s).
Proof.
  intros H. unfold sendFinalEvents. repeat (apply counted_write; auto).
Qed.

(** *** Closing the parsed thinking block before text *)


Lemma text_after_close_snoc (tr : list out_event) (e : out_event) :
  forall open : list Z,
    text_after_close open (tr ++ [e])
    = text_after_close open tr
      && (negb (is_text_delta e)
          || match fold_left track_own_thinking tr open with
             | [] => true
             | _ :: _ => false
             end).
Proof.
  induction tr as [|x tr IH]; intros open.
  - destruct e as [| |i k c| | | | |]; try destruct k; destruct open; reflexivity.
  - cbn [app text_after_close fold_left].
    destruct x as [| |i k c| | | | |]; try apply IH.
    destruct k; try apply IH.
    destruct open; [apply IH | reflexivity].
Qed.

Lemma text_after_close_step (tr : list out_event) (e : out_event) :
  text_after_close [] (tr ++ [e])
  = text_after_close [] tr
    && (negb (is_text_delta e)
        || match still_open tr with [] => true | _ :: _ => false end).
Proof. apply text_after_close_snoc. Qed.


Lemma still_open_snoc (tr : list out_event) (e : out_event) :
  still_open (tr ++ [e]) = track_own_thinking (still_open tr) e.
Proof. unfold still_open. now rewrite fold_left_app. Qed.

(** One more event: a text delta needs the flag down, and the flag must
    follow what the event does to the open thinking blocks. *)
Lemma closing_step (pre : list out_event) (s s' : state) (e : out_event) :
  closing pre s ->
  written s' = written s ++ [e] ->
  (is_text_delta e = true -> parsedThinkingBlockStarted s = false) ->
  track_own_thinking (open_flag s) e = open_flag s' ->
  closing pre s'.
Proof.
  intros (new & Hw & H1 & H2) Hw' Ht Htr. exists (new ++ [e]).
  split; [now rewrite Hw', Hw, app_assoc|].
  rewrite text_after_close_step, still_open_snoc, H1, H2.
  split; [|exact Htr].
  destruct (is_text_delta e); cbn; auto.
  unfold open_flag. now rewrite (Ht eq_refl).
Qed.

Lemma closing_write (pre : list out_event) (e : out_event) (s : state) :
  plain e = true -> closing pre s -> closing pre (write e s).
Proof.
  intros He H. apply (closing_step pre s (write e s) e H); auto.
  - destruct e as [|i k|i k c| | | | |]; try destruct k; discriminate.
  - unfold open_flag. cbn [write parsedThinkingBlockStarted thinkingBlockIndex].
    destruct e as [|i k|i k c| | | | |]; try destruct k; try discriminate;
      reflexivity.
Qed.

Lemma closing_ensureMessageStart (pre : list out_event) (s : state) :
  closing pre s -> closing pre (ensureMessageStart s).
Proof.
  intros H. unfold ensureMessageStart. destruct (messageStartSent s); auto.
  apply (closing_write pre out_message_start s eq_refl) in H.
  destruct H as (new & Hw & H1 & H2). exists new. auto.
Qed.

Lemma ensureMessageStart_flag (s : state) :
  parsedThinkingBlockStarted (ensureMessageStart s) = parsedThinkingBlockStarted s.
Proof. unfold ensureMessageStart. destruct (messageStartSent s); reflexivity. Qed.

Lemma closing_startTextBlock (pre : list out_event) (s : state) :
  closing pre s ->
  closing pre (startTextBlock s)
  /\ parsedThinkingBlockStarted (startTextBlock s) = parsedThinkingBlockStarted s.
Proof.
  intros H. unfold startTextBlock. destruct (textBlockStarted s); auto.
  split.
  - apply closing_ensureMessageStart in H.
    destruct H as (new & Hw & H1 & H2).
    apply closing_write; auto. exists new. auto.
  - cbn. apply ensureMessageStart_flag.
Qed.

Lemma closing_startParsedThinkingBlock (pre : list out_event) (s : state) :
  closing pre s -> closing pre (startParsedThinkingBlock s).
Proof.
  intros H. unfold startParsedThinkingBlock.
  destruct (parsedThinkingBlockStarted s) eqn:E; auto.
  apply closing_ensureMessageStart in H.
  pose proof (ensureMessageStart_flag s) as E'. rewrite E in E'.
  eapply (closing_step pre (ensureMessageStart s)); [exact H|reflexivity| |].
  - discriminate.
  - unfold open_flag. rewrite E'. reflexivity.
Qed.

Lemma closing_closeParsedThinkingBlock (pre : list out_event) (s : state) :
  closing pre s ->
  closing pre (closeParsedThinkingBlock s)
  /\ parsedThinkingBlockStarted (closeParsedThinkingBlock s) = false.
Proof.
  intros H. unfold closeParsedThinkingBlock.
  destruct (parsedThinkingBlockStarted s) eqn:E; [|auto].
  split; [|reflexivity].
  eapply (closing_step pre s); [exact H|reflexivity| |].
  - discriminate.
  - unfold open_flag. rewrite E. cbn. now rewrite Z.eqb_refl.
Qed.

Lemma closing_text_delta (pre : list out_event) (s : state) (i : Z) (c : jsstring) :
  closing pre s -> parsedThinkingBlockStarted s = false ->
  closing pre (write (out_block_delta i k_text c) s).
Proof.
  intros H Hf. eapply (closing_step pre s); [exact H|reflexivity|auto|].
  unfold open_flag. cbn. now rewrite Hf.
Qed.

Lemma closing_stop (pre : list out_event) (s : state) (i : Z) :
  closing pre s -> parsedThinkingBlockStarted s = false ->
  closing pre (write (out_block_stop i) s).
Proof.
  intros H Hf. eapply (closing_step pre s); [exact H|reflexivity|discriminate|].
  unfold open_flag. cbn. now rewrite Hf.
Qed.

Lemma closing_emitSegment (pre : list out_event) (s : state) (sg : segment) :
  closing pre s -> closing pre (emitSegment s sg).
Proof.
  intros H. unfold emitSegment. destruct (truthy _); auto.
  destruct (Splitter.type sg); unfold emitThinkingDelta, emitTextDelta.
  - apply closing_write; auto. now apply closing_startParsedThinkingBlock.
  - destruct (closing_closeParsedThinkingBlock pre s H) as [Hc Hf].
    destruct (closing_startTextBlock pre _ Hc) as [H1 Hp].
    rewrite Hf in Hp. now apply closing_text_delta.
Qed.

Lemma closing_emitSegments (pre : list out_event) (segments : list segment)
      (s : state) :
  closing pre s -> closing pre (emitSegments segments s).
Proof.
  unfold emitSegments. revert s.
  induction segments as [|sg rest IH]; intros s H; simpl; auto.
  apply IH. now apply closing_emitSegment.
Qed.

Lemma closing_same_trace (pre : list out_event) (s s' : state) :
  written s' = written s ->
  parsedThinkingBlockStarted s' = parsedThinkingBlockStarted s ->
  thinkingBlockIndex s' = thinkingBlockIndex s ->
  closing pre s -> closing pre s'.
Proof.
  intros Hw Hp Hi (new & H0 & H1 & H2). exists new.
  unfold open_flag. rewrite Hw, Hp, Hi. auto.
Qed.

Ltac same H := eapply closing_same_trace; [| | |exact H]; reflexivity.

Ltac passthrough H :=
  first [ exact H
        | same H
        | apply closing_write; [reflexivity|]; first [exact H | same H] ].

Lemma closing_on_event (pre : list out_event) (s : state) (event : upstream) :
  native event = true -> closing pre s -> closing pre (on_event s event).
Proof.
  intros Hn H. destruct event; try discriminate; cbn [Stream.on_event].
  - destruct (messageStartSent s); auto.
    apply (closing_write pre (forwarded message_start) s eq_refl) in H.
    same H.
  - unfold on_content_block_start, keep.
    repeat match goal with
           | |- context [if ?b then _ else _] => destruct b
           end;
      passthrough H.
  - unfold on_content_block_delta, keep.
    destruct (skipping index s); auto.
    destruct d, (currentToolUse s);
      try destruct (shouldHandleInternally _);
      try destruct thinkingEnabled;
      try destruct (processChunk _ _) as [p segments];
      first [ passthrough H | apply closing_emitSegments; same H ].
  - unfold on_content_block_stop.
    destruct (skipping index s).
    { destruct (serverToolInProgress s); same H. }
    destruct (currentToolUse s) as [tu|].
    { apply (closing_write pre (forwarded (content_block_stop index)) s eq_refl)
        in H as Hw.
      destruct (match tu_input tu with EmptyString => true | _ => _ end);
        [destruct (shouldHandleInternally _)|];
        first [ same H | same Hw ]. }
    destruct (nativeThinkingBlockActive s).
    { apply (closing_write pre (forwarded (content_block_stop index)) s eq_refl)
        in H.
      same H. }
    destruct thinkingEnabled; [|passthrough H].
    destruct (flush _) as [p segs].
    match goal with
    | |- closing pre (if textBlockStarted ?x then _ else _) =>
        assert (Hx : closing pre x /\ parsedThinkingBlockStarted x = false)
          by (apply closing_closeParsedThinkingBlock, closing_emitSegments;
              same H);
        destruct (textBlockStarted x); [|tauto]
    end.
    destruct Hx as [Hx Hf]. now apply closing_stop.
  - destruct stop_reason; [exact H | same H].
  - exact H.
  - passthrough H.
Qed.

(** C4, as the code has it.  On the native dialect, within each backend
    stream of a response, the engine never writes a text delta of its
    own while a thinking block that it opened in this stream is open:
    [emitTextDelta] closes the parsed thinking block before the text
    block is opened or continued. *)
Theorem thinking_closed_before_text
        (evs : list upstream) (read_failed : bool) (s : state) :
  forallb native evs = true ->
  exists new : list out_event,
    written (engine evs read_failed s) = written s ++ new
    /\ text_after_close [] new = true.
Proof.
  intros Hn. unfold streamAnthropicWithToolDetection.
  assert (Hf : forall l s0, forallb native l = true -> closing (written s) s0 ->
                            closing (written s) (fold_left on_event l s0)).
  { induction l as [|e l IH]; intros s0 Hl H0; simpl; auto.
    simpl in Hl. apply andb_true_iff in Hl as [He Hl].
    apply IH; auto. now apply closing_on_event. }
  assert (H0 : closing (written s) (enter s)).
  { exists []. cbn. rewrite app_nil_r. auto. }
  specialize (Hf evs _ Hn H0).
  assert (H : closing (written s)
                      (if read_failed
                       then write (out_error "Stream read failed - response may be incomplete")
                                  (fold_left on_event evs (enter s))
                       else fold_left on_event evs (enter s))).
  { destruct read_failed; [apply closing_write; auto | exact Hf]. }
  destruct H as (new & Hw & H1 & _). exists new. auto.
Qed.

Variable maxToolIterations : nat.
Variable fetch : nat -> body.

Local Abbreviation streamFromAnthropic :=
  (Stream.streamFromAnthropic thinkingEnabled shouldHandleInternally JSON_parses fetch).

Lemma counted_streamFromAnthropic (remaining : nat) :
  forall (toolIteration : nat) (s : state),
    counted_state s ->
    counted_state (streamFromAnthropic remaining toolIteration s).
Proof.
  induction remaining as [|remaining IH]; intros t s H; cbn [Stream.streamFromAnthropic];
    (destruct (fetch t) as [m|evs rf]; [apply counted_write; auto|]);
    pose proof (counted_engine evs rf s H) as He;
    set (result := engine evs rf s) in *;
    destruct (internalToolCalls result); try destruct (clientToolCalls result);
    auto using counted_sendFinalEvents.
Qed.

Lemma upto_increasing (n a : nat) :
  strictly_increasing (map Z.of_nat (seq a n)) = true.
Proof.
  revert a; induction n as [|n IH]; intros a; auto.
  specialize (IH (S a)). destruct n as [|n]; auto.
  change (seq a (S (S n))) with (a :: seq (S a) (S n)).
  change (seq (S a) (S n)) with (S a :: seq (S (S a)) n) in *.
  cbn [map strictly_increasing] in *. rewrite IH.
  replace (Z.of_nat a <? Z.of_nat (S a)) with true; auto.
  symmetry. apply Z.ltb_lt. lia.
Qed.

End StreamProofs.


(** After "a<reasoning_content>b" the text block 0 and the thinking
    block 1 are both open. *)
Lemma text_and_thinking_both_open :
  Stream.open_blocks (firstn 5 StreamExample.tagged_response)
  = [(0%Z, Stream.k_text); (1%Z, Stream.k_thinking)]
  /\ Stream.both_open (firstn 5 StreamExample.tagged_response) = true.
Proof. vm_compute. split; reflexivity. Qed.

Lemma thinking_closed_before_text_witness :
  exists new : list Stream.out_event,
    Stream.written
      (Stream.streamAnthropicWithToolDetection true StreamExample.internal
         (fun _ => true) StreamExample.tagged_events false Stream.initial)
    = Stream.written Stream.initial ++ new
    /\ Stream.text_after_close [] new = true.
Proof.
  apply (thinking_closed_before_text true StreamExample.internal (fun _ => true)
           StreamExample.tagged_events false Stream.initial).
  reflexivity.
Defined.

(** ** Reasoning tag splitter: chunking and withheld text *)

Section SplitterMore.
Import Splitter SplitterSpec SplitterAux.

(** X1.  The typed output of the splitter does not depend on where the
    input is cut into chunks: two chunkings of the same text give the
    same code units with the same types, hence the same visible text. *)
Theorem splitter_chunking_independent (chunks1 chunks2 : list jsstring) :
  concat chunks1 = concat chunks2 ->
  units (run chunks1) = units (run chunks2)
  /\ concat (map content (run chunks1)) = concat (map content (run chunks2)).
Proof.
  intros H.
  assert (Hu : units (run chunks1) = units (run chunks2)).
  { destruct (run_sound chunks1) as [-> _].
    destruct (run_sound chunks2) as [-> _]. now rewrite H. }
  split; [exact Hu|].
  now rewrite <- !units_contents, Hu.
Qed.

Lemma splitter_chunking_independent_witness :
  units (run [lit "a<reasoning_"; lit "content>b</reasoning_content>c"])
  = units (run [lit "a<reasoning_content>b</reason"; lit "ing_content>";
                lit "c"]).
Proof.
  apply (splitter_chunking_independent
           [lit "a<reasoning_"; lit "content>b</reasoning_content>c"]
           [lit "a<reasoning_content>b</reason"; lit "ing_content>"; lit "c"]).
  reflexivity.
Defined.

Lemma findPartialTag_from_prefix (n : nat) (text tag : jsstring) :
  0 < findPartialTag_from n text tag ->
  skipn (length text - findPartialTag_from n text tag) text
  = firstn (findPartialTag_from n text tag) tag.
Proof.
  induction n as [|n IH]; simpl; [lia|].
  destruct (jsstring_eqb _ _) eqn:E; auto.
  intros _. unfold substringFrom in E. rewrite substring_0 in E.
  now apply jsstring_eqb_eq in E.
Qed.

Lemma startsWith_firstn (tag : jsstring) (n : nat) :
  startsWith tag (firstn n tag) = true.
Proof.
  apply startsWith_app_iff. exists (skipn n tag).
  now rewrite firstn_skipn.
Qed.

Lemma processLoop_buffer (fuel : nat) :
  forall (buf : jsstring) (m : bool) (out : list segment),
    length buf < fuel ->
    let p := fst (processLoop fuel buf m out) in
    startsWith (tag_of (inReasoning p)) (buffer p) = true
    /\ length (buffer p) < length (tag_of (inReasoning p)).
Proof.
  induction fuel as [|fuel IH]; intros buf m out Hlen; [lia|].
  destruct buf as [|c b].
  - simpl. split; [reflexivity|apply tag_of_length_pos].
  - rewrite processLoop_eq. set (buf := c :: b) in *.
    pose proof (tag_of_length_pos m) as Hp.
    destruct (indexOf buf (tag_of m)) as [i|] eqn:Ei.
    + destruct (occurrence_in_prefix buf [] _ _ Hp Ei) as (_ & _ & H3).
      apply IH. rewrite length_skipn. lia.
    + pose proof (findPartialTag_bound buf _ Hp) as [Hb1 Hb2].
      cbv zeta. destruct (0 <? findPartialTag buf (tag_of m)) eqn:E0.
      * cbn [fst buffer inReasoning]. apply Nat.ltb_lt in E0. split.
        -- unfold findPartialTag in *.
           rewrite findPartialTag_from_prefix by exact E0.
           apply startsWith_firstn.
        -- rewrite length_skipn. lia.
      * cbn [fst buffer inReasoning]. split; [reflexivity|exact Hp].
Qed.

(** X2.  After any chunk, whatever state the parser was in, the text it
    still withholds is a proper prefix of the marker it is waiting for:
    at most 19 code units are ever held back, everything else received
    has been classified. *)
Theorem splitter_withholds_only_a_tag_prefix (p : parser) (chunk : jsstring) :
  let p' := fst (processChunk p chunk) in
  startsWith (tag_of (inReasoning p')) (buffer p') = true
  /\ length (buffer p') < length (tag_of (inReasoning p'))
  /\ length (buffer p') <= 19.
Proof.
  cbv zeta. unfold processChunk.
  destruct (processLoop_buffer (S (length (buffer p ++ chunk)))
              (buffer p ++ chunk) (inReasoning p) [] (Nat.lt_succ_diag_r _))
    as [H1 H2].
  cbv zeta in H1, H2.
  set (p' := fst (processLoop _ _ _ _)) in *.
  split; [exact H1|]. split; [exact H2|].
  destruct (inReasoning p'); simpl in H2; lia.
Qed.

Lemma tag_of_head (m : bool) : exists t, tag_of m = lt_sign :: t.
Proof. destruct m; eexists; reflexivity. Qed.

Lemma startsWith_tag_In (s : jsstring) (m : bool) :
  startsWith s (tag_of m) = true -> In lt_sign s.
Proof.
  destruct (tag_of_head m) as [t ->]. destruct s as [|c s]; simpl.
  - discriminate.
  - intros H. apply andb_true_iff in H as [H _]. apply N.eqb_eq in H. now left.
Qed.

Lemma indexOf_without_lt (s : jsstring) (m : bool) :
  ~ In lt_sign s -> indexOf s (tag_of m) = None.
Proof.
  induction s as [|c s IH]; intros Hn.
  - destruct m; reflexivity.
  - cbn [indexOf].
    destruct (startsWith (c :: s) (tag_of m)) eqn:E.
    + apply startsWith_tag_In in E. contradiction.
    + rewrite IH; [reflexivity|]. intros Hin. apply Hn. now right.
Qed.

Lemma In_suffix {A : Type} (x : A) (n : nat) (l : list A) :
  In x (skipn n l) -> In x l.
Proof.
  intros H. rewrite <- (firstn_skipn n l). apply in_or_app. now right.
Qed.

Lemma findPartialTag_from_without_lt (n : nat) (s : jsstring) (m : bool) :
  ~ In lt_sign s -> n <= length s -> findPartialTag_from n s (tag_of m) = 0.
Proof.
  intros Hn. induction n as [|n IH]; intros Hle; [reflexivity|].
  cbn [findPartialTag_from].
  destruct (jsstring_eqb _ _) eqn:E; [|apply IH; lia].
  exfalso. apply jsstring_eqb_eq in E. unfold substringFrom in E.
  rewrite substring_0 in E. destruct (tag_of_head m) as [t Ht].
  rewrite Ht in E. cbn [firstn] in E.
  apply Hn. apply (In_suffix _ (length s - S n)). rewrite E. now left.
Qed.

(** X3.  A chunk without [<] is never delayed: with nothing withheld,
    it is emitted at once as one segment of the current mode and the
    buffer stays empty. *)
Theorem splitter_plain_chunk_is_immediate (p : parser) (chunk : jsstring) :
  buffer p = [] -> chunk <> [] -> ~ In lt_sign chunk ->
  processChunk p chunk
  = ({| buffer := []; inReasoning := inReasoning p |},
     [{| type := kind_of (inReasoning p); content := chunk |}]).
Proof.
  intros Hb Hne Hn. unfold processChunk. rewrite Hb. cbn [app].
  destruct chunk as [|c b]; [congruence|].
  rewrite processLoop_eq.
  rewrite indexOf_without_lt by exact Hn. cbv zeta.
  unfold findPartialTag.
  rewrite findPartialTag_from_without_lt by (auto; lia).
  reflexivity.
Qed.

Lemma splitter_plain_chunk_is_immediate_witness :
  processChunk {| buffer := []; inReasoning := true |} (lit "step 1")
  = ({| buffer := []; inReasoning := true |},
     [{| type := thinking; content := lit "step 1" |}]).
Proof.
  apply (splitter_plain_chunk_is_immediate
           {| buffer := []; inReasoning := true |} (lit "step 1")).
  - reflexivity.
  - discriminate.
  - vm_compute. intuition discriminate.
Defined.

End SplitterMore.

(** ** Tool execution loop: bounds, pass-through and history *)

Section ExecutorMore.
Import StopReason Executor ExecutorAux.
Local Open Scope string_scope.
Local Open Scope list_scope.
Local Open Scope nat_scope.

Variable world : Type.
Variable callGlmFn : glm_request -> world -> result response * world.
Variable JSON_parse : string -> Router.value + string.
Variable callMcp : mcp_target -> Router.value -> world -> settled * world.
Variable reg : registry.
Variable cfg : config.

Local Abbreviation loop := (Executor.loop world callGlmFn JSON_parse callMcp reg cfg).
Local Abbreviation executeAll := (Executor.executeAll world JSON_parse callMcp reg).
Local Abbreviation executeTool := (Executor.executeTool world JSON_parse callMcp reg).
Local Abbreviation executeWithTools :=
  (Executor.executeWithTools world callGlmFn JSON_parse callMcp reg cfg).
Local Abbreviation is_ours := (Executor.is_ours reg cfg).
Local Abbreviation is_client := (Executor.is_client reg cfg).
Local Abbreviation cap_error := (Executor.cap_error cfg).

Ltac by_name n :=
  repeat match goal with
         | |- context [String.eqb n ?s] =>
             destruct (String.eqb_spec n s); [subst; simpl; auto|]
         end.

Lemma claude_tools_are_aliases (n : string) :
  isClaudeTool n = true -> isOurTool n = true.
Proof.
  unfold isClaudeTool, isOurTool, includes, CLAUDE_TOOL_NAMES, OUR_TOOL_NAMES,
    TOOL_ALIASES.
  cbn [existsb assoc]. by_name n. simpl. discriminate.
Qed.

Lemma our_tools_are_canonical (n : string) :
  isOurTool n = true ->
  getCanonicalToolName n = "web_search" \/ getCanonicalToolName n = "web_reader".
Proof.
  unfold isOurTool, getCanonicalToolName, includes, OUR_TOOL_NAMES, TOOL_ALIASES.
  cbn [existsb assoc]. by_name n. simpl. discriminate.
Qed.


Ltac step_loop :=
  cbn [Executor.loop];
  repeat match goal with
         | |- context [match ?x with _ => _ end] => destruct x eqn:?
         | |- context [if ?x then _ else _] => destruct x eqn:?
         end.

Lemma loop_bounds (glmRequest : glm_request) (rem : nat) :
  forall (it c : nat) (msgs : list message) (log : list glm_request) (w : world),
    let r := loop glmRequest rem it c msgs log w in
    it <= iterations r <= it + rem
    /\ length (calls r) <= length log + (iterations r - it) + 1
    /\ length log + (iterations r - it) <= length (calls r).
Proof.
  induction rem as [|rem IH]; intros it c msgs log w; cbv zeta.
  - simpl. lia.
  - step_loop; cbn [calls iterations]; rewrite ?length_app; cbn [length];
      try lia.
    all: match goal with
         | |- context [loop _ _ ?i ?c' ?m ?l ?w'] =>
             specialize (IH i c' m l w'); cbv zeta in IH;
             rewrite ?length_app in IH; cbn [length] in IH; lia
         end.
Qed.

(** X5.  Whatever the backend answers, executeWithTools runs at most
    [maxIterations] passes and makes at most [maxIterations + 1] backend
    calls (one per pass, plus at most the forced final call); with
    [maxIterations = 0] it calls nothing and throws the ToolExecutionError
    of the iteration cap at once. *)
Theorem backend_calls_are_bounded (glmRequest : glm_request) (w : world) :
  let r := executeWithTools glmRequest w in
  iterations r <= maxIterations cfg
  /\ length (calls r) <= maxIterations cfg + 1
  /\ iterations r <= length (calls r) <= iterations r + 1
  /\ (maxIterations cfg = 0 -> calls r = [] /\ outcome r = Throw cap_error).
Proof.
  cbv zeta. unfold Executor.executeWithTools.
  pose proof (loop_bounds glmRequest (maxIterations cfg) 0 0
                (messages glmRequest) [] w) as H.
  cbv zeta in H. cbn [length] in H.
  split; [lia|]. split; [lia|]. split; [lia|].
  intros E. rewrite E. split; reflexivity.
Qed.

(** X6.  When the first answer holds no call that the proxy handles
    itself (no assistant message, no tool calls, or client calls only),
    the loop is a pass-through: one backend call, the response returned
    as received, the conversation untouched. *)
Theorem no_internal_call_is_a_pass_through
        (glmRequest : glm_request) (w w1 : world) (resp : response) :
  1 <= maxIterations cfg ->
  callGlmFn (request_at glmRequest (messages glmRequest)) w = (Ok resp, w1) ->
  (forall am, choice_message resp = Some am ->
              filter is_ours (am_tool_calls am) = []) ->
  let r := executeWithTools glmRequest w in
  outcome r = Ok resp
  /\ calls r = [request_at glmRequest (messages glmRequest)]
  /\ history r = messages glmRequest
  /\ iterations r = 1
  /\ final_world r = w1.
Proof.
  intros Hmax Hcall Hnone. cbv zeta. unfold Executor.executeWithTools.
  destruct (maxIterations cfg) as [|n]; [lia|].
  cbn [Executor.loop]. fold (request_at glmRequest (messages glmRequest)).
  rewrite Hcall.
  destruct (choice_message resp) as [am|] eqn:Eam; [|repeat split].
  destruct (length (am_tool_calls am) =? 0); [repeat split|].
  rewrite (Hnone am eq_refl). cbn [length Nat.eqb]. repeat split.
Qed.

(** X7.  When one answer mixes internal and client calls, the internal
    ones are executed in that pass and the loop returns at once: the
    response handed back carries exactly the client calls, in their
    order, with the content and the rest of the payload unchanged, and
    no further backend call is made. *)
Theorem mixed_answer_returns_the_client_calls
        (glmRequest : glm_request) (w w1 : world) (resp : response)
        (am : assistant_message) :
  1 <= maxIterations cfg ->
  callGlmFn (request_at glmRequest (messages glmRequest)) w = (Ok resp, w1) ->
  choice_message resp = Some am ->
  filter is_ours (am_tool_calls am) <> [] ->
  filter is_client (am_tool_calls am) <> [] ->
  let r := executeWithTools glmRequest w in
  let ourCalls := filter is_ours (am_tool_calls am) in
  outcome r
  = Ok {| choice_message :=
            Some {| am_content := am_content am;
                    am_tool_calls := filter is_client (am_tool_calls am) |};
          payload := payload resp |}
  /\ calls r = [request_at glmRequest (messages glmRequest)]
  /\ history r
     = push_round (messages glmRequest) am ourCalls (fst (executeAll ourCalls w1))
  /\ final_world r = snd (executeAll ourCalls w1).
Proof.
  intros Hmax Hcall Ham Hours Hclient. cbv zeta.
  unfold Executor.executeWithTools.
  destruct (maxIterations cfg) as [|n]; [lia|].
  cbn [Executor.loop]. fold (request_at glmRequest (messages glmRequest)).
  rewrite Hcall, Ham.
  destruct (am_tool_calls am) as [|tc0 tcs] eqn:Etc; [now simpl in Hours|].
  rewrite <- Etc in *.
  replace (length (am_tool_calls am) =? 0) with false
    by (rewrite Etc; reflexivity).
  destruct (filter is_ours (am_tool_calls am)) as [|o os] eqn:Eo; [congruence|].
  destruct (filter is_client (am_tool_calls am)) as [|k ks] eqn:Ek; [congruence|].
  cbn [length Nat.eqb andb Nat.ltb Nat.leb].
  destruct (executeAll (o :: os) w1) as [results w2]. cbn [fst snd].
  repeat split.
Qed.

Lemma rounds_one (content : option string) (ourCalls : list tool_call)
      (results : list string) :
  length results = length ourCalls ->
  rounds (round content ourCalls results).
Proof.
  intros H. rewrite <- (app_nil_r (round _ _ _)).
  apply rounds_cons; [exact H|constructor].
Qed.

Lemma push_round_round (msgs : list message) (am : assistant_message)
      (ourCalls : list tool_call) (results : list string) :
  push_round msgs am ourCalls results
  = msgs ++ round (or_null (am_content am)) ourCalls results.
Proof. reflexivity. Qed.

Lemma executeAll_fst_length (ourCalls : list tool_call) (w : world)
      (results : list string) (w2 : world) :
  executeAll ourCalls w = (results, w2) -> length results = length ourCalls.
Proof.
  intros H. pose proof (executeAll_length world JSON_parse callMcp reg ourCalls w) as E.
  now rewrite H in E.
Qed.

Lemma extends_first (glmRequest : glm_request) (msgs added : list message) :
  extends msgs added (request_at glmRequest msgs).
Proof. exists [], added. repeat split; [constructor|]. simpl. now rewrite app_nil_r. Qed.

Lemma extends_final (glmRequest : glm_request) (msgs added : list message) :
  rounds added -> extends msgs added (forced_final (msgs ++ added)).
Proof. intros H. exists added, []. rewrite app_nil_r. repeat split; auto. Qed.

Lemma extends_later (glmRequest : glm_request) (msgs first added : list message)
      (req : glm_request) :
  (exists c o r, first = round c o r /\ length r = length o) ->
  extends (msgs ++ first) added req ->
  extends msgs (first ++ added) req.
Proof.
  intros (c & o & r & -> & Hl) (pre & post & -> & Hr & Hm).
  exists (round c o r ++ pre), post. rewrite <- !app_assoc.
  repeat split; [now apply rounds_cons|].
  now rewrite Hm, <- app_assoc.
Qed.

Lemma loop_history (glmRequest : glm_request) (rem : nat) :
  forall (it c : nat) (msgs : list message) (log : list glm_request) (w : world),
  exists (added : list message) (new : list glm_request),
    history (loop glmRequest rem it c msgs log w) = msgs ++ added
    /\ rounds added
    /\ calls (loop glmRequest rem it c msgs log w) = log ++ new
    /\ Forall (extends msgs added) new.
Proof.
  induction rem as [|rem IH]; intros it c msgs log w.
  - exists [], []. simpl. rewrite !app_nil_r. repeat split; constructor.
  - cbn [Executor.loop]. fold (request_at glmRequest msgs).
    destruct (callGlmFn (request_at glmRequest msgs) w) as [[resp|e] w1].
    2:{ exists [], [request_at glmRequest msgs]. cbn [history calls].
        rewrite app_nil_r. repeat split; try constructor.
        - apply extends_first.
        - constructor. }
    assert (Hstop : forall (o : result response) (lgw : world),
               let r := Build_run world o (log ++ [request_at glmRequest msgs])
                                  msgs (S it) lgw in
               exists (added : list message) (new : list glm_request),
                 history r = msgs ++ added
                 /\ rounds added
                 /\ calls r = log ++ new
                 /\ Forall (extends msgs added) new).
    { intros o lgw. exists [], [request_at glmRequest msgs]. cbn [history calls].
      rewrite app_nil_r. repeat split; try constructor.
      - apply extends_first.
      - constructor. }
    destruct (choice_message resp) as [am|]; [|apply Hstop].
    destruct (length (am_tool_calls am) =? 0); [apply Hstop|].
    destruct (length (filter is_ours (am_tool_calls am)) =? 0); [apply Hstop|].
    set (ourCalls := filter is_ours (am_tool_calls am)).
    destruct (executeAll ourCalls w1) as [results w2] eqn:Ex.
    pose proof (executeAll_fst_length _ _ _ _ Ex) as Hl.
    rewrite push_round_round.
    set (first := round (or_null (am_content am)) ourCalls results).
    assert (Hfirst : exists c0 o r, first = round c0 o r /\ length r = length o)
      by (eexists _, _, _; split; [reflexivity|exact Hl]).
    assert (Hr1 : rounds first) by now apply rounds_one.
    destruct ((length (filter is_client (am_tool_calls am)) =? 0)
              && (maxConsecutiveInternal' cfg
                  <? (if length (filter is_client (am_tool_calls am)) =? 0
                      then S c else 0))).
    + fold (forced_final (msgs ++ first)).
      destruct (callGlmFn (forced_final (msgs ++ first)) w2) as [fr w3].
      exists first, [request_at glmRequest msgs; forced_final (msgs ++ first)].
      cbn [history calls]. rewrite <- app_assoc.
      repeat split; auto.
      constructor; [apply extends_first|].
      constructor; [now apply extends_final|constructor].
    + destruct (0 <? length (filter is_client (am_tool_calls am))).
      * exists first, [request_at glmRequest msgs]. cbn [history calls].
        repeat split; auto.
        constructor; [apply extends_first|constructor].
      * destruct (IH (S it)
                     (if length (filter is_client (am_tool_calls am)) =? 0
                      then S c else 0)
                     (msgs ++ first) (log ++ [request_at glmRequest msgs]) w2)
          as (added & new & H1 & H2 & H3 & H4).
        exists (first ++ added), (request_at glmRequest msgs :: new).
        rewrite H1, H3, <- !app_assoc. repeat split.
        -- destruct Hfirst as (c0 & o & r & -> & Hlr). now apply rounds_cons.
        -- constructor; [apply extends_first|].
           eapply Forall_impl; [|exact H4].
           intros req. now apply extends_later.
Qed.

(** X8.  The loop only ever appends to the conversation, and only
    complete rounds: an assistant message with the internal calls
    followed by one tool message per call, with that call's id, in
    order.  Every request sent to the backend carries the original
    messages followed by some of these complete rounds. *)
Theorem history_grows_by_complete_rounds (glmRequest : glm_request) (w : world) :
  let r := executeWithTools glmRequest w in
  exists added : list message,
    history r = messages glmRequest ++ added
    /\ rounds added
    /\ Forall (fun req =>
                 exists pre post : list message,
                   added = pre ++ post /\ rounds pre
                   /\ messages req = messages glmRequest ++ pre)
              (calls r).
Proof.
  cbv zeta. unfold Executor.executeWithTools.
  destruct (loop_history glmRequest (maxIterations cfg) 0 0
              (messages glmRequest) [] w) as (added & new & H1 & H2 & H3 & H4).
  exists added. rewrite H3. cbn [app]. repeat split; auto.
Qed.

End ExecutorMore.


Lemma no_internal_call_is_a_pass_through_witness :
  Executor.outcome
    (Executor.executeWithTools unit ExecutorAux.mixed_backend ExecutorExample.parse
       ExecutorExample.mcp [] ExecutorAux.search_off ExecutorExample.request tt)
  = Ok ExecutorAux.mixed_response.
Proof.
  apply (no_internal_call_is_a_pass_through unit ExecutorAux.mixed_backend
           ExecutorExample.parse ExecutorExample.mcp [] ExecutorAux.search_off
           ExecutorExample.request tt tt ExecutorAux.mixed_response).
  - simpl. lia.
  - reflexivity.
  - intros am [= <-]. reflexivity.
Defined.

Lemma mixed_answer_returns_the_client_calls_witness :
  Executor.outcome
    (Executor.executeWithTools unit ExecutorAux.mixed_backend ExecutorExample.parse
       ExecutorExample.mcp [] (ExecutorExample.shipped 10) ExecutorExample.request tt)
  = Ok {| Executor.choice_message :=
            Some {| Executor.am_content := Some "Looking."%string;
                    Executor.am_tool_calls := [ExecutorAux.read_call] |};
          Executor.payload := "usage"%string |}.
Proof.
  apply (mixed_answer_returns_the_client_calls unit ExecutorAux.mixed_backend
           ExecutorExample.parse ExecutorExample.mcp [] (ExecutorExample.shipped 10)
           ExecutorExample.request tt tt ExecutorAux.mixed_response
           ExecutorAux.mixed_message).
  - simpl. lia.
  - reflexivity.
  - reflexivity.
  - vm_compute. discriminate.
  - vm_compute. discriminate.
Defined.

(** ** Streaming engine: closing, filtering and the message start *)

Section StreamMore.
Import Splitter Stream StreamAux.
Local Open Scope string_scope.
Local Open Scope list_scope.
Local Open Scope Z_scope.

Variable thinkingEnabled : bool.
Variable shouldHandleInternally : string -> bool.
Variable JSON_parses : string -> bool.

Local Abbreviation on_event :=
  (Stream.on_event thinkingEnabled shouldHandleInternally JSON_parses).
Local Abbreviation engine :=
  (Stream.streamAnthropicWithToolDetection thinkingEnabled shouldHandleInternally
                                           JSON_parses).
Local Abbreviation ok := (wire_ok thinkingEnabled shouldHandleInternally).
Local Abbreviation grows := (StreamAux.grows thinkingEnabled shouldHandleInternally).

(** *** What the read loop writes *)

Lemma grows_refl (s : state) : grows s s.
Proof. exists []. now rewrite app_nil_r. Qed.

Lemma grows_same (s s' : state) : written s' = written s -> grows s s'.
Proof. intros H. exists []. now rewrite app_nil_r. Qed.

Lemma grows_trans (s1 s2 s3 : state) : grows s1 s2 -> grows s2 s3 -> grows s1 s3.
Proof.
  intros (n1 & H1 & F1) (n2 & H2 & F2). exists (n1 ++ n2).
  rewrite H2, H1, app_assoc, forallb_app, F1, F2. auto.
Qed.

Lemma grows_write (e : out_event) (s : state) : ok e = true -> grows s (write e s).
Proof. intros H. exists [e]. cbn. now rewrite H. Qed.

Lemma grows_if (c : bool) (s a b : state) :
  grows s a -> grows s b -> grows s (if c then a else b).
Proof. destruct c; auto. Qed.

Ltac grow :=
  first [ apply grows_same; reflexivity
        | eexists; split;
          [ cbn; rewrite <- ?app_assoc; reflexivity | cbn; try reflexivity ] ].

Lemma grows_startTextBlock (s : state) : grows s (startTextBlock s).
Proof.
  unfold startTextBlock, ensureMessageStart.
  destruct (textBlockStarted s), (messageStartSent s); grow.
Qed.

Lemma grows_startParsedThinkingBlock (s : state) :
  grows s (startParsedThinkingBlock s).
Proof.
  unfold startParsedThinkingBlock, ensureMessageStart.
  destruct (parsedThinkingBlockStarted s), (messageStartSent s); grow.
Qed.

Lemma grows_closeParsedThinkingBlock (s : state) :
  grows s (closeParsedThinkingBlock s).
Proof. unfold closeParsedThinkingBlock. destruct (parsedThinkingBlockStarted s); grow. Qed.

Lemma grows_emitSegment (s : state) (sg : segment) : grows s (emitSegment s sg).
Proof.
  unfold emitSegment. destruct (truthy _); [|apply grows_refl].
  destruct (Splitter.type sg); unfold emitThinkingDelta, emitTextDelta.
  - eapply grows_trans; [apply grows_startParsedThinkingBlock|].
    now apply grows_write.
  - eapply grows_trans; [apply grows_closeParsedThinkingBlock|].
    eapply grows_trans; [apply grows_startTextBlock|].
    now apply grows_write.
Qed.

Lemma grows_emitSegments (segments : list segment) (s : state) :
  grows s (emitSegments segments s).
Proof.
  unfold emitSegments. revert s.
  induction segments as [|sg rest IH]; intros s; simpl; [apply grows_refl|].
  eapply grows_trans; [apply grows_emitSegment|apply IH].
Qed.

Lemma grows_on_choices (rc c : jsstring) (f : string) (s : state) :
  grows s (on_choices rc c f s).
Proof.
  unfold on_choices.
  destruct (truthy rc), (truthy c), f as [|a f'];
    destruct (thinkingBlockStarted s), (textBlockStarted s), (messageStartSent s);
    cbn;
    repeat match goal with
           | |- context [if ?b then _ else _] => destruct b; cbn
           end;
    grow.
Qed.

Lemma eqb_other (a b c : string) :
  String.eqb a b = true -> String.eqb b c = false -> String.eqb a c = false.
Proof. intros H. apply String.eqb_eq in H. now subst. Qed.

Lemma grows_on_content_block_start (index : Z) (block : content_block) (s : state) :
  grows s (on_content_block_start thinkingEnabled shouldHandleInternally
                                  index block s).
Proof.
  unfold on_content_block_start, keep.
  destruct (has SERVER_TOOL_TYPES (block_type block)); [grow|].
  destruct (has VALID_CONTENT_TYPES (block_type block)) eqn:Ev; [|grow].
  cbn [negb].
  destruct (String.eqb (block_type block) "thinking") eqn:Et.
  { eapply grows_trans; [|apply grows_write]; [grow|].
    unfold wire_ok, forwarded_start_ok, passes_filter.
    rewrite Ev, (eqb_other _ _ "tool_use" Et), (eqb_other _ _ "text" Et);
      reflexivity. }
  destruct (String.eqb (block_type block) "tool_use") eqn:Eu.
  { destruct (shouldHandleInternally (block_name block)) eqn:Ei; [grow|].
    eapply grows_trans; [|apply grows_write]; [grow|].
    unfold wire_ok, forwarded_start_ok, passes_filter.
    rewrite Ev, Eu, Ei, (eqb_other _ _ "text" Eu); reflexivity. }
  destruct (String.eqb (block_type block) "text" && thinkingEnabled) eqn:Ex;
    [apply grows_refl|].
  apply grows_write.
  unfold wire_ok, forwarded_start_ok, passes_filter.
  rewrite Ev, Eu, Ex. reflexivity.
Qed.

Lemma grows_on_content_block_delta (index : Z) (d : delta) (s : state) :
  grows s (on_content_block_delta thinkingEnabled shouldHandleInternally
                                  index d s).
Proof.
  unfold on_content_block_delta, keep.
  destruct (skipping index s); [apply grows_refl|].
  destruct d, (currentToolUse s);
    try destruct (shouldHandleInternally _);
    try apply grows_if;
    try destruct (processChunk _ _) as [p segments];
    try (eapply grows_trans; [|apply grows_emitSegments]);
    grow.
Qed.

Lemma grows_on_content_block_stop (index : Z) (s : state) :
  grows s (on_content_block_stop thinkingEnabled shouldHandleInternally
                                 JSON_parses index s).
Proof.
  unfold on_content_block_stop.
  destruct (skipping index s).
  { destruct (serverToolInProgress s); grow. }
  destruct (currentToolUse s) as [tu|].
  { destruct (match tu_input tu with EmptyString => true | _ => _ end);
      [destruct (shouldHandleInternally _)|]; grow. }
  destruct (nativeThinkingBlockActive s); [grow|].
  apply grows_if; [|grow].
  destruct (flush _) as [p segs].
  match goal with
  | |- grows s (if textBlockStarted ?x then _ else _) =>
      assert (Hx : grows s x)
  end.
  { eapply grows_trans; [|apply grows_closeParsedThinkingBlock].
    eapply grows_trans; [|apply grows_emitSegments]. grow. }
  match goal with
  | |- grows s (if ?b then _ else _) => destruct b; [|exact Hx]
  end.
  eapply grows_trans; [exact Hx|]. now apply grows_write.
Qed.

Lemma grows_on_event (s : state) (event : upstream) : grows s (on_event s event).
Proof.
  destruct event; cbn [Stream.on_event].
  - apply grows_on_choices.
  - destruct (messageStartSent s); grow.
  - apply grows_on_content_block_start.
  - apply grows_on_content_block_delta.
  - apply grows_on_content_block_stop.
  - destruct stop_reason; grow.
  - apply grows_refl.
  - grow.
Qed.

Lemma grows_engine (evs : list upstream) (rf : bool) (s : state) :
  grows s (engine evs rf s).
Proof.
  unfold streamAnthropicWithToolDetection.
  assert (Hf : forall l s0, grows s0 (fold_left on_event l s0)).
  { induction l as [|e l IH]; intros s0; simpl; [apply grows_refl|].
    eapply grows_trans; [apply grows_on_event|apply IH]. }
  assert (He : grows s (fold_left on_event evs (enter s))).
  { eapply grows_trans; [|apply Hf]. grow. }
  destruct rf; [|exact He].
  eapply grows_trans; [exact He|]. now apply grows_write.
Qed.

Variable maxToolIterations : nat.
Variable fetch : nat -> body.

Local Abbreviation streamFromAnthropic :=
  (Stream.streamFromAnthropic thinkingEnabled shouldHandleInternally JSON_parses fetch).

Lemma forallb_impl {A : Type} (f g : A -> bool) (l : list A) :
  (forall x, f x = true -> g x = true) -> forallb f l = true -> forallb g l = true.
Proof.
  intros H. induction l as [|x l IH]; simpl; auto.
  intros E. apply andb_true_iff in E as [E1 E2]. now rewrite (H x E1), IH.
Qed.

Lemma ok_not_final (e : out_event) : ok e = true -> negb (is_final e) = true.
Proof. unfold wire_ok. intros H. now apply andb_true_iff in H as [_ H]. Qed.

Lemma ok_start (e : out_event) :
  ok e = true -> forwarded_start_ok thinkingEnabled shouldHandleInternally e = true.
Proof. unfold wire_ok. intros H. now apply andb_true_iff in H as [H _]. Qed.

(** The shape of everything written by one response, from [s] on. *)
Lemma streamFromAnthropic_shape (remaining : nat) :
  forall (toolIteration : nat) (s : state),
  exists pre : list out_event,
    forallb ok pre = true
    /\ ((exists r, written (streamFromAnthropic remaining toolIteration s)
                   = written s ++ pre ++ [out_message_delta r; out_message_stop])
        \/ (exists m, written (streamFromAnthropic remaining toolIteration s)
                      = written s ++ pre ++ [out_error m])).
Proof.
  induction remaining as [|remaining IH]; intros t s;
    cbn [Stream.streamFromAnthropic];
    (destruct (fetch t) as [m|evs rf];
     [exists []; split; [reflexivity|]; right; exists m; reflexivity|]);
    destruct (grows_engine evs rf s) as (new & Hw & Hn);
    set (result := engine evs rf s) in *.
  - exists new. split; [exact Hn|]. left.
    destruct (internalToolCalls result); [destruct (clientToolCalls result)|];
      eexists; cbn; rewrite Hw, <- !app_assoc; reflexivity.
  - destruct (internalToolCalls result).
    + exists new. split; [exact Hn|]. left.
      destruct (clientToolCalls result);
        eexists; cbn; rewrite Hw, <- !app_assoc; reflexivity.
    + destruct (IH (S t) result) as (pre & Hp & Hshape).
      exists (new ++ pre). rewrite forallb_app, Hn, Hp. split; [reflexivity|].
      destruct Hshape as [[r Hr] | [m Hm]]; [left; exists r | right; exists m].
      * rewrite Hr, Hw, <- !app_assoc. reflexivity.
      * rewrite Hm, Hw, <- !app_assoc. reflexivity.
Qed.

(** X9.  Every logical streamed response, tool continuations included,
    is closed exactly once: it ends with one message_delta followed by
    one message_stop, or - when a backend fetch failed - with an error
    event; no other message_delta or message_stop is written, upstream
    ones are never forwarded. *)
Theorem response_is_closed_once :
  let tr := response thinkingEnabled shouldHandleInternally JSON_parses
                     maxToolIterations fetch in
  exists pre : list out_event,
    forallb (fun e => negb (is_final e)) pre = true
    /\ ((exists r, tr = pre ++ [out_message_delta r; out_message_stop])
        \/ (exists m, tr = pre ++ [out_error m])).
Proof.
  cbv zeta. unfold response.
  destruct (streamFromAnthropic_shape maxToolIterations 0%nat Stream.initial)
    as (pre & Hp & Hs).
  exists pre. split; [|exact Hs].
  revert Hp. apply forallb_impl. apply ok_not_final.
Qed.

(** X10.  Every content_block_start that the engine forwards from
    upstream has a valid Anthropic content type, is not a tool_use block
    of a tool the proxy runs itself, and is not a text block when the
    text is re-cut by the reasoning-tag parser: server-side tool blocks,
    unknown block types and internal tool calls never reach the client. *)
Theorem forwarded_block_starts_are_filtered :
  forallb (forwarded_start_ok thinkingEnabled shouldHandleInternally)
          (response thinkingEnabled shouldHandleInternally JSON_parses
                    maxToolIterations fetch) = true.
Proof.
  unfold response.
  destruct (streamFromAnthropic_shape maxToolIterations 0%nat Stream.initial)
    as (pre & Hp & [[r ->] | [m ->]]);
    cbn [written Stream.initial app]; rewrite forallb_app;
    rewrite (forallb_impl _ _ pre ok_start Hp); reflexivity.
Qed.

(** *** The single message_start *)

Lemma message_start_first_snoc (tr : list out_event) (e : out_event) :
  forall seen : bool,
    message_start_first seen (tr ++ [e])
    = message_start_first seen tr
      && (if is_message_start e
          then negb (seen || existsb is_message_start tr)
          else if is_own_start e
               then seen || existsb is_message_start tr
               else true).
Proof.
  induction tr as [|x tr IH]; intros seen.
  - cbn [app message_start_first existsb].
    rewrite orb_false_r.
    destruct (is_message_start e), (is_own_start e), seen; reflexivity.
  - cbn [app message_start_first existsb].
    destruct (is_message_start x) eqn:Ex.
    + rewrite IH. cbn [orb]. rewrite orb_true_r, andb_assoc. reflexivity.
    + cbn [orb]. destruct (is_own_start x); rewrite IH; [|reflexivity].
      now rewrite andb_assoc.
Qed.

Lemma kept_other (flag : bool) (tr : list out_event) (e : out_event) :
  is_message_start e = false -> is_own_start e = false ->
  kept flag tr -> kept flag (tr ++ [e]).
Proof.
  intros H1 H2 [Ha Hb]. split.
  - now rewrite message_start_first_snoc, Ha, H1, H2.
  - rewrite existsb_app, Hb. cbn. rewrite H1. now rewrite !orb_false_r.
Qed.

Lemma kept_message_start (tr : list out_event) (e : out_event) :
  is_message_start e = true -> kept false tr -> kept true (tr ++ [e]).
Proof.
  intros H1 [Ha Hb]. split.
  - now rewrite message_start_first_snoc, Ha, H1, Hb.
  - rewrite existsb_app. cbn. rewrite H1. now rewrite orb_true_r.
Qed.

Lemma kept_own_start (tr : list out_event) (i : Z) (k : kind) :
  kept true tr -> kept true (tr ++ [out_block_start i k]).
Proof.
  intros [Ha Hb]. split.
  - rewrite message_start_first_snoc, Ha, Hb. reflexivity.
  - rewrite existsb_app, Hb. reflexivity.
Qed.

Ltac kept_tac :=
  repeat first
         [ assumption
         | apply kept_own_start
         | apply kept_message_start; [reflexivity|]
         | apply kept_other; [reflexivity|reflexivity|] ].

Lemma kept_write (e : out_event) (s : state) :
  is_message_start e = false -> is_own_start e = false ->
  message_start_kept s -> message_start_kept (write e s).
Proof. unfold message_start_kept. cbn. intros H1 H2 H. now apply kept_other. Qed.

Lemma kept_same (s s' : state) :
  written s' = written s -> messageStartSent s' = messageStartSent s ->
  message_start_kept s -> message_start_kept s'.
Proof. unfold message_start_kept. now intros -> ->. Qed.

Lemma kept_startTextBlock (s : state) :
  message_start_kept s -> message_start_kept (startTextBlock s).
Proof.
  unfold message_start_kept, startTextBlock, ensureMessageStart.
  destruct (textBlockStarted s); auto.
  destruct (messageStartSent s) eqn:E; cbn; rewrite ?E; intros; kept_tac.
Qed.

Lemma kept_startParsedThinkingBlock (s : state) :
  message_start_kept s -> message_start_kept (startParsedThinkingBlock s).
Proof.
  unfold message_start_kept, startParsedThinkingBlock, ensureMessageStart.
  destruct (parsedThinkingBlockStarted s); auto.
  destruct (messageStartSent s) eqn:E; cbn; rewrite ?E; intros; kept_tac.
Qed.

Lemma kept_closeParsedThinkingBlock (s : state) :
  message_start_kept s -> message_start_kept (closeParsedThinkingBlock s).
Proof.
  unfold message_start_kept, closeParsedThinkingBlock.
  destruct (parsedThinkingBlockStarted s); cbn; intros; kept_tac.
Qed.

Lemma kept_emitSegment (s : state) (sg : segment) :
  message_start_kept s -> message_start_kept (emitSegment s sg).
Proof.
  intros H. unfold emitSegment. destruct (truthy _); auto.
  destruct (Splitter.type sg); unfold emitThinkingDelta, emitTextDelta.
  - apply kept_write; auto. now apply kept_startParsedThinkingBlock.
  - apply kept_write; auto. apply kept_startTextBlock.
    now apply kept_closeParsedThinkingBlock.
Qed.

Lemma kept_emitSegments (segments : list segment) (s : state) :
  message_start_kept s -> message_start_kept (emitSegments segments s).
Proof.
  unfold emitSegments. revert s.
  induction segments as [|sg rest IH]; intros s H; simpl; auto.
  apply IH. now apply kept_emitSegment.
Qed.

Lemma kept_on_choices (rc c : jsstring) (f : string) (s : state) :
  message_start_kept s -> message_start_kept (on_choices rc c f s).
Proof.
  unfold message_start_kept, on_choices.
  destruct (thinkingBlockStarted s) eqn:E1, (textBlockStarted s) eqn:E2,
           (messageStartSent s) eqn:E3;
    destruct (truthy rc), (truthy c), f as [|a f'];
    repeat (repeat (progress (cbn; rewrite ?E1, ?E2, ?E3));
            match goal with
            | |- context [if ?b then _ else _] =>
                lazymatch b with
                | context [if _ then _ else _] => fail
                | _ => destruct b
                end
            end);
    repeat (progress (cbn; rewrite ?E1, ?E2, ?E3));
    intros; kept_tac.
Qed.

Lemma kept_on_content_block_start (index : Z) (block : content_block) (s : state) :
  message_start_kept s ->
  message_start_kept (on_content_block_start thinkingEnabled shouldHandleInternally
                                             index block s).
Proof.
  intros H. unfold on_content_block_start, keep.
  repeat match goal with
         | |- context [if ?b then _ else _] => destruct b
         end;
    auto; apply kept_write; auto.
Qed.

Lemma kept_on_content_block_delta (index : Z) (d : delta) (s : state) :
  message_start_kept s ->
  message_start_kept (on_content_block_delta thinkingEnabled shouldHandleInternally
                                             index d s).
Proof.
  intros H. unfold on_content_block_delta, keep.
  destruct (skipping index s); auto.
  destruct d, (currentToolUse s);
    try destruct (shouldHandleInternally _);
    try destruct thinkingEnabled;
    try destruct (processChunk _ _) as [p segments];
    auto; try (apply kept_write; auto);
    apply kept_emitSegments; auto.
Qed.

Lemma kept_on_content_block_stop (index : Z) (s : state) :
  message_start_kept s ->
  message_start_kept (on_content_block_stop thinkingEnabled shouldHandleInternally
                                            JSON_parses index s).
Proof.
  intros H. unfold on_content_block_stop.
  destruct (skipping index s).
  { destruct (serverToolInProgress s); auto. }
  destruct (currentToolUse s) as [tu|].
  { destruct (match tu_input tu with EmptyString => true | _ => _ end); auto.
    destruct (shouldHandleInternally _); auto.
    apply (kept_same (write (forwarded (content_block_stop index)) s));
      [reflexivity|reflexivity|]. apply kept_write; auto. }
  destruct (nativeThinkingBlockActive s).
  { apply (kept_same (write (forwarded (content_block_stop index)) s));
      [reflexivity|reflexivity|]. apply kept_write; auto. }
  destruct thinkingEnabled; [|apply kept_write; auto].
  destruct (flush _) as [p segs].
  match goal with
  | |- message_start_kept (if textBlockStarted ?x then _ else _) =>
      assert (Hx : message_start_kept x)
        by (apply kept_closeParsedThinkingBlock, kept_emitSegments; auto);
      destruct (textBlockStarted x); auto; apply kept_write; auto
  end.
Qed.

Lemma kept_on_event (s : state) (event : upstream) :
  message_start_kept s -> message_start_kept (on_event s event).
Proof.
  intros H. destruct event; cbn [Stream.on_event].
  - now apply kept_on_choices.
  - revert H. unfold message_start_kept.
    destruct (messageStartSent s) eqn:E; cbn; rewrite ?E; intros; kept_tac.
  - now apply kept_on_content_block_start.
  - now apply kept_on_content_block_delta.
  - now apply kept_on_content_block_stop.
  - destruct stop_reason; auto.
  - auto.
  - apply kept_write; auto.
Qed.

Lemma kept_engine (evs : list upstream) (rf : bool) (s : state) :
  message_start_kept s -> message_start_kept (engine evs rf s).
Proof.
  intros H. unfold streamAnthropicWithToolDetection.
  assert (Hf : forall l s0, message_start_kept s0 ->
                            message_start_kept (fold_left on_event l s0)).
  { induction l as [|e l IH]; intros s0 H0; simpl; auto.
    apply IH. now apply kept_on_event. }
  destruct rf; [apply kept_write; auto|]; apply Hf; exact H.
Qed.

Lemma kept_streamFromAnthropic (remaining : nat) :
  forall (toolIteration : nat) (s : state),
    message_start_kept s ->
    message_start_kept (streamFromAnthropic remaining toolIteration s).
Proof.
  induction remaining as [|remaining IH]; intros t s H;
    cbn [Stream.streamFromAnthropic];
    (destruct (fetch t) as [m|evs rf]; [apply kept_write; auto|]);
    pose proof (kept_engine evs rf s H) as He;
    set (result := engine evs rf s) in *;
    destruct (internalToolCalls result); try destruct (clientToolCalls result);
    auto; unfold sendFinalEvents; repeat (apply kept_write; auto).
Qed.

(** X11.  A logical streamed response carries at most one
    message_start, however many backend streams it is assembled from,
    and every content_block_start that the engine builds itself comes
    after it. *)
Theorem message_start_is_sent_once :
  let tr := response thinkingEnabled shouldHandleInternally JSON_parses
                     maxToolIterations fetch in
  message_start_first false tr = true
  /\ (length (filter is_message_start tr) <= 1)%nat.
Proof.
  cbv zeta. unfold response.
  destruct (kept_streamFromAnthropic maxToolIterations 0%nat Stream.initial)
    as [H1 _].
  { split; reflexivity. }
  split; [exact H1|].
  revert H1. generalize (written (streamFromAnthropic maxToolIterations 0%nat
                                    Stream.initial)).
  assert (Hg : forall (l : list out_event) (seen : bool),
             message_start_first seen l = true ->
             (length (filter is_message_start l) + (if seen then 1 else 0) <= 1)%nat).
  { induction l as [|e l IH]; intros seen; cbn [message_start_first filter length].
    - destruct seen; simpl; lia.
    - destruct (is_message_start e).
      + intros H. apply andb_true_iff in H as [Hs H].
        destruct seen; [discriminate|]. apply IH in H. simpl in *. lia.
      + destruct (is_own_start e); intros H.
        * apply andb_true_iff in H as [_ H]. now apply IH.
        * now apply IH. }
  intros l H. specialize (Hg l false H). simpl in Hg. lia.
Qed.

End StreamMore.

(** ** Request validation *)

Section ValidateProofs.
Import Router Validate.
Local Open Scope list_scope.
Local Open Scope string_scope.

(** *** Validation throws nothing but InvalidRequestError *)

Lemma nte_seq {A B : Type} (c : checked A) (k : A -> checked B) :
  never_type_error c -> (forall a, c = Pass a -> never_type_error (k a)) ->
  never_type_error (and_then c k).
Proof. destruct c as [a|[m|m]]; simpl; auto. Qed.

Lemma nte_reject_if (bad : bool) (message : string) :
  never_type_error (reject_if bad message).
Proof. destruct bad; exact I. Qed.

Lemma reject_if_pass (bad : bool) (message : string) (u : unit) :
  reject_if bad message = Pass u -> bad = false.
Proof. destruct bad; [discriminate|reflexivity]. Qed.

Lemma nte_if {A : Type} (b : bool) (x y : checked A) :
  never_type_error x -> never_type_error y ->
  never_type_error (if b then x else y).
Proof. destruct b; auto. Qed.

Lemma object_cases (v : value) :
  falsy v || negb (is_object v) = false ->
  (exists items, v = VArr items) \/ (exists fields, v = VObj fields).
Proof.
  intros H. apply orb_false_iff in H as [H1 H2].
  destruct v; try discriminate H1; try discriminate H2; eauto.
Qed.

Lemma read_object (v : value) (k : string) :
  falsy v || negb (is_object v) = false -> exists x, read v k = Pass x.
Proof.
  intros H. destruct (object_cases v H) as [[items ->] | [fields ->]];
    simpl; eauto.
Qed.

(** After the object check, a property read and what follows. *)
Lemma nte_read {B : Type} (v : value) (key : string) (k : value -> checked B) :
  falsy v || negb (is_object v) = false ->
  (forall x, never_type_error (k x)) ->
  never_type_error (and_then (read v key) k).
Proof.
  intros H Hk. destruct (read_object v key H) as [x ->]. apply Hk.
Qed.

Lemma nte_source_checks (block : value) (here what : string) :
  falsy block || negb (is_object block) = false ->
  never_type_error (source_checks block here what).
Proof.
  intros Hb. unfold source_checks. apply nte_read; [exact Hb|]. intros source.
  apply nte_seq; [apply nte_reject_if|]. intros u Hu. apply reject_if_pass in Hu.
  apply nte_read; [exact Hu|]. intros stype.
  apply nte_seq; [apply nte_reject_if|]. intros _ _.
  apply nte_seq.
  - apply nte_if; [|exact I]. apply nte_read; [exact Hu|].
    intros data. apply nte_reject_if.
  - intros _ _. apply nte_if; [|exact I]. apply nte_read; [exact Hu|].
    intros url. apply nte_reject_if.
Qed.

Lemma nte_validateContentBlock (block : value) (msgIndex blockIndex : nat) :
  never_type_error (validateContentBlock block msgIndex blockIndex).
Proof.
  unfold validateContentBlock. cbv zeta.
  apply nte_seq; [apply nte_reject_if|].
  intros u Hu. apply reject_if_pass in Hu.
  apply nte_read; [exact Hu|]. intros type.
  apply nte_seq; [apply nte_reject_if|]. intros _ _.
  apply nte_seq; [apply nte_reject_if|]. intros _ _.
  repeat apply nte_if;
    try (now apply nte_source_checks);
    try exact I;
    repeat first [ apply nte_reject_if
                 | apply nte_read; [exact Hu|intros ?]
                 | apply nte_seq; [apply nte_reject_if|intros _ _] ].
Qed.

Lemma nte_validateContentBlocks (blocks : list value) (msgIndex : nat) :
  forall j, never_type_error (validateContentBlocks blocks msgIndex j).
Proof.
  induction blocks as [|b rest IH]; intros j; simpl; [exact I|].
  apply nte_seq; [apply nte_validateContentBlock|]. intros _ _. apply IH.
Qed.

Lemma nte_validateMessage (msg : value) (index : nat) :
  never_type_error (validateMessage msg index).
Proof.
  unfold validateMessage. cbv zeta.
  apply nte_seq; [apply nte_reject_if|].
  intros u Hu. apply reject_if_pass in Hu.
  apply nte_read; [exact Hu|]. intros role.
  apply nte_seq; [apply nte_reject_if|]. intros _ _.
  apply nte_seq; [apply nte_reject_if|]. intros _ _.
  apply nte_read; [exact Hu|]. intros content.
  apply nte_seq; [apply nte_reject_if|]. intros _ _.
  apply nte_seq; [apply nte_reject_if|]. intros _ _.
  destruct content; try exact I. apply nte_validateContentBlocks.
Qed.

Lemma nte_validateMessages (msgs : list value) :
  forall i, never_type_error (validateMessages msgs i).
Proof.
  induction msgs as [|m rest IH]; intros i; simpl; [exact I|].
  apply nte_seq; [apply nte_validateMessage|]. intros _ _. apply IH.
Qed.

Lemma nte_validateTool (tool : value) (index : nat) :
  never_type_error (validateTool tool index).
Proof.
  unfold validateTool. cbv zeta.
  apply nte_seq; [apply nte_reject_if|].
  intros u Hu. apply reject_if_pass in Hu.
  repeat first [ apply nte_reject_if
               | apply nte_read; [exact Hu|intros ?]
               | apply nte_seq; [apply nte_reject_if|intros _ _] ].
Qed.

Lemma nte_validateTools (tools : list value) :
  forall i, never_type_error (validateTools tools i).
Proof.
  induction tools as [|t rest IH]; intros i; simpl; [exact I|].
  apply nte_seq; [apply nte_validateTool|]. intros _ _. apply IH.
Qed.

Lemma nte_validateRequest (body : value) : never_type_error (validateRequest body).
Proof.
  unfold validateRequest.
  apply nte_seq; [apply nte_reject_if|].
  intros u Hu. apply reject_if_pass in Hu.
  apply nte_read; [exact Hu|]. intros messages.
  apply nte_seq; [apply nte_reject_if|]. intros _ _.
  apply nte_seq; [apply nte_reject_if|]. intros _ _.
  apply nte_seq.
  { destruct messages; try exact I.
    apply nte_seq; [apply nte_reject_if|]. intros _ _. apply nte_validateMessages. }
  intros _ _. apply nte_read; [exact Hu|]. intros max_tokens.
  apply nte_seq.
  { apply nte_if; [|exact I].
    apply nte_seq; [apply nte_reject_if|]. intros _ _. apply nte_reject_if. }
  intros _ _. apply nte_read; [exact Hu|]. intros temperature.
  apply nte_seq.
  { apply nte_if; [|exact I].
    apply nte_seq; [apply nte_reject_if|]. intros _ _. apply nte_reject_if. }
  intros _ _. apply nte_read; [exact Hu|]. intros tools.
  apply nte_seq.
  { apply nte_if; [|exact I].
    apply nte_seq; [apply nte_reject_if|]. intros _ _.
    destruct tools; try exact I. apply nte_validateTools. }
  intros _ _. apply nte_read; [exact Hu|]. intros system.
  apply nte_seq; [apply nte_reject_if|]. intros _ _. exact I.
Qed.


(** *** What an accepted request looks like *)

Lemma and_then_pass {A B : Type} (c : checked A) (k : A -> checked B) (b : B) :
  and_then c k = Pass b -> exists a, c = Pass a /\ k a = Pass b.
Proof. destruct c as [a|f]; simpl; [eauto|discriminate]. Qed.

Ltac invert H :=
  repeat match type of H with
         | and_then (reject_if _ _) _ = Pass _ =>
             let u := fresh "u" in
             let Hc := fresh "Hc" in
             apply and_then_pass in H as (u & Hc & H);
             apply reject_if_pass in Hc
         | and_then (read _ _) _ = Pass _ =>
             let x := fresh "x" in
             let Hr := fresh "Hr" in
             apply and_then_pass in H as (x & Hr & H)
         end.

Lemma read_get (v : value) (k : string) (x : value) :
  read v k = Pass x -> get v k = Ok x /\ readable v.
Proof.
  destruct v; simpl; try discriminate; intros [= <-];
    (split; [reflexivity|split; discriminate]).
Qed.

Lemma accepted_block (block : value) (i j : nat) :
  validateContentBlock block i j = Pass tt -> readable block.
Proof.
  unfold validateContentBlock. cbv zeta. intros H. invert H.
  now apply read_get in Hr.
Qed.

Lemma accepted_blocks (blocks : list value) (i : nat) :
  forall j, validateContentBlocks blocks i j = Pass tt -> Forall readable blocks.
Proof.
  induction blocks as [|b rest IH]; intros j H; [constructor|].
  simpl in H. apply and_then_pass in H as ([] & Hb & H).
  constructor; [now apply accepted_block in Hb | now apply IH in H].
Qed.

(** A message as validateMessage lets it through. *)
Lemma accepted_message (msg : value) (i : nat) :
  validateMessage msg i = Pass tt ->
  readable msg
  /\ (exists role, get msg "role" = Ok (VStr role)
                   /\ (role = "user" \/ role = "assistant"))
  /\ ((exists text, get msg "content" = Ok (VStr text))
      \/ (exists blocks, get msg "content" = Ok (VArr blocks)
                         /\ Forall readable blocks)).
Proof.
  unfold validateMessage. cbv zeta. intros H. invert H.
  apply read_get in Hr as [Hrole Hm]. apply read_get in Hr0 as [Hcontent _].
  split; [exact Hm|]. split.
  - unfold includes, validRoles in Hc1. cbn [existsb] in Hc1.
    apply negb_false_iff in Hc1. rewrite orb_false_r in Hc1.
    destruct x; try discriminate Hc1. exists s. split; [exact Hrole|].
    cbn [is_str] in Hc1. apply orb_true_iff in Hc1 as [E|E];
      apply String.eqb_eq in E; auto.
  - destruct x0; try discriminate Hc3; try discriminate Hc2.
    + left. eauto.
    + right. exists items. split; [exact Hcontent|].
      now apply accepted_blocks in H.
Qed.

Lemma accepted_messages (msgs : list value) :
  forall i, validateMessages msgs i = Pass tt ->
            Forall (fun msg => exists j, validateMessage msg j = Pass tt) msgs.
Proof.
  induction msgs as [|m rest IH]; intros i H; [constructor|].
  simpl in H. apply and_then_pass in H as ([] & Hm & H).
  constructor; [eauto | now apply IH in H].
Qed.

Lemma some_returns (f : value -> result bool) (l : list value) :
  (forall y, In y l -> exists r, f y = Ok r) -> exists r, some f l = Ok r.
Proof.
  induction l as [|y l IH]; intros Hall; simpl; [eauto|].
  destruct (Hall y (or_introl eq_refl)) as [r ->]. simpl.
  destruct r; [eauto|]. apply IH. intros z Hz. apply Hall. now right.
Qed.

Lemma accepted_message_scans (msg : value) (i : nat) :
  validateMessage msg i = Pass tt -> exists r, detectMedia_message msg = Ok r.
Proof.
  intros H. apply accepted_message in H as (_ & _ & [[text Ht] | (blocks & Hb & Hr)]);
    unfold detectMedia_message.
  - rewrite Ht. simpl. eauto.
  - rewrite Hb. cbn [bind contentHasMedia]. apply some_returns.
    intros y Hy. apply contentHasMedia_block_returns.
    now apply (proj1 (Forall_forall _ _) Hr).
Qed.

Lemma detectMedia_returns (msgs : list value) :
  Forall (fun msg => exists j, validateMessage msg j = Pass tt) msgs ->
  exists r, detectMedia (VArr msgs) = Ok r.
Proof.
  intros H. simpl. apply some_returns. intros y Hy.
  destruct (proj1 (Forall_forall _ _) H y Hy) as [j Hj].
  now apply accepted_message_scans in Hj.
Qed.

(** X13.  A request that validateRequest accepts has a non-empty
    [messages] array of objects whose role is ["user"] or ["assistant"],
    and nothing downstream of validation can trip on it: scanning all
    its messages for media returns, and so does the choice of endpoint
    and model, which handleMessages and the request transformers make
    from the last message. *)
Theorem accepted_request_can_be_routed (body : value) (cfg : config) :
  validateRequest body = Pass true ->
  exists msgs : list value,
    get body "messages" = Ok (VArr msgs)
    /\ msgs <> []
    /\ Forall (fun msg =>
                 readable msg
                 /\ exists role, get msg "role" = Ok (VStr role)
                                 /\ (role = "user" \/ role = "assistant"))
              msgs
    /\ (exists media, detectMedia (VArr msgs) = Ok media)
    /\ (exists endpoint model, route cfg msgs = Ok (endpoint, model)).
Proof.
  unfold validateRequest. intros H. invert H.
  apply read_get in Hr as [Hmessages _].
  destruct x; try discriminate Hc1.
  apply and_then_pass in H as ([] & Hm & _).
  invert Hm. apply Nat.eqb_neq in Hc2.
  pose proof (accepted_messages _ _ Hm) as Hall.
  exists items. split; [exact Hmessages|]. split.
  { intros ->. now apply Hc2. }
  split; [|split].
  - eapply Forall_impl; [|exact Hall].
    intros msg [j Hj]. apply accepted_message in Hj as (H1 & H2 & _). auto.
  - now apply detectMedia_returns.
  - destruct (exists_last (l := items)) as (earlier & m & ->).
    { intros ->. now apply Hc2. }
    assert (Hlast : Forall (fun msg => exists j, validateMessage msg j = Pass tt) [m]).
    { apply Forall_app in Hall as [_ Hl]. exact Hl. }
    destruct (detectMedia_returns _ Hlast) as [b Hb].
    rewrite (route_last cfg earlier m b Hb). eauto.
Qed.

Lemma accepted_request_can_be_routed_witness :
  exists msgs : list value,
    get sample_body "messages" = Ok (VArr msgs)
    /\ msgs <> []
    /\ Forall (fun msg =>
                 readable msg
                 /\ exists role, get msg "role" = Ok (VStr role)
                                 /\ (role = "user" \/ role = "assistant"))
              msgs
    /\ (exists media, detectMedia (VArr msgs) = Ok media)
    /\ (exists endpoint model, route default_config msgs = Ok (endpoint, model)).
Proof.
  apply (accepted_request_can_be_routed sample_body default_config).
  vm_compute. reflexivity.
Defined.

End ValidateProofs.

(** ** Reasoning prompt injection *)

Section ReasoningProofs.
Import Router Reasoning.
Local Open Scope string_scope.
Local Open Scope list_scope.

Lemma role_is_user_readable (msg : value) :
  readable msg -> role_is_user msg = Ok (is_user msg).
Proof.
  intros H. unfold is_user, role_is_user.
  destruct (get_readable msg "role" H) as [r ->]. reflexivity.
Qed.

Lemma nth_readable (arr : list value) (i : nat) :
  Forall readable arr -> i < length arr -> readable (nth i arr VUndefined).
Proof.
  intros H Hi. apply (proj1 (Forall_forall _ _) H). now apply nth_In.
Qed.

(** The backwards scan finds the last user message below [n]. *)
Lemma lastUserIdx_below_spec (arr : list value) :
  Forall readable arr ->
  forall n, n <= length arr ->
    (lastUserIdx_below n arr = Ok None
     /\ forall j, j < n -> is_user (nth j arr VUndefined) = false)
    \/ (exists i, lastUserIdx_below n arr = Ok (Some i)
                  /\ i < n
                  /\ is_user (nth i arr VUndefined) = true
                  /\ forall j, i < j < n -> is_user (nth j arr VUndefined) = false).
Proof.
  intros Hr. induction n as [|n IH]; intros Hn.
  - left. split; [reflexivity|]. intros; lia.
  - cbn [lastUserIdx_below].
    rewrite (role_is_user_readable _ (nth_readable arr n Hr Hn)). cbn [bind].
    destruct (is_user (nth n arr VUndefined)) eqn:E.
    + right. exists n. repeat split; auto. intros; lia.
    + destruct (IH (Nat.lt_le_incl _ _ Hn)) as [[H1 H2] | (i & H1 & H2 & H3 & H4)].
      * left. split; [exact H1|]. intros j Hj.
        destruct (Nat.eq_dec j n) as [->|]; [exact E|apply H2; lia].
      * right. exists i. repeat split; auto.
        intros j Hj. destruct (Nat.eq_dec j n) as [->|]; [exact E|apply H4; lia].
Qed.

Lemma existsb_nth_false (f : value -> bool) (l : list value) :
  (forall j, j < length l -> f (nth j l VUndefined) = false) ->
  existsb f l = false.
Proof.
  induction l as [|x l IH]; intros H; [reflexivity|].
  cbn [existsb]. pose proof (H 0) as H0. cbn [nth length] in H0.
  rewrite H0 by lia. cbn [orb].
  apply IH. intros j Hj. apply (H (S j)). simpl. lia.
Qed.

Lemma skipn_nth (l : list value) (i : nat) :
  i < length l -> skipn i l = nth i l VUndefined :: skipn (S i) l.
Proof.
  revert i; induction l as [|x l IH]; intros i Hi; [simpl in Hi; lia|].
  destruct i as [|i]; [reflexivity|]. simpl. apply IH. simpl in Hi. lia.
Qed.

Lemma nth_skipn_S (l : list value) (i j : nat) :
  nth j (skipn (S i) l) VUndefined = nth (S i + j) l VUndefined.
Proof.
  revert i j; induction l as [|x l IH]; intros i j.
  - simpl. destruct j; reflexivity.
  - destruct i as [|i]; [reflexivity|]. simpl. apply IH.
Qed.

(** Where the two messages go, in either format. *)
Lemma last_user_split (messages : list value) :
  Forall readable messages ->
  (lastUserIdx messages = Ok None /\ existsb is_user messages = false)
  \/ (exists (i : nat) (u : value) (later : list value),
         lastUserIdx messages = Ok (Some i)
         /\ messages = firstn i messages ++ u :: later
         /\ skipn i messages = u :: later
         /\ is_user u = true
         /\ existsb is_user later = false).
Proof.
  intros Hr. unfold lastUserIdx.
  destruct (lastUserIdx_below_spec messages Hr (length messages) (le_n _))
    as [[H1 H2] | (i & H1 & H2 & H3 & H4)].
  - left. split; [exact H1|]. now apply existsb_nth_false.
  - right. exists i, (nth i messages VUndefined), (skipn (S i) messages).
    pose proof (skipn_nth messages i H2) as Hs.
    repeat split; auto.
    + now rewrite <- Hs, firstn_skipn.
    + apply existsb_nth_false. intros j Hj. rewrite nth_skipn_S.
      rewrite length_skipn in Hj. apply H4. lia.
Qed.

(** X14.  On messages that are objects, injectReasoningPrompt always
    adds exactly two messages, the reasoning prompt and the assistant
    acknowledgement, and changes nothing else: they are inserted
    directly before the last user message, so the final turn of the
    conversation stays the final turn; if there is no user message they
    are appended at the end. *)
Theorem reasoning_prompt_goes_before_last_user_message (messages : list value) :
  Forall readable messages ->
  exists earlier later : list value,
    messages = earlier ++ later
    /\ injectReasoningPrompt messages
       = Ok (earlier ++ [reasoningMessage; assistantAck] ++ later)
    /\ match later with
       | [] => existsb is_user messages = false
       | u :: rest => is_user u = true /\ existsb is_user rest = false
       end.
Proof.
  intros Hr. unfold injectReasoningPrompt.
  destruct (last_user_split messages Hr)
    as [[H1 H2] | (i & u & later & H1 & H2 & H3 & H4 & H5)]; rewrite H1; cbn [bind].
  - exists messages, []. rewrite !app_nil_r. auto.
  - exists (firstn i messages), (u :: later). unfold splice2. rewrite H3. auto.
Qed.

Lemma reasoning_prompt_goes_before_last_user_message_witness :
  exists earlier later : list value,
    sample_turns = earlier ++ later
    /\ injectReasoningPrompt sample_turns
       = Ok (earlier ++ [reasoningMessage; assistantAck] ++ later)
    /\ match later with
       | [] => existsb is_user sample_turns = false
       | u :: rest => is_user u = true /\ existsb is_user rest = false
       end.
Proof.
  apply (reasoning_prompt_goes_before_last_user_message sample_turns).
  repeat constructor; discriminate.
Defined.

(** X15.  The Anthropic-format injection inserts its two messages
    directly before the last user message and changes nothing else; a
    conversation without a user message, the empty one included, is
    returned as it is. *)
Theorem anthropic_reasoning_prompt_goes_before_last_user_message
        (messages : list value) :
  Forall readable messages ->
  (existsb is_user messages = false
   /\ injectReasoningPromptAnthropic messages = Ok messages)
  \/ (exists (earlier : list value) (u : value) (rest : list value),
         messages = earlier ++ u :: rest
         /\ is_user u = true
         /\ existsb is_user rest = false
         /\ injectReasoningPromptAnthropic messages
            = Ok (earlier ++ [reasoningMessageAnthropic; assistantAckAnthropic]
                          ++ u :: rest)).
Proof.
  intros Hr. unfold injectReasoningPromptAnthropic.
  destruct messages as [|m ms]; [left; auto|].
  destruct (last_user_split (m :: ms) Hr)
    as [[H1 H2] | (i & u & later & H1 & H2 & H3 & H4 & H5)]; rewrite H1; cbn [bind].
  - left. auto.
  - right. exists (firstn i (m :: ms)), u, later. unfold splice2. rewrite H3. auto.
Qed.

Lemma anthropic_reasoning_prompt_goes_before_last_user_message_witness :
  injectReasoningPromptAnthropic sample_turns
  = Ok [RouterExample.text_message "hello";
        VObj [("role", VStr "assistant"); ("content", VStr "hi")];
        reasoningMessageAnthropic; assistantAckAnthropic;
        RouterExample.text_message "what is 2+2?";
        VObj [("role", VStr "assistant"); ("content", VStr "let me see")]].
Proof.
  assert (Hr : Forall readable sample_turns) by (repeat constructor; discriminate).
  destruct (anthropic_reasoning_prompt_goes_before_last_user_message sample_turns Hr)
    as [[H _] | (earlier & u & rest & _ & _ & _ & H)].
  - discriminate H.
  - reflexivity.
Defined.

End ReasoningProofs.

(** ** Reasoning extraction *)

Section ExtractProofs.
Import Splitter SplitterSpec ReasoningExtract.

Lemma indexOf_first (s pat : jsstring) :
  forall i,
    i <= length s ->
    startsWith (skipn i s) pat = true ->
    (forall j, j < i -> startsWith (skipn j s) pat = false) ->
    indexOf s pat = Some i.
Proof.
  induction s as [|c s IH]; intros i Hi Hat Hbefore.
  - simpl in Hi. assert (i = 0) by lia. subst. simpl in *. now rewrite Hat.
  - cbn [indexOf]. destruct i as [|i].
    + simpl in Hat. now rewrite Hat.
    + pose proof (Hbefore 0 (Nat.lt_0_succ _)) as H0. cbn [skipn] in H0.
      rewrite H0.
      rewrite (IH i); [reflexivity| simpl in Hi; lia | exact Hat |].
      intros j Hj. apply (Hbefore (S j)). lia.
Qed.

(** The first marker after marker-free text. *)
Lemma indexOf_after_free (x rest tag : jsstring) :
  border_free tag = true ->
  indexOf x tag = None ->
  indexOf (x ++ tag ++ rest) tag = Some (length x).
Proof.
  intros Hb Hx. apply indexOf_first.
  - rewrite length_app. lia.
  - rewrite skipn_app, skipn_all, Nat.sub_diag. simpl.
    apply startsWith_app_iff. eauto.
  - now apply no_occurrence_before_tag.
Qed.

Lemma skipn_past (x y : jsstring) (n : nat) :
  skipn (length x + n) (x ++ y) = skipn n y.
Proof.
  rewrite skipn_app.
  replace (length x + n - length x) with n by lia.
  rewrite skipn_all2 by lia. reflexivity.
Qed.

Lemma firstn_exact (x y : jsstring) : firstn (length x) (x ++ y) = x.
Proof. rewrite firstn_app, Nat.sub_diag, firstn_all. simpl. apply app_nil_r. Qed.

Lemma match_pair_first (t r rest : jsstring) :
  indexOf t REASONING_OPEN_TAG = None ->
  indexOf r REASONING_CLOSE_TAG = None ->
  match_pair (t ++ REASONING_OPEN_TAG ++ r ++ REASONING_CLOSE_TAG ++ rest)
  = Some (t, r, rest).
Proof.
  intros Ht Hr. unfold match_pair.
  rewrite (indexOf_after_free t _ _ open_border_free Ht).
  unfold substringFrom. rewrite skipn_past.
  replace (skipn (length REASONING_OPEN_TAG)
                 (REASONING_OPEN_TAG ++ r ++ REASONING_CLOSE_TAG ++ rest))
    with (r ++ REASONING_CLOSE_TAG ++ rest)
    by (now rewrite skipn_app, skipn_all, Nat.sub_diag).
  rewrite (indexOf_after_free r _ _ close_border_free Hr).
  rewrite !substring_0, !firstn_exact, skipn_past.
  now rewrite skipn_app, skipn_all, Nat.sub_diag.
Qed.

Lemma truthy_app_tag (t x : jsstring) :
  truthy (t ++ REASONING_OPEN_TAG ++ x) = true.
Proof. destruct t; reflexivity. Qed.

(** X16.  On a text with well-formed marker pairs extractReasoning
    takes the first pair only: the reasoning is the trimmed inside of
    the first pair (null when that is empty) and the content is the
    trimmed rest, in which every later pair is left as it is, markers
    included.  A text without markers is returned untouched, not even
    trimmed. *)
Theorem extractReasoning_takes_the_first_pair
        (t : jsstring) (ps : list (jsstring * jsstring)) :
  well_formed (t, ps) ->
  extractReasoning (render (t, ps))
  = match ps with
    | [] => {| reasoning := None; content := t |}
    | (r, t') :: later =>
        {| reasoning := or_null (trim r);
           content := trim (t ++ t' ++ render_pairs later) |}
    end.
Proof.
  intros [[Ht _] Hps]. cbn [fst snd] in *. unfold render. cbn [fst snd].
  destruct ps as [|[r t'] later].
  - cbn [render_pairs]. rewrite app_nil_r. unfold extractReasoning, match_pair.
    rewrite Ht. destruct (truthy t); reflexivity.
  - apply Forall_inv in Hps as [[_ Hr] _]. cbn [fst] in Hr.
    cbn [render_pairs]. unfold extractReasoning.
    rewrite truthy_app_tag. cbn [negb].
    now rewrite (match_pair_first t r _ Ht Hr).
Qed.

Lemma extractReasoning_takes_the_first_pair_witness :
  extractReasoning
    (lit "Hi <reasoning_content> plan </reasoning_content> done <reasoning_content>x</reasoning_content>!")
  = {| reasoning := Some (lit "plan");
       content := lit "Hi  done <reasoning_content>x</reasoning_content>!" |}.
Proof.
  assert (W : well_formed (lit "Hi ", [(lit " plan ", lit " done "); (lit "x", lit "!")])).
  { split; [split; reflexivity|]. repeat constructor. }
  exact (extractReasoning_takes_the_first_pair _ _ W).
Defined.

Lemma filter_pairs (k k' : segtype) (s : jsstring) :
  map snd (filter (fun u => match fst u, k with
                            | thinking, thinking => true
                            | text, text => true
                            | _, _ => false
                            end) (map (pair k') s))
  = match k', k with
    | thinking, thinking => s
    | text, text => s
    | _, _ => []
    end.
Proof.
  induction s as [|x s IH]; [now destruct k, k'|].
  destruct k, k'; simpl in *; now rewrite ?IH.
Qed.

Lemma of_type_units (k : segtype) (out : list segment) :
  of_type k out
  = map snd (filter (fun u => match fst u, k with
                              | thinking, thinking => true
                              | text, text => true
                              | _, _ => false
                              end) (units out)).
Proof.
  unfold of_type, units. induction out as [|sg out IH]; [reflexivity|].
  cbn [filter flat_map map]. rewrite filter_app, map_app, filter_pairs, <- IH.
  destruct (Splitter.type sg), k; reflexivity.
Qed.

(** X17.  On a text with one well-formed marker pair the non-streaming
    extraction and the streaming splitter agree up to trimming, however
    the stream is cut into chunks: extractReasoning returns the trimmed
    thinking output of the splitter as reasoning (null when empty) and
    its trimmed text output as content. *)
Theorem extraction_agrees_with_streaming
        (t r t' : jsstring) (chunks : list jsstring) :
  well_formed (t, [(r, t')]) ->
  concat chunks = render (t, [(r, t')]) ->
  extractReasoning (render (t, [(r, t')]))
  = {| reasoning := or_null (trim (of_type thinking (run chunks)));
       content := trim (of_type text (run chunks)) |}.
Proof.
  intros W Hc.
  rewrite (extractReasoning_takes_the_first_pair t [(r, t')] W).
  rewrite !of_type_units. destruct (run_sound chunks) as [-> _].
  rewrite Hc, (scan_render _ W). unfold expected. cbn [fst snd expected_pairs].
  rewrite !filter_app, !map_app.
  rewrite !(filter_pairs thinking), !(filter_pairs text).
  cbn [render_pairs app]. now rewrite !app_nil_r.
Qed.

Lemma extraction_agrees_with_streaming_witness :
  extractReasoning (lit "a<reasoning_content> b </reasoning_content>c")
  = {| reasoning :=
         or_null (trim (of_type thinking
                          (run [lit "a<reasoning_con"; lit "tent> b </reasoning_content>c"])));
       content :=
         trim (of_type text
                 (run [lit "a<reasoning_con"; lit "tent> b </reasoning_content>c"])) |}.
Proof.
  assert (W : well_formed (lit "a", [(lit " b ", lit "c")])).
  { split; [split; reflexivity|]. repeat constructor. }
  exact (extraction_agrees_with_streaming (lit "a") (lit " b ") (lit "c")
           [lit "a<reasoning_con"; lit "tent> b </reasoning_content>c"] W eq_refl).
Defined.

End ExtractProofs.

(** ** Response transformer *)

Section ResponseProofs.
Import StopReason ReasoningExtract Response.
Local Open Scope string_scope.
Local Open Scope list_scope.

Variable messageId : string.
Variable JSON_parse : string -> Router.value + string.

Local Abbreviation transformResponse :=
  (Response.transformResponse messageId JSON_parse).
Local Abbreviation tool_use_block := (Response.tool_use_block JSON_parse).

Lemma tools_ok (calls : list Executor.tool_call) :
  forallb block_ok
          (map tool_use_block
               (filter (fun tc => negb (isOurTool (Executor.fname tc))) calls))
  = true.
Proof.
  induction calls as [|tc calls IH]; [reflexivity|].
  cbn [filter]. destruct (negb (isOurTool (Executor.fname tc))) eqn:E; [|exact IH].
  cbn [map forallb]. unfold Response.tool_use_block at 1. cbn [block_ok].
  now rewrite E, IH.
Qed.

Lemma ordered_cons (a b : block) (l : list block) :
  ordered (a :: b :: l) = Nat.leb (rank a) (rank b) && ordered (b :: l).
Proof. reflexivity. Qed.

Lemma ordered_before_tools (b : block) (calls : list Executor.tool_call) :
  ordered (b :: map tool_use_block calls) = true.
Proof.
  revert b. induction calls as [|tc calls IH]; intros b; [reflexivity|].
  cbn [map]. rewrite ordered_cons, IH.
  destruct b; reflexivity.
Qed.

Lemma ordered_tools (calls : list Executor.tool_call) :
  ordered (map tool_use_block calls) = true.
Proof. destruct calls; [reflexivity|apply ordered_before_tools]. Qed.

Lemma tools_only (calls : list Executor.tool_call) :
  filter is_thinking (map tool_use_block calls) = []
  /\ filter is_text (map tool_use_block calls) = []
  /\ existsb is_tool_use (map tool_use_block calls) = Nat.ltb 0 (length calls).
Proof.
  induction calls as [|tc calls (H1 & H2 & H3)]; [auto|].
  cbn [map filter existsb length]. unfold Response.tool_use_block at 1 3 5.
  cbn [is_thinking is_text is_tool_use orb]. auto.
Qed.


End ResponseProofs.

(** ** Simulated streaming of a complete response *)

Section SseProofs.
Import Sse.
Local Open Scope string_scope.
Local Open Scope list_scope.

Variable JSON_stringify : Router.value -> option jsstring.
Variable generatedId : string.

Local Abbreviation streamContentBlock :=
  (Sse.streamContentBlock JSON_stringify).
Local Abbreviation streamBlocks := (Sse.streamBlocks JSON_stringify).
Local Abbreviation streamResponse :=
  (Sse.streamResponse JSON_stringify generatedId).
Local Abbreviation block_text := (Sse.block_text JSON_stringify).
Local Abbreviation can_stringify := (Sse.can_stringify JSON_stringify).

Lemma substringZ_chunk (text : jsstring) (p c : nat) :
  substringZ text (Z.of_nat p) (Z.of_nat p + Z.of_nat c)
  = firstn c (skipn p text).
Proof.
  unfold substringZ, substring.
  rewrite <- Nat2Z.inj_add, !Nat2Z.id.
  replace (Nat.min p (p + c)) with p by lia.
  replace (Nat.max p (p + c) - p) with c by lia.
  reflexivity.
Qed.

Lemma streamText_from_chunks (text : jsstring) (index : nat)
      (deltaType deltaField : string) (c : nat) :
  1 <= c ->
  forall n p,
    length text - p <= n ->
    exists events,
      (forall fuel, length text - p < fuel ->
                    streamText_from fuel text index deltaType deltaField
                                    (Z.of_nat c) (Z.of_nat p)
                    = (events, Completed))
      /\ deltas_of index deltaType deltaField events
      /\ concat (chunks events) = skipn p text
      /\ Forall (fun ch => ch <> [] /\ length ch <= c) (chunks events)
      /\ Forall (fun ch => length ch = c) (removelast (chunks events)).
Proof.
  intros Hc. induction n as [|n IH]; intros p Hn.
  - exists []. repeat split; try constructor.
    + intros [|fuel] Hf; [lia|]. cbn [streamText_from].
      destruct (Z.ltb_spec (Z.of_nat p) (Z.of_nat (length text))); [lia|reflexivity].
    + cbn. symmetry. apply skipn_all2. lia.
  - destruct (le_lt_dec (length text) p) as [Hle|Hlt].
    + exists []. repeat split; try constructor.
      * intros [|fuel] Hf; [lia|]. cbn [streamText_from].
        destruct (Z.ltb_spec (Z.of_nat p) (Z.of_nat (length text))); [lia|reflexivity].
      * cbn. symmetry. apply skipn_all2. lia.
    + destruct (IH (p + c)) as (rest & Hrun & Hd & Hcat & Hall & Hfull); [lia|].
      set (ch := firstn c (skipn p text)).
      assert (Hlen : length ch = Nat.min c (length text - p))
        by (unfold ch; now rewrite length_firstn, length_skipn).
      exists (content_block_delta index
                {| delta_type := deltaType; delta_field := deltaField;
                   chunk := ch |} :: rest).
      split; [|split; [|split; [|split]]].
      * intros [|fuel] Hf; [lia|]. cbn [streamText_from].
        destruct (Z.ltb_spec (Z.of_nat p) (Z.of_nat (length text))); [|lia].
        rewrite substringZ_chunk, <- Nat2Z.inj_add.
        rewrite Hrun by lia. reflexivity.
      * constructor; [eauto|exact Hd].
      * cbn [chunks flat_map app concat chunk]. fold (chunks rest). rewrite Hcat.
        unfold ch. rewrite Nat.add_comm, <- skipn_skipn.
        apply firstn_skipn.
      * cbn [chunks flat_map app chunk]. fold (chunks rest).
        constructor; [|exact Hall]. split; [|lia].
        intros E. rewrite E in Hlen. cbn in Hlen. lia.
      * cbn [chunks flat_map app chunk]. fold (chunks rest).
        destruct (le_lt_dec (length text) (p + c)) as [Hend|Hmore].
        -- assert (E : rest = []).
           { specialize (Hrun 1). cbn [streamText_from] in Hrun.
             destruct (Z.ltb_spec (Z.of_nat (p + c)) (Z.of_nat (length text)));
               [lia|].
             assert (H1 : length text - (p + c) < 1) by lia.
             specialize (Hrun H1). now injection Hrun. }
           rewrite E. constructor.
        -- destruct (chunks rest) as [|r0 rs] eqn:Er; [constructor|].
           change (removelast (ch :: r0 :: rs))
             with (ch :: removelast (r0 :: rs)).
           constructor; [lia|exact Hfull].
Qed.



Lemma streamText_from_runs_on (text : jsstring) (index : nat)
      (deltaType deltaField : string) (chunkSize : Z) :
  text <> [] -> (chunkSize <= 0)%Z ->
  forall fuel position,
    (position <= 0)%Z ->
    snd (streamText_from fuel text index deltaType deltaField chunkSize
                         position) = Running.
Proof.
  intros Ht Hc. induction fuel as [|fuel IH]; intros position Hp;
    [reflexivity|].
  cbn [streamText_from].
  destruct (Z.ltb_spec position (Z.of_nat (length text))) as [_|H].
  - cbn [snd]. apply IH. lia.
  - destruct text; [congruence|]. cbn [length] in H. lia.
Qed.


Lemma streamText_events (text : jsstring) (index : nat)
      (deltaType deltaField : string) (chunkSize : Z) :
  (1 <= chunkSize)%Z ->
  exists events,
    (forall fuel, length text < fuel ->
                  streamText fuel text index deltaType deltaField chunkSize
                  = (events, Completed))
    /\ deltas_of index deltaType deltaField events
    /\ concat (chunks events) = text.
Proof.
  intros Hc.
  destruct (streamText_from_chunks text index deltaType deltaField
              (Z.to_nat chunkSize) ltac:(lia) (length text) 0 ltac:(lia))
    as (events & Hrun & Hd & Hcat & _).
  rewrite Z2Nat.id in Hrun by lia.
  exists events. split; [|split; assumption].
  intros fuel Hf. apply Hrun. lia.
Qed.

Lemma framed_deltas (k : nat) (dt df : string) (ds rest : list event) :
  deltas_of k dt df ds ->
  framed k true (ds ++ rest) = framed k true rest.
Proof.
  induction 1 as [|e ds [c ->] _ IH]; [reflexivity|].
  cbn [app framed andb]. now rewrite Nat.eqb_refl.
Qed.

Lemma received_deltas (j k : nat) (dt df : string) (ds : list event) :
  deltas_of k dt df ds ->
  received j ds = if Nat.eqb k j then concat (chunks ds) else [].
Proof.
  unfold received.
  induction 1 as [|e ds [c ->] _ IH]; [now destruct (Nat.eqb k j)|].
  cbn [map concat chunks flat_map chunk_at chunk app].
  fold (chunks ds). rewrite IH. now destruct (Nat.eqb k j).
Qed.

Lemma starts_deltas (k : nat) (dt df : string) (ds : list event) :
  deltas_of k dt df ds -> starts ds = [].
Proof.
  induction 1 as [|e ds [c ->] _ IH]; [reflexivity|exact IH].
Qed.

Lemma received_app (j : nat) (a b : list event) :
  received j (a ++ b) = received j a ++ received j b.
Proof. unfold received. now rewrite map_app, concat_app. Qed.

Lemma starts_app (a b : list event) : starts (a ++ b) = starts a ++ starts b.
Proof. apply flat_map_app. Qed.

Lemma streamContentBlock_events (b : block) (k : nat) (chunkSize : Z) :
  (1 <= chunkSize)%Z ->
  can_stringify b = true ->
  exists ds dt df,
    deltas_of k dt df ds
    /\ concat (chunks ds) = block_text b
    /\ forall fuel,
        length (block_text b) < fuel ->
        streamContentBlock fuel b k chunkSize
        = (content_block_start k (startBlock b) :: ds
             ++ [content_block_stop k], Completed).
Proof.
  intros Hc Hs. unfold Sse.streamContentBlock.
  destruct b as [text|thinking|i name input|raw];
    cbn [Sse.block_text Sse.can_stringify startBlock] in *.
  - destruct text as [|u text].
    + exists [], "", "". repeat split; constructor.
    + destruct (streamText_events (u :: text) k "text_delta" "text"
                  chunkSize Hc) as (ds & Hrun & Hd & Hcat).
      exists ds, "text_delta", "text". split; [exact Hd|].
      split; [exact Hcat|]. intros fuel Hf. cbn [truthy].
      now rewrite (Hrun fuel Hf).
  - destruct thinking as [|u thinking].
    + exists [], "", "". repeat split; constructor.
    + destruct (streamText_events (u :: thinking) k "thinking_delta"
                  "thinking" chunkSize Hc) as (ds & Hrun & Hd & Hcat).
      exists ds, "thinking_delta", "thinking". split; [exact Hd|].
      split; [exact Hcat|]. intros fuel Hf. cbn [truthy].
      now rewrite (Hrun fuel Hf).
  - destruct (JSON_stringify input) as [j|]; [|discriminate].
    destruct (streamText_events j k "input_json_delta" "partial_json"
                chunkSize Hc) as (ds & Hrun & Hd & Hcat).
    exists ds, "input_json_delta", "partial_json". split; [exact Hd|].
    split; [exact Hcat|]. intros fuel Hf.
    now rewrite (Hrun fuel Hf).
  - exists [], "", "". repeat split; constructor.
Qed.

Lemma streamBlocks_events (chunkSize : Z) :
  (1 <= chunkSize)%Z ->
  forall (blocks : list block) (k : nat),
    forallb can_stringify blocks = true ->
    exists body,
      (forall fuel,
          Forall (fun b => length (block_text b) < fuel) blocks ->
          streamBlocks fuel blocks k chunkSize = (body, Completed))
      /\ (forall rest,
             framed k false (body ++ rest)
             = framed (k + length blocks) false rest)
      /\ starts body = map startBlock blocks
      /\ (forall j, j < k -> received j body = [])
      /\ (forall i b, nth_error blocks i = Some b ->
                      received (k + i) body = block_text b).
Proof.
  intros Hc. induction blocks as [|b blocks IH]; intros k Hs.
  - exists []. split; [reflexivity|]. split.
    + intros rest. cbn [app length]. now rewrite Nat.add_0_r.
    + split; [reflexivity|]. split; [reflexivity|].
      intros [|i] b0; discriminate.
  - cbn [forallb] in Hs. apply andb_true_iff in Hs as [Hb Hs].
    destruct (streamContentBlock_events b k chunkSize Hc Hb)
      as (ds & dt & df & Hd & Hcat & Hrun).
    destruct (IH (S k) Hs) as (body & Hbody & Hfr & Hst & Hlow & Hrec).
    exists ((content_block_start k (startBlock b) :: ds
               ++ [content_block_stop k]) ++ body).
    split; [|split; [|split; [|split]]].
    + intros fuel Hf. inversion Hf as [|? ? Hf1 Hf2]; subst.
      cbn [Sse.streamBlocks]. rewrite (Hrun fuel Hf1), (Hbody fuel Hf2).
      reflexivity.
    + intros rest. cbn [app framed negb andb length].
      rewrite Nat.eqb_refl. cbn [andb].
      rewrite <- !app_assoc. rewrite (framed_deltas k dt df) by exact Hd.
      cbn [app framed andb]. rewrite Nat.eqb_refl. cbn [andb].
      rewrite Hfr. f_equal. lia.
    + rewrite starts_app. cbn [starts flat_map app]. fold (starts (ds ++ [content_block_stop k])).
      rewrite starts_app, (starts_deltas k dt df ds Hd), Hst. reflexivity.
    + intros j Hj. rewrite received_app.
      change (content_block_start k (startBlock b) :: ds ++ [content_block_stop k])
        with ([content_block_start k (startBlock b)] ++ ds
                ++ [content_block_stop k]).
      rewrite !received_app, (received_deltas j k dt df ds Hd).
      rewrite (Hlow j) by lia.
      destruct (Nat.eqb_spec k j); [lia|reflexivity].
    + intros i b0 Hi. rewrite received_app.
      change (content_block_start k (startBlock b) :: ds ++ [content_block_stop k])
        with ([content_block_start k (startBlock b)] ++ ds
                ++ [content_block_stop k]).
      rewrite !received_app, (received_deltas (k + i) k dt df ds Hd).
      destruct i as [|i].
      * cbn [nth_error] in Hi. injection Hi as <-.
        rewrite Nat.add_0_r, Nat.eqb_refl, (Hlow k) by lia.
        cbn [received map concat chunk_at app]. rewrite !app_nil_r.
        exact Hcat.
      * cbn [nth_error] in Hi.
        destruct (Nat.eqb_spec k (k + S i)); [lia|].
        replace (k + S i) with (S k + i) by lia.
        rewrite (Hrec i b0 Hi). reflexivity.
Qed.

(** X21.  With a chunk size of at least 1 (20 when none is given) and
    tool inputs that JSON.stringify turns into text, streamResponse
    returns, and what it wrote is a well-formed stream: one
    message_start, then the blocks one after the other, each framed by
    a content_block_start and a content_block_stop with its own index
    (0, 1, 2, ... in the order of the response), then one message_delta
    and one message_stop.  The deltas of each block put together give
    back its text, its thinking or its input as JSON. *)
Theorem streamed_response_is_well_formed
        (anthropicResponse : response) (option_chunkSize : option Z) :
  let blocks :=
    match content anthropicResponse with Some l => l | None => [] end in
  (1 <= chunkSize_of option_chunkSize)%Z ->
  forallb can_stringify blocks = true ->
  exists messageId stop n m body,
    (exists enough, forall fuel,
          enough <= fuel ->
          streamResponse fuel anthropicResponse option_chunkSize
          = (message_start messageId (model anthropicResponse) n
               :: body ++ [message_delta stop m; message_stop],
             Completed))
    /\ framed 0 false body = true
    /\ starts body = map startBlock blocks
    /\ (forall i b, nth_error blocks i = Some b ->
                    received i body = block_text b).
Proof.
  intros blocks Hc Hs.
  destruct (streamBlocks_events _ Hc blocks 0 Hs)
    as (body & Hrun & Hfr & Hst & _ & Hrec).
  eexists _, _, _, _, body. split; [|split; [|split]].
  - exists (S (list_max (map (fun b => length (block_text b)) blocks))).
    intros fuel Hf. unfold Sse.streamResponse. cbv zeta.
    fold blocks. rewrite Hrun; [reflexivity|].
    assert (H : Forall (fun n => n <= list_max
                                       (map (fun b => length (block_text b))
                                            blocks))
                       (map (fun b => length (block_text b)) blocks))
      by now apply list_max_le.
    rewrite Forall_map in H. eapply Forall_impl; [|exact H].
    cbv beta. intros b Hb. lia.
  - specialize (Hfr []). rewrite app_nil_r in Hfr. rewrite Hfr.
    reflexivity.
  - exact Hst.
  - exact Hrec.
Qed.

End SseProofs.

Lemma streamed_response_is_well_formed_witness :
  exists messageId stop n m body,
    (exists enough, forall fuel,
          enough <= fuel ->
          Sse.streamResponse Sse.sample_stringify "msg_1" fuel
                             Sse.sample_response (Some 8%Z)
          = (Sse.message_start messageId (Some "glm-4.7"%string) n
               :: body ++ [Sse.message_delta stop m; Sse.message_stop],
             Sse.Completed))
    /\ Sse.framed 0 false body = true
    /\ Sse.starts body
       = [Sse.StartThinking; Sse.StartText;
          Sse.StartToolUse "call_1" "get_weather"]
    /\ (forall i b,
           nth_error [Sse.ThinkingBlock (lit "plan the answer step by step");
                      Sse.TextBlock (lit "Here is the answer.");
                      Sse.ToolUseBlock "call_1" "get_weather" (Router.VObj [])]
                     i = Some b ->
           Sse.received i body = Sse.block_text Sse.sample_stringify b).
Proof.
  apply (streamed_response_is_well_formed
           Sse.sample_stringify "msg_1" Sse.sample_response (Some 8%Z)).
  - vm_compute. discriminate.
  - reflexivity.
Defined.

(** ** Cleaning a response of the Anthropic endpoint *)

Section CleanProofs.
Import StopReason ReasoningExtract AnthropicClean.
Local Open Scope string_scope.
Local Open Scope list_scope.

Variable reg : Executor.registry.
Variable cfg : Executor.config.
Variable JSON_stringify : Router.value -> jsstring.

Local Abbreviation isInternalTool := (AnthropicClean.isInternalTool reg cfg).
Local Abbreviation sort_block :=
  (AnthropicClean.sort_block reg cfg JSON_stringify).
Local Abbreviation cleanAnthropicResponse :=
  (AnthropicClean.cleanAnthropicResponse reg cfg JSON_stringify).
Local Abbreviation getInternalToolCalls :=
  (AnthropicClean.getInternalToolCalls reg cfg).
Local Abbreviation getClientToolCalls :=
  (AnthropicClean.getClientToolCalls reg cfg).

Local Abbreviation is_client :=
  (fun b : block => String.eqb (type b) "tool_use"
                    && negb (isInternalTool (name b))).
Local Abbreviation is_internal :=
  (fun b : block => String.eqb (type b) "tool_use"
                    && isInternalTool (name b)).
Local Abbreviation is_valid :=
  (fun b : block => includes VALID_CONTENT_TYPES (type b)).
Local Abbreviation is_tool :=
  (fun b : block => String.eqb (type b) "tool_use").
Local Abbreviation no_tool :=
  (fun b : block => is_valid b && negb (String.eqb (type b) "tool_use")).

Lemma forallb_snoc {A : Type} (p : A -> bool) (l : list A) (x : A) :
  forallb p l = true -> p x = true -> forallb p (l ++ [x]) = true.
Proof. intros H1 H2. rewrite forallb_app, H1. cbn. now rewrite H2. Qed.

Lemma sort_block_spec (hasNative : bool) (acc : sorted) (b : block) :
  let acc' := sort_block hasNative acc b in
  clientToolBlocks acc'
  = clientToolBlocks acc ++ filter is_client [b]
  /\ (forallb no_tool (processedContent acc) = true ->
      forallb no_tool (processedContent acc') = true)
  /\ (forallb no_tool (otherBlocks acc) = true ->
      forallb no_tool (otherBlocks acc') = true).
Proof.
  cbv zeta. unfold AnthropicClean.sort_block. cbn [filter].
  destruct (includes VALID_CONTENT_TYPES (type b)) eqn:Ev; cbn [negb].
  - destruct (String.eqb (type b) "tool_use") eqn:Et; cbn [andb].
    + destruct (isInternalTool (name b)); cbn [negb];
        cbn [push_internal push_client clientToolBlocks processedContent
             otherBlocks]; rewrite ?app_nil_r; auto.
    + rewrite app_nil_r.
      destruct (String.eqb (type b) "text").
      * cbv zeta.
        set (ex := extractReasoning (Response.or_empty (text b))).
        destruct (reasoning ex) as [r|];
          [destruct (truthy r && negb hasNative)|];
          destruct (truthy (ReasoningExtract.content ex));
          cbn [push_other push_processed clientToolBlocks processedContent
               otherBlocks];
          (split; [reflexivity|]);
          (split; intros H; try exact H;
           (apply forallb_snoc; [exact H|reflexivity])).
      * cbn [push_other clientToolBlocks processedContent otherBlocks].
        split; [reflexivity|]. split; [auto|].
        intros H. apply forallb_snoc; [exact H|].
        now rewrite Ev, Et.
  - assert (Et : String.eqb (type b) "tool_use" = false).
    { destruct (String.eqb_spec (type b) "tool_use") as [E|]; [|reflexivity].
      rewrite E in Ev. discriminate. }
    rewrite Et. cbn [andb]. rewrite app_nil_r.
    destruct (String.eqb (type b) "server_tool_use"
              || String.eqb (type b) "server_tool_result"); [|auto].
    unfold server_tool_text. cbv zeta.
    destruct (Validate.falsy _); [auto|].
    cbn [push_other clientToolBlocks processedContent otherBlocks].
    split; [reflexivity|]. split; [auto|].
    intros H. apply forallb_snoc; [exact H|reflexivity].
Qed.

Lemma sort_blocks_spec (hasNative : bool) (blocks : list block) :
  forall acc : sorted,
    let acc' := fold_left (sort_block hasNative) blocks acc in
    clientToolBlocks acc'
    = clientToolBlocks acc ++ filter is_client blocks
    /\ (forallb no_tool (processedContent acc) = true ->
        forallb no_tool (processedContent acc') = true)
    /\ (forallb no_tool (otherBlocks acc) = true ->
        forallb no_tool (otherBlocks acc') = true).
Proof.
  induction blocks as [|b blocks IH]; intros acc; cbv zeta.
  - cbn [fold_left filter]. rewrite app_nil_r. auto.
  - cbn [fold_left].
    destruct (sort_block_spec hasNative acc b) as (H1 & H2 & H3).
    destruct (IH (sort_block hasNative acc b)) as (K1 & K2 & K3).
    cbv zeta in *. rewrite K1, H1.
    split; [|auto].
    rewrite <- app_assoc. f_equal.
    change (b :: blocks) with ([b] ++ blocks). now rewrite filter_app.
Qed.

Lemma no_tool_filters (l : list block) :
  forallb no_tool l = true ->
  forallb is_valid l = true
  /\ filter is_client l = [] /\ filter is_internal l = []
  /\ filter is_tool l = [].
Proof.
  induction l as [|b l IH]; [auto|].
  cbn [forallb filter]. intros H. apply andb_true_iff in H as [Hb Hl].
  apply andb_true_iff in Hb as [Hv Ht]. apply negb_true_iff in Ht.
  destruct (IH Hl) as (I1 & I2 & I3 & I4).
  rewrite Hv, Ht, I1. cbn [andb]. auto.
Qed.

Lemma client_filters (l : list block) :
  forallb is_valid (filter is_client l) = true
  /\ filter is_client (filter is_client l) = filter is_client l
  /\ filter is_internal (filter is_client l) = []
  /\ filter is_tool (filter is_client l) = filter is_client l.
Proof.
  induction l as [|b l (I1 & I2 & I3 & I4)]; [auto|].
  cbn [filter].
  destruct (String.eqb_spec (type b) "tool_use") as [Et|Et]; cbn [andb];
    [|auto].
  destruct (isInternalTool (name b)) eqn:Ei; cbn [negb]; [auto|].
  cbn [filter forallb]. rewrite Et. cbn [String.eqb Ascii.eqb Bool.eqb andb].
  rewrite Ei. cbn [negb andb includes VALID_CONTENT_TYPES].
  rewrite I1, I2, I3, I4.
  split; [reflexivity|auto].
Qed.

Lemma clean_shape (r : response) :
  String.eqb (response_type r) "error" = false ->
  let blocks :=
    match response_content r with Some l => l | None => [] end in
  exists front,
    forallb no_tool front = true
    /\ cleanAnthropicResponse (Some r)
       = Some {| response_type := response_type r;
                 reasoning_content := None;
                 response_content := Some (front ++ filter is_client blocks);
                 stop_reason :=
                   match stop_reason r with
                   | Some s =>
                       if String.eqb s "tool_use"
                          && Nat.eqb (length (filter is_client blocks)) 0
                       then Some "end_turn" else Some s
                   | None => None
                   end;
                 rest := rest r |}.
Proof.
  intros Hm blocks. unfold AnthropicClean.cleanAnthropicResponse.
  rewrite Hm. cbv zeta. fold blocks.
  set (native := Response.or_empty (reasoning_content r)).
  set (start := {| processedContent := _ |}).
  destruct (sort_blocks_spec (truthy native) blocks start) as (H1 & H2 & H3).
  cbv zeta in H1, H2, H3.
  set (acc := fold_left _ blocks start) in *.
  cbn [clientToolBlocks start app] in H1.
  exists (processedContent acc ++ otherBlocks acc). split.
  - rewrite forallb_app, H2, H3; [reflexivity|reflexivity|].
    unfold start. cbn [processedContent]. now destruct (truthy native).
  - rewrite H1, <- app_assoc. reflexivity.
Qed.

(** X22.  What cleanAnthropicResponse returns for a response that is
    not an error holds only blocks of the five valid content types;
    none of its tool_use blocks is a tool the proxy handles itself,
    and its tool_use blocks are exactly the client tool calls of the
    original, in their order, at the end of the content.  The stop
    reason is tool_use only if it was so and a client call is left;
    tool_use without a client call becomes end_turn and every other
    stop reason is kept.  The message-level reasoning_content is
    gone, the other fields are copied. *)
Theorem cleaned_response_keeps_only_client_tools (r : response) :
  String.eqb (response_type r) "error" = false ->
  exists cleaned front,
    cleanAnthropicResponse (Some r) = Some cleaned
    /\ response_content cleaned
       = Some (front ++ getClientToolCalls (Some r))
    /\ filter is_tool front = []
    /\ forallb is_valid (content_of (Some cleaned)) = true
    /\ getInternalToolCalls (Some cleaned) = []
    /\ getClientToolCalls (Some cleaned) = getClientToolCalls (Some r)
    /\ stop_reason cleaned
       = match stop_reason r with
         | Some s =>
             if String.eqb s "tool_use"
             then match getClientToolCalls (Some r) with
                  | [] => Some "end_turn"
                  | _ => Some "tool_use"
                  end
             else Some s
         | None => None
         end
    /\ reasoning_content cleaned = None
    /\ response_type cleaned = response_type r
    /\ rest cleaned = rest r.
Proof.
  intros Hm. destruct (clean_shape r Hm) as (front & Hfront & Hclean).
  cbv zeta in Hclean.
  set (blocks := match response_content r with Some l => l | None => [] end)
    in *.
  assert (Hc : getClientToolCalls (Some r) = filter is_client blocks).
  { unfold AnthropicClean.getClientToolCalls, blocks.
    destruct r as [t rc [c|] s re]; reflexivity. }
  destruct (no_tool_filters _ Hfront) as (F1 & F2 & F3 & F4).
  destruct (client_filters blocks) as (C1 & C2 & C3 & C4).
  eexists _, front. split; [exact Hclean|].
  rewrite !Hc.
  cbn [response_content AnthropicClean.stop_reason reasoning_content
       response_type rest content_of AnthropicClean.getInternalToolCalls
       AnthropicClean.getClientToolCalls].
  split; [reflexivity|]. split; [exact F4|].
  rewrite forallb_app, !filter_app, F1, F2, F3, C1, C2, C3.
  split; [reflexivity|]. split; [reflexivity|]. split; [reflexivity|].
  split; [|auto].
  destruct (stop_reason r) as [s|]; [|reflexivity].
  destruct (String.eqb s "tool_use") eqn:Es; cbn [andb]; [|reflexivity].
  apply String.eqb_eq in Es. subst s.
  destruct (filter is_client blocks); reflexivity.
Qed.

Lemma clean_presentable (r : response) :
  exists x,
    cleanAnthropicResponse (Some r) = Some x
    /\ AnthropicExecutor.presentable reg cfg x.
Proof.
  destruct (String.eqb (response_type r) "error") eqn:Hm.
  - exists r. split.
    + unfold AnthropicClean.cleanAnthropicResponse. now rewrite Hm.
    + left. now apply String.eqb_eq.
  - destruct (clean_shape r Hm) as (front & Hfront & Hclean).
    cbv zeta in Hclean.
    set (blocks := match response_content r with Some l => l | None => [] end)
      in *.
    destruct (no_tool_filters _ Hfront) as (F1 & F2 & F3 & F4).
    destruct (client_filters blocks) as (C1 & C2 & C3 & C4).
    eexists. split; [exact Hclean|]. right.
    cbn [response_content reasoning_content content_of
         AnthropicClean.getInternalToolCalls].
    rewrite forallb_app, filter_app, F1, F3, C1, C3. auto.
Qed.

End CleanProofs.

Lemma cleaned_response_keeps_only_client_tools_witness :
  exists cleaned front,
    AnthropicClean.cleanAnthropicResponse
      [] (ExecutorExample.shipped 10) (fun _ => lit "{}")
      (Some AnthropicClean.sample_response)
    = Some cleaned
    /\ AnthropicClean.response_content cleaned
       = Some (front ++ [AnthropicClean.tool_block "Read"%string])
    /\ AnthropicClean.stop_reason cleaned = Some "tool_use"%string.
Proof.
  destruct (cleaned_response_keeps_only_client_tools
              [] (ExecutorExample.shipped 10) (fun _ => lit "{}")
              AnthropicClean.sample_response eq_refl)
    as (cleaned & front & H1 & H2 & _ & _ & _ & _ & H3 & _).
  exists cleaned, front. split; [exact H1|]. split; [exact H2|exact H3].
Defined.

(** ** Tool loop for the Anthropic endpoint *)

Section AnthropicLoop.
Import Executor(registry, config, maxIterations, maxConsecutiveInternal,
                settled, Fulfilled, Rejected, mcp_target).
Import AnthropicClean(block, type, id, input, name, response, response_type,
                      response_content, reasoning_content, stop_reason,
                      rest, getInternalToolCalls, getClientToolCalls).
Import AnthropicExecutor.
Local Open Scope string_scope.
Local Open Scope list_scope.

Variable world : Type.
Variable callApiFn : request -> world -> result response * world.
Variable callMcp : mcp_target -> Router.value -> world -> settled * world.
Variable reg : registry.
Variable cfg : config.
Variable JSON_stringify : Router.value -> jsstring.

Local Abbreviation loop :=
  (AnthropicExecutor.loop world callApiFn callMcp reg cfg JSON_stringify).
Local Abbreviation executeWithToolsAnthropic :=
  (AnthropicExecutor.executeWithToolsAnthropic
     world callApiFn callMcp reg cfg JSON_stringify).
Local Abbreviation executeInternalToolsAnthropic :=
  (AnthropicExecutor.executeInternalToolsAnthropic world callMcp reg).
Local Abbreviation maxIterations' := (AnthropicExecutor.maxIterations' cfg).
Local Abbreviation cap_error :=
  (ToolExecutionError
     ("Tool execution loop exceeded "
        ++ Executor.string_of_nat maxIterations' ++ " iterations")
     maxIterations').

Ltac step_loop :=
  cbn [AnthropicExecutor.loop];
  repeat match goal with
         | |- context [match ?x with _ => _ end] => destruct x eqn:?
         | |- context [if ?x then _ else _] => destruct x eqn:?
         end.

Lemma maxIterations'_pos : 1 <= maxIterations'.
Proof.
  unfold AnthropicExecutor.maxIterations'.
  destruct (maxIterations cfg); lia.
Qed.

Lemma anthropic_loop_outcome (anthropicRequest : request) (rem : nat) :
  forall (it c : nat) (msgs : list message) (log : list request) (w : world),
    let r := loop anthropicRequest rem it c msgs log w in
    (forall resp, outcome r = Ok resp ->
                  exists x, resp = Some x /\ presentable reg cfg x)
    /\ (forall e, outcome r = Throw e ->
                  e = cap_error
                  \/ exists q w0 w1, callApiFn q w0 = (Throw e, w1))
    /\ it <= iterations r <= it + rem
    /\ length (calls r) <= length log + (iterations r - it) + 1
    /\ length log + (iterations r - it) <= length (calls r).
Proof.
  induction rem as [|rem IH]; intros it c msgs log w; cbv zeta.
  - cbn [AnthropicExecutor.loop outcome iterations calls].
    split; [discriminate|]. split; [|lia].
    intros e [= <-]. now left.
  - step_loop; cbn [outcome calls iterations]; rewrite ?length_app;
      cbn [length];
      try (split; [|split; [|lia]];
           [ intros resp [= <-]
           | first [ discriminate | intros e' [= <-]; right; eauto ] ]).
    all: try (unfold AnthropicExecutor.clean;
              apply (clean_presentable reg cfg JSON_stringify)).
    all: try (eexists; split; [reflexivity|]; left;
              now apply String.eqb_eq).
    all: try discriminate.
    all: match goal with
         | |- context [AnthropicExecutor.loop _ _ _ _ _ _ _ _ ?i ?c' ?m ?l ?w'] =>
             specialize (IH i c' m l w'); cbv zeta in IH;
             rewrite ?length_app in IH; cbn [length] in IH;
             destruct IH as (I1 & I2 & I3 & I4 & I5);
             split; [exact I1|]; split; [exact I2|]; lia
         end.
Qed.


Lemma executeInternal_ids (blocks : list block) :
  forall w : world,
    map tool_use_id (fst (executeInternalToolsAnthropic blocks w))
    = map id blocks.
Proof.
  induction blocks as [|b blocks IH]; intros w; [reflexivity|].
  cbn [AnthropicExecutor.executeInternalToolsAnthropic].
  destruct (executeOne world callMcp reg b w) as [r w1] eqn:E1.
  specialize (IH w1).
  destruct (executeInternalToolsAnthropic blocks w1) as [rs w2].
  cbn [fst map] in *. rewrite IH. f_equal.
  unfold executeOne in E1.
  destruct (executeToolAnthropic world callMcp reg (name b) (input b) w)
    as [[v|m] w'];
    injection E1 as <- _; reflexivity.
Qed.

Lemma anthropic_rounds_app (a b : list message) :
  rounds reg cfg a -> rounds reg cfg b -> rounds reg cfg (a ++ b).
Proof.
  induction 1 as [|r trs rest Hid Hne _ IH]; intros Hb; [exact Hb|].
  cbn [app]. constructor; auto.
Qed.

(** A request that carries the conversation followed by some of the
    complete rounds of [added], with the tools of the request or none. *)
Local Abbreviation sent anthropicRequest orig added :=
  (fun q : request =>
     exists pre post : list message,
       messages q = Some (orig ++ pre)
       /\ rounds reg cfg pre
       /\ added = pre ++ post
       /\ other_fields q = other_fields anthropicRequest
       /\ (tools q = tools anthropicRequest \/ tools q = None)).

Lemma anthropic_sent_later (anthropicRequest : request) (orig pre more : list message)
      (log : list request) :
  Forall (sent anthropicRequest orig pre) log ->
  Forall (sent anthropicRequest orig (pre ++ more)) log.
Proof.
  intros H. eapply Forall_impl; [|exact H]. cbv beta.
  intros q (p & s & H1 & H2 & H3 & H4 & H5).
  exists p, (s ++ more). rewrite H3, app_assoc. repeat (split; [auto|]). auto.
Qed.

Lemma anthropic_loop_history (anthropicRequest : request) (orig : list message)
      (rem : nat) :
  forall (it c : nat) (pre : list message) (log : list request) (w : world),
    rounds reg cfg pre ->
    Forall (sent anthropicRequest orig pre) log ->
    let r := loop anthropicRequest rem it c (orig ++ pre) log w in
    exists added,
      history r = orig ++ added
      /\ rounds reg cfg added
      /\ Forall (sent anthropicRequest orig added) (calls r).
Proof.
  induction rem as [|rem IH]; intros it c pre log w Hpre Hlog; cbv zeta.
  - exists pre. cbn [AnthropicExecutor.loop history calls]. auto.
  - assert (Hreq : sent anthropicRequest orig pre
                        (request_at anthropicRequest (orig ++ pre))).
    { exists pre, []. rewrite app_nil_r. cbn. repeat (split; [auto|]). auto. }
    assert (Hlog1 : Forall (sent anthropicRequest orig pre)
                           (log ++ [request_at anthropicRequest (orig ++ pre)])).
    { apply Forall_app. split; [exact Hlog|]. constructor; [exact Hreq|constructor]. }
    cbn [AnthropicExecutor.loop].
    destruct (callApiFn _ w) as [[resp|e] w1];
      [|exists pre; cbn [history calls]; auto].
    destruct (String.eqb (response_type resp) "error");
      [exists pre; cbn [history calls]; auto|].
    destruct (length (getInternalToolCalls reg cfg (Some resp)) =? 0)%nat
      eqn:Eint; [exists pre; cbn [history calls]; auto|].
    assert (Hne : getInternalToolCalls reg cfg (Some resp) <> []).
    { intros E. rewrite E in Eint. discriminate. }
    pose proof (executeInternal_ids (getInternalToolCalls reg cfg (Some resp)) w1)
      as Hids.
    destruct (executeInternalToolsAnthropic _ w1) as [toolResults w2].
    cbn [fst] in Hids.
    assert (Hround : rounds reg cfg
                       (pre ++ [AssistantTurn (response_content resp);
                                ToolResults toolResults])).
    { apply anthropic_rounds_app; [exact Hpre|].
      constructor; [exact Hids|exact Hne|constructor]. }
    assert (Hpush : push_round (orig ++ pre) resp toolResults
                    = orig ++ pre ++ [AssistantTurn (response_content resp);
                                      ToolResults toolResults]).
    { unfold push_round. now rewrite app_assoc. }
    rewrite Hpush.
    set (pre' := pre ++ [AssistantTurn (response_content resp);
                         ToolResults toolResults]) in *.
    assert (Hlog2 : Forall (sent anthropicRequest orig pre')
                           (log ++ [request_at anthropicRequest (orig ++ pre)]))
      by (apply anthropic_sent_later; exact Hlog1).
    destruct ((length (getClientToolCalls reg cfg (Some resp)) =? 0)%nat
              && _).
    + assert (Hfinal : sent anthropicRequest orig pre'
                            (forced_final anthropicRequest (orig ++ pre'))).
      { exists pre', []. rewrite app_nil_r. cbn. repeat (split; [auto|]). auto. }
      destruct (callApiFn _ w2) as [[finalResponse|e] w3];
        exists pre'; cbn [history calls];
        (split; [reflexivity|]); (split; [exact Hround|]);
        (apply Forall_app; split; [exact Hlog2|]);
        (constructor; [exact Hfinal|constructor]).
    + destruct (0 <? length (getClientToolCalls reg cfg (Some resp)))%nat.
      * exists pre'. cbn [history calls]. auto.
      * apply IH; assumption.
Qed.

(** X24.  executeWithToolsAnthropic only appends to the conversation,
    and only complete rounds: an assistant turn with the content of a
    backend response that holds internal tool_use blocks, followed by
    one user turn with exactly one tool_result per such block, carrying
    that block's id, in order.  Every request sent to the backend
    carries the original messages followed by some of these rounds,
    with the other fields of the request and its tools (or no tools in
    the forced final request). *)
Theorem anthropic_history_grows_by_complete_rounds
        (anthropicRequest : request) (w : world) :
  let orig :=
    match messages anthropicRequest with Some l => l | None => [] end in
  let r := executeWithToolsAnthropic anthropicRequest w in
  exists added,
    history r = orig ++ added
    /\ rounds reg cfg added
    /\ Forall (fun q : request =>
                 exists pre post : list message,
                   messages q = Some (orig ++ pre)
                   /\ rounds reg cfg pre
                   /\ added = pre ++ post
                   /\ other_fields q = other_fields anthropicRequest
                   /\ (tools q = tools anthropicRequest \/ tools q = None))
              (calls r).
Proof.
  cbv zeta. unfold AnthropicExecutor.executeWithToolsAnthropic.
  set (orig := match messages anthropicRequest with
               | Some l => l | None => [] end).
  pose proof (anthropic_loop_history anthropicRequest orig maxIterations' 0 0 [] [] w
                (rounds_nil reg cfg) (Forall_nil _)) as H.
  cbv zeta in H. rewrite app_nil_r in H. exact H.
Qed.

End AnthropicLoop.

(** ** Runtime configuration updates *)

Section ConfigProofs.
Import Router(value, VUndefined, VNull, VBool, VNum, VStr, VArr, VObj, get,
              lookup).
Import ConfigUpdate.
Local Open Scope string_scope.
Local Open Scope list_scope.

Variable parseInt : value -> option Z.

Local Abbreviation update_streaming := (ConfigUpdate.update_streaming parseInt).
Local Abbreviation updateConfig := (ConfigUpdate.updateConfig parseInt).

Local Abbreviation is_type_error :=
  (fun e : error => exists m, e = TypeError m).

(** A section either throws a TypeError, on [null], or leaves the
    endpoint settings alone. *)
Local Abbreviation section_ok k r c :=
  (fun fields : list (string * value) =>
     match r with
     | Throw e => lookup k fields = VNull /\ is_type_error e
     | Ok c1 =>
         lookup k fields <> VNull
         /\ endpoint_mode c1 = endpoint_mode c
         /\ endpoint_useAnthropic c1 = endpoint_useAnthropic c
     end).

Ltac by_cases v :=
  destruct v as [| |b|n|s|items|fs]; cbn;
  repeat match goal with
         | |- context [match lookup ?k ?f with _ => _ end] =>
             destruct (lookup k f); cbn
         | |- context [if Validate.defined ?x then _ else _] =>
             destruct (Validate.defined x); cbn
         | |- context [match parseInt ?x with _ => _ end] =>
             destruct (parseInt x); cbn
         end;
  repeat split; eauto; try discriminate.

Lemma update_reasoning_ok (fields : list (string * value)) (c : config) :
  section_ok "reasoning" (update_reasoning (VObj fields) c) c fields.
Proof.
  unfold update_reasoning. cbn [get bind].
  by_cases (lookup "reasoning" fields).
Qed.

Lemma update_streaming_ok (fields : list (string * value)) (c : config) :
  section_ok "streaming" (update_streaming (VObj fields) c) c fields.
Proof.
  unfold ConfigUpdate.update_streaming. cbn [get bind].
  by_cases (lookup "streaming" fields).
Qed.

Lemma update_webSearch_ok (fields : list (string * value)) (c : config) :
  section_ok "webSearch" (update_webSearch (VObj fields) c) c fields.
Proof.
  unfold update_webSearch. cbn [get bind].
  by_cases (lookup "webSearch" fields).
Qed.

Lemma update_zaiApiKey_ok (fields : list (string * value)) (c : config) :
  exists c1 written,
    update_zaiApiKey (VObj fields) c = Ok (c1, written)
    /\ endpoint_mode c1 = endpoint_mode c
    /\ endpoint_useAnthropic c1 = endpoint_useAnthropic c
    /\ forall snapshot, ~ In (SaveSettings snapshot) written.
Proof.
  unfold update_zaiApiKey. cbn [get bind].
  destruct (lookup "zaiApiKey" fields) as [| |b|n|s|items|fs];
    try (eexists _, _; repeat split; cbn; tauto).
  destruct s; eexists _, _; (split; [reflexivity|]); cbn;
    (split; [reflexivity|]); (split; [reflexivity|]);
    intros snapshot H; [tauto|].
  destruct H as [H|[]]. discriminate.
Qed.

Lemma update_endpoint_ok (fields : list (string * value)) (c : config) :
  match update_endpoint (VObj fields) c with
  | Throw e => lookup "endpoint" fields = VNull /\ is_type_error e
  | Ok c1 =>
      lookup "endpoint" fields <> VNull
      /\ (StopReason.includes validModes (endpoint_mode c) = true ->
          StopReason.includes validModes (endpoint_mode c1) = true)
      /\ (forall m, lookup "endpoint" fields = VStr m ->
                    if StopReason.includes validModes m
                    then endpoint_mode c1 = m
                         /\ endpoint_useAnthropic c1 = String.eqb m "anthropic"
                    else c1 = c)
  end.
Proof.
  unfold update_endpoint. cbn [get bind].
  destruct (lookup "endpoint" fields) as [| |b|n|s|items|fs] eqn:E;
    cbn [Validate.defined negb Validate.is_object Validate.typeof
         String.eqb Ascii.eqb Bool.eqb get bind].
  - repeat split; auto; discriminate.
  - split; eauto.
  - repeat split; auto; discriminate.
  - repeat split; auto; discriminate.
  - destruct (StopReason.includes validModes s) eqn:Ev.
    + split; [discriminate|]. split; [intros _; exact Ev|].
      intros m [= <-]. rewrite Ev. split; reflexivity.
    + split; [discriminate|]. split; [auto|].
      intros m [= <-]. now rewrite Ev.
  - repeat split; auto; discriminate.
  - split; [discriminate|]. split; [|discriminate].
    intros Hv.
    destruct (lookup "mode" fs) as [| |b|n|s|items|gs];
      try (destruct (Validate.defined (lookup "useAnthropic" fs));
           exact Hv).
    destruct (StopReason.includes validModes s) eqn:Ev;
      destruct (Validate.defined (lookup "useAnthropic" fs));
      first [exact Hv|exact Ev].
Qed.

Lemma determineEndpoint_valid (c : config) :
  StopReason.includes validModes (endpoint_mode c) = true ->
  Router.determineEndpoint (routing c) false = endpoint_mode c.
Proof.
  unfold Router.determineEndpoint, routing, StopReason.includes, validModes.
  cbn [Router.endpoint_mode existsb].
  rewrite orb_false_r, orb_assoc. intros ->. reflexivity.
Qed.

Ltac sections fields c :=
  unfold ConfigUpdate.updateConfig;
  let H1 := fresh "H1" in
  pose proof (update_reasoning_ok fields c) as H1; cbv beta in H1;
  destruct (update_reasoning (VObj fields) c) as [c1|e1];
  [ let H2 := fresh "H2" in
    pose proof (update_streaming_ok fields c1) as H2; cbv beta in H2;
    destruct (update_streaming (VObj fields) c1) as [c2|e2];
    [ let H3 := fresh "H3" in
      pose proof (update_webSearch_ok fields c2) as H3; cbv beta in H3;
      destruct (update_webSearch (VObj fields) c2) as [c3|e3];
      [ let H4 := fresh "H4" in
        destruct (update_zaiApiKey_ok fields c3)
          as (c4 & written & -> & H4);
        let H5 := fresh "H5" in
        pose proof (update_endpoint_ok fields c4) as H5;
        destruct (update_endpoint (VObj fields) c4) as [c5|e5]
      | ]
    | ]
  | ];
  cbn [final effects thrown].

(** X25.  updateConfig throws exactly when the update itself is null
    or one of its sections reasoning, streaming, webSearch or endpoint
    is null, and then it is a TypeError and the settings are not saved,
    whatever the earlier sections changed.  Otherwise it returns, and
    the last thing it does is to save the settings as they then are. *)
Theorem updateConfig_throws_exactly_on_null (updates : value) (c : config) :
  let o := updateConfig updates c in
  (thrown o = None
   <-> updates <> VNull /\ updates <> VUndefined
       /\ forallb (fun k => negb (is_null (section updates k)))
                  ["reasoning"; "streaming"; "webSearch"; "endpoint"]
          = true)
  /\ (forall e, thrown o = Some e ->
                (exists m, e = TypeError m)
                /\ forall snapshot, ~ In (SaveSettings snapshot) (effects o))
  /\ (thrown o = None ->
      exists before, effects o = before ++ [SaveSettings (final o)]).
Proof.
  cbv zeta.
  destruct updates as [| |b|n|s|items|fields];
    try (cbn; split; [split; [intros; discriminate|intros (H & H' & _); congruence]|];
         split; [intros e [= <-]; split; [eauto|tauto]|discriminate]);
    try (cbn; split; [split; [intros _; repeat split; discriminate|reflexivity]|];
         split; [discriminate|intros _; exists []; reflexivity]).
  cbn [forallb section andb].
  sections fields c.
  - destruct H1 as (N1 & _), H2 as (N2 & _), H3 as (N3 & _), H5 as (N5 & _).
    split; [split; [intros _|reflexivity]|].
    + split; [discriminate|]. split; [discriminate|].
      destruct (lookup "reasoning" fields), (lookup "streaming" fields),
        (lookup "webSearch" fields), (lookup "endpoint" fields);
        try reflexivity; congruence.
    + split; [discriminate|]. intros _. eauto.
  - destruct H5 as (N5 & T5), H4 as (_ & _ & H4).
    split; [split; [discriminate|]|].
    + intros (_ & _ & H). rewrite N5 in H. cbn in H.
      rewrite !andb_false_r in H. discriminate.
    + split; [|discriminate]. intros e [= <-]. split; [exact T5|exact H4].
  - destruct H3 as (N3 & T3).
    split; [split; [discriminate|]|].
    + intros (_ & _ & H). rewrite N3 in H. cbn in H.
      rewrite !andb_false_r in H. discriminate.
    + split; [|discriminate]. intros e [= <-]. split; [exact T3|tauto].
  - destruct H2 as (N2 & T2).
    split; [split; [discriminate|]|].
    + intros (_ & _ & H). rewrite N2 in H. cbn in H.
      rewrite !andb_false_r in H. discriminate.
    + split; [|discriminate]. intros e [= <-]. split; [exact T2|tauto].
  - destruct H1 as (N1 & T1).
    split; [split; [discriminate|]|].
    + intros (_ & _ & H). rewrite N1 in H. cbn in H. discriminate.
    + split; [|discriminate]. intros e [= <-]. split; [exact T1|tauto].
Qed.

(** X26.  The endpoint mode stays one of anthropic, openai and bigmodel
    under every update, also one that throws; only the endpoint section
    changes it.  A returning update whose endpoint is one of the three
    names makes it the mode, sets the legacy flag accordingly, and the
    next request without images is routed there; any other name is
    ignored. *)
Theorem updateConfig_keeps_the_endpoint_mode_valid
        (updates : value) (c : config) :
  let o := updateConfig updates c in
  (StopReason.includes validModes (endpoint_mode c) = true ->
   StopReason.includes validModes (endpoint_mode (final o)) = true
   /\ Router.determineEndpoint (routing (final o)) false
      = endpoint_mode (final o))
  /\ (forall m, section updates "endpoint" = VStr m ->
                thrown o = None ->
                if StopReason.includes validModes m
                then endpoint_mode (final o) = m
                     /\ endpoint_useAnthropic (final o)
                        = String.eqb m "anthropic"
                     /\ Router.determineEndpoint (routing (final o)) false = m
                else endpoint_mode (final o) = endpoint_mode c
                     /\ endpoint_useAnthropic (final o)
                        = endpoint_useAnthropic c).
Proof.
  cbv zeta.
  assert (Hgoal :
    (StopReason.includes validModes (endpoint_mode c) = true ->
     StopReason.includes validModes
       (endpoint_mode (final (updateConfig updates c))) = true)
    /\ (forall m, section updates "endpoint" = VStr m ->
                  thrown (updateConfig updates c) = None ->
                  if StopReason.includes validModes m
                  then endpoint_mode (final (updateConfig updates c)) = m
                       /\ endpoint_useAnthropic (final (updateConfig updates c))
                          = String.eqb m "anthropic"
                  else endpoint_mode (final (updateConfig updates c))
                       = endpoint_mode c
                       /\ endpoint_useAnthropic (final (updateConfig updates c))
                          = endpoint_useAnthropic c)).
  { destruct updates as [| |b|n|s|items|fields];
      try (cbn; split; [auto|discriminate]).
    cbn [section].
    sections fields c.
    - destruct H1 as (_ & M1 & U1), H2 as (_ & M2 & U2),
        H3 as (_ & M3 & U3), H4 as (M4 & U4 & _), H5 as (_ & V5 & S5).
      split.
      + intros Hv. apply V5. now rewrite M4, M3, M2, M1.
      + intros m Em _. specialize (S5 m Em).
        destruct (StopReason.includes validModes m); [exact S5|].
        subst c5. now rewrite M4, M3, M2, M1, U4, U3, U2, U1.
    - destruct H1 as (_ & M1 & U1), H2 as (_ & M2 & U2),
        H3 as (_ & M3 & U3), H4 as (M4 & U4 & _).
      split; [|discriminate]. intros Hv. now rewrite M4, M3, M2, M1.
    - destruct H1 as (_ & M1 & U1), H2 as (_ & M2 & U2).
      split; [|discriminate]. intros Hv. now rewrite M2, M1.
    - destruct H1 as (_ & M1 & U1).
      split; [|discriminate]. intros Hv. now rewrite M1.
    - split; [auto|discriminate]. }
  destruct Hgoal as [G1 G2]. split.
  - intros Hv. split; [auto|]. apply determineEndpoint_valid. auto.
  - intros m Em Ht. specialize (G2 m Em Ht).
    destruct (StopReason.includes validModes m) eqn:Ev; [|exact G2].
    destruct G2 as [G2 G3]. split; [exact G2|]. split; [exact G3|].
    rewrite determineEndpoint_valid; [exact G2|now rewrite G2].
Qed.

End ConfigProofs.

(** ** Web search tools of a request *)

Section WebToolsProofs.
Import WebTools.
Local Open Scope string_scope.
Local Open Scope list_scope.

Variable toLowerCase : jsstring -> jsstring.

Local Abbreviation hasWebSearchTrigger :=
  (WebTools.hasWebSearchTrigger toLowerCase).
Local Abbreviation request_tools := (WebTools.request_tools toLowerCase).
Local Abbreviation not_user := (fun m : message => negb (is_user m)).

Lemma find_skips {A : Type} (p : A -> bool) (l l' : list A) :
  (forall x, In x l -> p x = false) -> find p (l ++ l') = find p l'.
Proof.
  induction l as [|a l IH]; intros H; [reflexivity|].
  cbn [app find]. rewrite (H a (or_introl eq_refl)).
  apply IH. intros x Hx. apply H. now right.
Qed.

Lemma not_user_rev (l : list message) :
  forallb not_user l = true ->
  forall x, In x (rev l) -> is_user x = false.
Proof.
  intros H x Hx. apply in_rev in Hx.
  rewrite forallb_forall in H. specialize (H x Hx).
  now apply negb_true_iff in H.
Qed.

Lemma last_user_found (before after : list message) (m : message) :
  is_user m = true -> forallb not_user after = true ->
  find is_user (rev (before ++ m :: after)) = Some m.
Proof.
  intros Hm Ha. rewrite rev_app_distr. cbn [rev].
  rewrite <- !app_assoc, find_skips by (now apply not_user_rev).
  cbn [app find]. now rewrite Hm.
Qed.

Lemma hasWebSearchTrigger_of (l : list message) (m : message) :
  l <> [] -> find is_user (rev l) = Some m ->
  hasWebSearchTrigger (Some l)
  = existsb (fun trigger => contains (toLowerCase (textContent m))
                                     (lit trigger))
            WEB_SEARCH_TRIGGERS.
Proof.
  intros Hl Hf. unfold WebTools.hasWebSearchTrigger.
  destruct l as [|a l]; [congruence|]. rewrite Hf. cbv zeta.
  generalize WEB_SEARCH_TRIGGERS. intros ts.
  induction ts as [|t ts IH]; [reflexivity|].
  cbn [find existsb].
  destruct (contains (toLowerCase (textContent m)) (lit t)); [reflexivity|].
  exact IH.
Qed.

(** X27.  Only the last user message decides whether the web search
    tools are offered: what comes before it and the assistant turns
    after it are not read.  It triggers exactly when its text - the
    string, or the text blocks joined by a space - contains, once
    lowercased, one of the trigger phrases; a conversation without a
    user message never triggers. *)
Theorem web_search_trigger_reads_the_last_user_message
        (before after : list message) (m : message) :
  is_user m = true ->
  forallb not_user after = true ->
  hasWebSearchTrigger (Some (before ++ m :: after))
  = hasWebSearchTrigger (Some [m])
  /\ (hasWebSearchTrigger (Some (before ++ m :: after)) = true
      <-> exists trigger,
            In trigger WEB_SEARCH_TRIGGERS
            /\ contains (toLowerCase (textContent m)) (lit trigger) = true)
  /\ hasWebSearchTrigger (Some after) = false.
Proof.
  intros Hm Ha.
  assert (H1 : hasWebSearchTrigger (Some (before ++ m :: after))
               = existsb (fun trigger =>
                            contains (toLowerCase (textContent m))
                                     (lit trigger))
                         WEB_SEARCH_TRIGGERS).
  { apply hasWebSearchTrigger_of.
    - destruct before; discriminate.
    - now apply last_user_found. }
  split; [|split].
  - rewrite H1. symmetry. apply hasWebSearchTrigger_of; [discriminate|].
    cbn [rev app find]. now rewrite Hm.
  - rewrite H1, existsb_exists. reflexivity.
  - unfold WebTools.hasWebSearchTrigger.
    destruct after as [|a after]; [reflexivity|].
    rewrite <- (app_nil_r (rev (a :: after))), find_skips
      by (now apply not_user_rev).
    reflexivity.
Qed.

Lemma kept_names (dups : list string) (l : list client_tool) (n : string) :
  StopReason.includes dups n = true ->
  ~ In n (names (map converted
                     (filter (fun tool =>
                                negb (StopReason.includes dups (name tool)))
                             l))).
Proof.
  intros Hn. induction l as [|t l IH]; [auto|].
  cbn [filter].
  destruct (StopReason.includes dups (name t)) eqn:E; cbn [negb]; [exact IH|].
  cbn [map names]. intros [H|H]; [|now apply IH].
  cbn [converted function_name] in H. congruence.
Qed.

Lemma injected_internal (reg : Executor.registry) (cfg : Executor.config)
      (n : string) :
  Executor.webSearch_enabled cfg = true ->
  In n (names getInjectedTools) ->
  Executor.shouldHandleInternally reg cfg n = true.
Proof.
  intros He Hn. unfold Executor.shouldHandleInternally. rewrite He.
  destruct (Executor.findMcpForTool reg n); [reflexivity|].
  destruct Hn as [<-|[<-|[]]]; reflexivity.
Qed.

(** X28.  The tools of a request get the two web tools exactly when
    the configuration enables web search and the last user message
    asks for one.  They are then put first, each under a name that
    occurs once: client tools called WebSearch, websearch, web_search,
    WebFetch, webfetch or web_reader are dropped, all other client
    tools follow in their order; and a call of an injected tool is one
    the executor handles itself under the same configuration.
    Otherwise the tools are the client tools, all of them. *)
Theorem injected_web_tools_are_unique_and_internal
        (reg : Executor.registry) (cfg : Executor.config)
        (messages : option (list message))
        (clientTools : option (list client_tool)) :
  let tools := request_tools cfg messages clientTools in
  let client := match clientTools with Some l => l | None => [] end in
  if Executor.webSearch_enabled cfg && hasWebSearchTrigger messages
  then
    tools
    = getInjectedTools
        ++ map converted
               (filter (fun tool =>
                          negb (StopReason.includes
                                  ["WebSearch"; "websearch"; "web_search";
                                   "WebFetch"; "webfetch"; "web_reader"]
                                  (name tool))) client)
    /\ count_occ string_dec (names tools) "web_search" = 1
    /\ count_occ string_dec (names tools) "web_reader" = 1
    /\ (forall n, In n ["WebSearch"; "websearch"; "WebFetch"; "webfetch"] ->
                  ~ In n (names tools))
    /\ Forall (fun t => Executor.shouldHandleInternally
                          reg cfg (function_name t) = true)
              getInjectedTools
  else tools = map converted client.
Proof.
  cbv zeta. unfold WebTools.request_tools. cbv zeta.
  destruct (Executor.webSearch_enabled cfg && hasWebSearchTrigger messages)
    eqn:E.
  - apply andb_true_iff in E as [He _].
    set (dups := ["WebSearch"; "websearch"; "web_search";
                  "WebFetch"; "webfetch"; "web_reader"]).
    set (client := match clientTools with Some l => l | None => [] end).
    set (kept := filter (fun tool =>
                           negb (StopReason.includes dups (name tool)))
                        client).
    assert (Ht : buildToolsArray clientTools true
                 = getInjectedTools ++ map converted kept).
    { unfold buildToolsArray, kept, client, duplicateToolNames.
      destruct clientTools; [reflexivity|]. cbn [filter map].
      now rewrite app_nil_r. }
    rewrite Ht. split; [reflexivity|].
    assert (Hk : forall n, StopReason.includes dups n = true ->
                           ~ In n (names (map converted kept)))
      by (intros n Hn; now apply kept_names).
    unfold names in *. rewrite map_app, !count_occ_app.
    rewrite (proj1 (count_occ_not_In string_dec _ "web_search")
               (Hk "web_search" eq_refl)).
    rewrite (proj1 (count_occ_not_In string_dec _ "web_reader")
               (Hk "web_reader" eq_refl)).
    split; [reflexivity|]. split; [reflexivity|]. split.
    + intros n Hn Hin. apply in_app_or in Hin as [Hin|Hin].
      * cbn in Hn, Hin.
        destruct Hn as [<-|[<-|[<-|[<-|[]]]]];
          destruct Hin as [Hin|[Hin|[]]]; discriminate.
      * revert Hin. apply Hk.
        cbn in Hn. destruct Hn as [<-|[<-|[<-|[<-|[]]]]]; reflexivity.
    + repeat constructor;
        apply injected_internal; cbn; auto.
  - unfold buildToolsArray, duplicateToolNames.
    destruct clientTools as [l|]; [|reflexivity]. cbn [app].
    f_equal. induction l as [|t l IH]; [reflexivity|].
    cbn [filter StopReason.includes existsb negb]. f_equal. exact IH.
Qed.

End WebToolsProofs.

Lemma web_search_trigger_reads_the_last_user_message_witness :
  WebTools.hasWebSearchTrigger (fun s => s) (Some WebTools.sample_messages)
  = true.
Proof.
  destruct (web_search_trigger_reads_the_last_user_message
              (fun s => s)
              (firstn 2 WebTools.sample_messages)
              (skipn 3 WebTools.sample_messages)
              (nth 2 WebTools.sample_messages
                   (WebTools.Build_message "" (WebTools.Text [])))
              eq_refl eq_refl) as (_ & H & _).
  apply H. exists "search the web"%string. split; [cbn; auto|reflexivity].
Defined.

(** ** Reading a request body *)

Section BodyProofs.
Import Body.
Local Open Scope string_scope.
Local Open Scope list_scope.

Variable toString : chunk -> jsstring.

Local Abbreviation handle := (Body.handle toString).
Local Abbreviation readBody := (Body.readBody toString).
Local Abbreviation text_of := (Body.text_of toString).
Local Abbreviation too_large :=
  (RejectedTooLarge "Request body too large (max 52428800 bytes)"
                    "invalid_request_error" 413).

Lemma settled_stays (events : list event) :
  forall (r : reader) (s : settlement),
    promise r = Some s -> promise (fold_left handle events r) = Some s.
Proof.
  induction events as [|e events IH]; intros r s H; [exact H|].
  cbn [fold_left]. apply IH.
  destruct e as [c| |m]; cbn [Body.handle];
    unfold on_data, on_end, on_error;
    [destruct (N.ltb _ _)|..]; cbn [promise]; rewrite ?H; reflexivity.
Qed.

Lemma destroyed_stays (events : list event) :
  forall r : reader,
    destroyed r = true -> destroyed (fold_left handle events r) = true.
Proof.
  induction events as [|e events IH]; intros r H; [exact H|].
  cbn [fold_left]. apply IH.
  destruct e as [c| |m]; cbn [Body.handle]; unfold on_data, on_end, on_error;
    [destruct (N.ltb _ _)|..]; cbn [destroyed]; auto.
Qed.

Lemma text_of_app (a b : list chunk) :
  text_of (a ++ b) = text_of a ++ text_of b.
Proof. unfold Body.text_of. now rewrite map_app, concat_app. Qed.

Lemma bytes_app (a b : list chunk) :
  bytes (a ++ b) = (bytes a + bytes b)%N.
Proof.
  induction a as [|c a IH]; [reflexivity|].
  cbn [app bytes fold_right]. fold (bytes (a ++ b)) (bytes a).
  rewrite IH. lia.
Qed.

Lemma held_is_bounded (events : list event) :
  forall (r : reader) (kept : list chunk),
    body_data r = text_of kept ->
    (bytes kept <= size r)%N -> (bytes kept <= MAX_BODY_SIZE)%N ->
    exists kept',
      body_data (fold_left handle events r) = text_of kept'
      /\ (bytes kept' <= MAX_BODY_SIZE)%N.
Proof.
  induction events as [|e events IH]; intros r kept Hd Hs Hm; [eauto|].
  cbn [fold_left].
  destruct e as [c| |m]; cbn [Body.handle]; unfold on_data, on_end, on_error.
  - destruct (N.ltb_spec MAX_BODY_SIZE (size r + N.of_nat (length c))).
    + apply (IH _ kept); cbn [body_data size]; auto; lia.
    + apply (IH _ (kept ++ [c])); cbn [body_data size].
      * rewrite text_of_app, Hd. unfold Body.text_of at 3.
        cbn [map concat]. now rewrite app_nil_r.
      * rewrite bytes_app. cbn [bytes fold_right]. lia.
      * rewrite bytes_app. cbn [bytes fold_right]. lia.
  - apply (IH _ kept); cbn [body_data size]; auto.
  - apply (IH _ kept); cbn [body_data size]; auto.
Qed.

Lemma data_run (chunks : list chunk) :
  forall r : reader,
    promise r = None -> (size r <= MAX_BODY_SIZE)%N ->
    let r' := fold_left handle (map data chunks) r in
    if (size r + bytes chunks <=? MAX_BODY_SIZE)%N
    then body_data r' = body_data r ++ text_of chunks
         /\ promise r' = None
    else promise r' = Some too_large /\ destroyed r' = true.
Proof.
  induction chunks as [|c chunks IH]; intros r Hp Hs; cbv zeta.
  - cbn [map fold_left bytes fold_right]. rewrite N.add_0_r.
    destruct (N.leb_spec (size r) MAX_BODY_SIZE); [|lia].
    unfold Body.text_of. cbn. now rewrite app_nil_r.
  - cbn [map fold_left Body.handle].
    cbn [bytes fold_right]. fold (bytes chunks).
    destruct (N.ltb_spec MAX_BODY_SIZE (size r + N.of_nat (length c)))
      as [Hbig|Hfit].
    + destruct (N.leb_spec (size r + (N.of_nat (length c) + bytes chunks))
                           MAX_BODY_SIZE); [lia|].
      apply N.ltb_lt in Hbig. split.
      * apply settled_stays. unfold on_data. rewrite Hbig.
        cbn [promise]. now rewrite Hp.
      * apply destroyed_stays. unfold on_data. now rewrite Hbig.
    + assert (E : on_data toString c r
                  = {| body_data := body_data r ++ toString c;
                       size := size r + N.of_nat (length c);
                       destroyed := destroyed r;
                       promise := promise r |}).
      { unfold on_data. apply N.ltb_ge in Hfit. now rewrite Hfit. }
      rewrite E. set (r1 := {| body_data := _ |}).
      specialize (IH r1 Hp Hfit). cbv zeta in IH.
      cbn [size r1] in IH. rewrite <- N.add_assoc in IH.
      destruct (_ <=? _)%N; [|exact IH].
      destruct IH as [IH1 IH2]. split; [|exact IH2].
      rewrite IH1. cbn [body_data r1]. rewrite <- app_assoc.
      reflexivity.
Qed.

(** X29.  readBody never holds more than MAX_BODY_SIZE (50 MiB) bytes
    of the request, whatever the request emits.  A body whose chunks
    stay within the limit is resolved, at the end event, as the text of
    all its chunks in order; a body that goes beyond it is rejected
    with the invalid_request_error of status 413 and the request is
    destroyed.  The promise is settled once: what the request emits
    afterwards changes nothing. *)
Theorem readBody_enforces_the_size_limit
        (events : list event) (chunks : list chunk) (rest : list event) :
  (exists kept,
      body_data (readBody events) = text_of kept
      /\ (bytes kept <= MAX_BODY_SIZE)%N)
  /\ let r := readBody (map data chunks ++ end_ :: rest) in
     if (bytes chunks <=? MAX_BODY_SIZE)%N
     then promise r = Some (Resolved (text_of chunks))
     else promise r = Some too_large /\ destroyed r = true.
Proof.
  split.
  - apply (held_is_bounded events (start) []); cbn; try reflexivity; lia.
  - cbv zeta. unfold Body.readBody. rewrite fold_left_app.
    pose proof (data_run chunks start eq_refl) as H.
    cbv zeta in H. cbn [size start] in H. rewrite N.add_0_l in H.
    specialize (H ltac:(cbn; lia)).
    destruct (bytes chunks <=? MAX_BODY_SIZE)%N.
    + destruct H as [Hd Hp]. cbn [fold_left Body.handle].
      apply settled_stays. unfold on_end. cbn [promise].
      rewrite Hp, Hd. reflexivity.
    + destruct H as [Hp Hd]. split.
      * now apply settled_stays.
      * now apply destroyed_stays.
Qed.

End BodyProofs.

(** ** Conversion of messages to the OpenAI format *)

Section MessagesProofs.
Import Router(value, VUndefined, VNull, VBool, VNum, VStr, VArr, VObj, get,
              is_str).
Import Messages.
Local Open Scope string_scope.
Local Open Scope list_scope.

Variable JSON_stringify : value -> string.
Variable String_ : value -> string.

Local Abbreviation format_items := (Messages.format_items JSON_stringify String_).
Local Abbreviation formatToolResultContent :=
  (Messages.formatToolResultContent JSON_stringify String_).
Local Abbreviation tool_messages :=
  (Messages.tool_messages JSON_stringify String_).
Local Abbreviation convertMessageToOpenAI :=
  (Messages.convertMessageToOpenAI JSON_stringify String_).
Local Abbreviation convertMessages :=
  (Messages.convertMessages JSON_stringify String_).

Local Abbreviation nullish :=
  (fun v : value => match v with VUndefined | VNull => true | _ => false end).
Local Abbreviation type_error := (fun e : error => exists m, e = TypeError m).

Lemma format_items_spec (items : list value) :
  match format_items items with
  | Ok _ => existsb nullish items = false
  | Throw e => existsb nullish items = true /\ type_error e
  end.
Proof.
  induction items as [|item items IH]; [reflexivity|].
  cbn [Messages.format_items existsb].
  destruct item as [| |b|n|s|l|fields]; cbn [get bind orb]; eauto;
    try (cbn [is_str]; destruct (format_items items); cbn [bind]; exact IH).
  destruct (is_str (Router.lookup "type" fields) "text"); cbn [bind];
    destruct (format_items items); cbn [bind]; exact IH.
Qed.

Lemma formatToolResultContent_spec (b : block) :
  match formatToolResultContent (content b) with
  | Ok _ => unreadable b = false
  | Throw e => unreadable b = true /\ type_error e
  end.
Proof.
  unfold Messages.formatToolResultContent, unreadable.
  destruct (content b) as [| |x|n|s|items|fields]; try reflexivity.
  - cbn. destruct x; reflexivity.
  - cbn. destruct (n =? 0)%Z; reflexivity.
  - pose proof (format_items_spec items) as H.
    destruct (format_items items); cbn [bind]; exact H.
Qed.

Lemma tool_messages_spec (toolResults : list block) :
  match tool_messages toolResults with
  | Ok out =>
      flat_map events_out out
      = map (fun b => Answered (tool_use_id b)) toolResults
      /\ length out = length toolResults
      /\ existsb unreadable toolResults = false
  | Throw e => existsb unreadable toolResults = true /\ type_error e
  end.
Proof.
  induction toolResults as [|r rest IH]; [cbn; auto|].
  cbn [Messages.tool_messages existsb].
  pose proof (formatToolResultContent_spec r) as Hr.
  destruct (formatToolResultContent (content r)) as [c|e]; cbn [bind].
  - rewrite Hr. cbn [orb].
    destruct (tool_messages rest) as [others|e]; cbn [bind]; [|exact IH].
    destruct IH as (I1 & I2 & I3).
    cbn [flat_map events_out app map length]. rewrite I1, I2. auto.
  - destruct Hr as [-> Ht]. auto.
Qed.

Lemma existsb_filter {A : Type} (p q : A -> bool) (l : list A) :
  existsb (fun x => p x && q x) l = existsb q (filter p l).
Proof.
  induction l as [|a l IH]; [reflexivity|].
  cbn [existsb filter]. destruct (p a); cbn [andb orb existsb];
    now rewrite IH.
Qed.

Lemma events_out_app (a b : list openai_message) :
  flat_map events_out (a ++ b)
  = flat_map events_out a ++ flat_map events_out b.
Proof. apply flat_map_app. Qed.

Lemma convertMessageToOpenAI_spec (m : message) :
  match convertMessageToOpenAI m with
  | Ok out =>
      flat_map events_out out = events_in m
      /\ 1 <= length out
      /\ has_unreadable_result m = false
  | Throw e => has_unreadable_result m = true /\ type_error e
  end.
Proof.
  unfold Messages.convertMessageToOpenAI, events_in, has_unreadable_result.
  cbv zeta.
  destruct (message_content_of m) as [s|blocks|]; [cbn; auto| |cbn; auto].
  destruct (String.eqb (role m) "user") eqn:Eu.
  - cbn [andb]. unfold is_type.
    rewrite (existsb_filter (fun b => String.eqb (type b) "tool_result")
                            unreadable).
    pose proof (tool_messages_spec
                  (filter (fun b => String.eqb (type b) "tool_result") blocks))
      as H.
    destruct (filter (fun b => String.eqb (type b) "tool_result") blocks)
      as [|r rs] eqn:Ef; [cbn; auto|].
    destruct (tool_messages (r :: rs)) as [out|e]; cbn [bind]; [|exact H].
    destruct H as (H1 & H2 & H3).
    destruct (filter (fun b => negb (String.eqb (type b) "tool_result")) blocks)
      as [|o os]; cbv beta iota.
    + rewrite H1, H2. cbn [length]. split; [reflexivity|]. split; [lia|exact H3].
    + rewrite events_out_app, H1, length_app, H2.
      cbn [flat_map events_out app length]. rewrite app_nil_r.
      split; [reflexivity|]. split; [lia|exact H3].
  - cbn [andb].
    destruct (String.eqb (role m) "assistant"); [|cbn; auto].
    unfold is_type.
    destruct (filter (fun b => String.eqb (type b) "tool_use") blocks)
      as [|u us]; [cbn; auto|].
    cbn [flat_map events_out app length]. rewrite app_nil_r, map_map.
    split; [reflexivity|]. split; [lia|reflexivity].
Qed.

(** X30.  Converting a conversation to the OpenAI format loses and
    reorders no tool traffic: the tool calls of the assistant turns
    (id and name) and the tool results of the user turns (id) appear
    in the converted messages as tool_calls and as messages of role
    tool, in the same order, and every message gives at least one
    message.  The conversion throws, a TypeError, exactly when the
    content of a tool result of a user turn is an array holding null
    or undefined. *)
Theorem conversion_keeps_tool_calls_and_results (messages : list message) :
  match convertMessages messages with
  | Ok converted =>
      flat_map events_out converted = flat_map events_in messages
      /\ length messages <= length converted
      /\ existsb has_unreadable_result messages = false
  | Throw e =>
      existsb has_unreadable_result messages = true
      /\ exists m, e = TypeError m
  end.
Proof.
  induction messages as [|msg rest IH]; [cbn; auto|].
  cbn [Messages.convertMessages existsb flat_map length].
  pose proof (convertMessageToOpenAI_spec msg) as Hm.
  destruct (convertMessageToOpenAI msg) as [out|e]; cbn [bind].
  - destruct Hm as (M1 & M2 & M3). rewrite M3. cbn [orb].
    destruct (convertMessages rest) as [others|e]; cbn [bind]; [|exact IH].
    destruct IH as (I1 & I2 & I3).
    rewrite events_out_app, M1, I1, length_app.
    split; [reflexivity|]. split; [lia|exact I3].
  - destruct Hm as [-> Ht]. auto.
Qed.

End MessagesProofs.
